(** * openai-api-mock: a shallow embedding of [main.go]

    The program is a mock of a chat-completion HTTP endpoint.  Its handlers
    are embedded as state transformers on a [World] that records what a
    handler does to its [http.ResponseWriter] (headers, status, writes,
    flushes), to the clock (sleeps), to the logger and to the global random
    source.  Go strings are byte strings ([string], one [ascii] per byte),
    runes are integers.

    The parts of the Go standard library the handlers call are embedded
    next to them: the UTF-8 conversions behind [[]rune(s)] and
    [string(runes)], the value scanner of [encoding/json]'s [Decoder], the
    fixed part of the gzip header check and [http.Error].  What remains
    outside (inflating a gzip member, unmarshalling a scanned JSON value
    into the request struct, marshalling the response structs) is a record
    of functions, [GoLib], over which every theorem is universally
    quantified. *)

From Stdlib Require Import ZArith Lia Ascii.
From stdpp Require Import base gmap strings list.

Local Open Scope Z_scope.

(** ** Bytes and Go strings *)

(** [s[i]] as a number, and the conversion [byte(x)] (truncation to 8 bits). *)
Definition byte_val (c : Ascii.ascii) : Z := Z.of_N (Ascii.N_of_ascii c).
Definition byte_chr (x : Z) : Ascii.ascii := Ascii.ascii_of_N (Z.to_N (Z.land x 255)).

(** [s[n:]] for [n <= len(s)]. *)
Fixpoint str_drop (n : nat) (s : string) : string :=
  match n, s with
  | O, _ => s
  | S n', String _ s' => str_drop n' s'
  | S _, EmptyString => EmptyString
  end.

(** [s[:n]] for [n <= len(s)]. *)
Fixpoint str_take (n : nat) (s : string) : string :=
  match n, s with
  | S n', String c s' => String c (str_take n' s')
  | _, _ => EmptyString
  end.

(** [s[i]] when [i < len(s)]. *)
Definition str_at (s : string) (i : nat) : option Z :=
  byte_val <$> String.get i s.

Definition str_concat (l : list string) : string :=
  foldr String.append EmptyString l.

(** The line feed, and the blank line that ends an event-stream frame. *)
Definition LF : string := String (Ascii.ascii_of_nat 10) EmptyString.
Definition LFLF : string := LF +:+ LF.

(** ** UTF-8: [runtime/utf8.go] *)

Module utf8.

Definition rune := Z.

Definition runeError : rune := 0xFFFD.
Definition runeSelf : Z := 0x80.
Definition maxRune : rune := 0x10FFFF.
Definition surrogateMin : rune := 0xD800.
Definition surrogateMax : rune := 0xDFFF.

Definition t1 : Z := 0x00.
Definition tx : Z := 0x80.
Definition t2 : Z := 0xC0.
Definition t3 : Z := 0xE0.
Definition t4 : Z := 0xF0.
Definition t5 : Z := 0xF8.

Definition maskx : Z := 0x3F.
Definition mask2 : Z := 0x1F.
Definition mask3 : Z := 0x0F.
Definition mask4 : Z := 0x07.

Definition rune1Max : Z := Z.shiftl 1 7 - 1.
Definition rune2Max : Z := Z.shiftl 1 11 - 1.
Definition rune3Max : Z := Z.shiftl 1 16 - 1.

Definition locb : Z := 0x80.
Definition hicb : Z := 0xBF.

Definition is_cont (b : Z) : bool := (locb <=? b) && (b <=? hicb).

(** [uint32(r)]. *)
Definition uint32 (r : rune) : Z := r mod 2 ^ 32.

(** [encoderune(p, r)]: the bytes written to [p]. *)
Definition encoderune (r : rune) : string :=
  let i := uint32 r in
  if i <=? rune1Max then
    String (byte_chr r) EmptyString
  else if i <=? rune2Max then
    String (byte_chr (Z.lor t2 (Z.land (Z.shiftr r 6) 255)))
      (String (byte_chr (Z.lor tx (Z.land (Z.land r 255) maskx))) EmptyString)
  else
    let three (r : rune) :=
      String (byte_chr (Z.lor t3 (Z.land (Z.shiftr r 12) 255)))
        (String (byte_chr (Z.lor tx (Z.land (Z.land (Z.shiftr r 6) 255) maskx)))
           (String (byte_chr (Z.lor tx (Z.land (Z.land r 255) maskx))) EmptyString)) in
    if (maxRune <? i) || ((surrogateMin <=? i) && (i <=? surrogateMax)) then
      three runeError
    else if i <=? rune3Max then
      three r
    else
      String (byte_chr (Z.lor t4 (Z.land (Z.shiftr r 18) 255)))
        (String (byte_chr (Z.lor tx (Z.land (Z.land (Z.shiftr r 12) 255) maskx)))
           (String (byte_chr (Z.lor tx (Z.land (Z.land (Z.shiftr r 6) 255) maskx)))
              (String (byte_chr (Z.lor tx (Z.land (Z.land r 255) maskx))) EmptyString))).

(** [decoderune(s, 0)] for a string whose first byte is not ASCII: the
    rune and the number of bytes it takes. *)
Definition decoderune (s : string) : rune * nat :=
  match str_at s 0 with
  | None => (runeError, 1%nat)
  | Some s0 =>
    if (t2 <=? s0) && (s0 <? t3) then
      match str_at s 1 with
      | Some s1 =>
        if is_cont s1 then
          let r := Z.lor (Z.shiftl (Z.land s0 mask2) 6) (Z.land s1 maskx) in
          if rune1Max <? r then (r, 2%nat) else (runeError, 1%nat)
        else (runeError, 1%nat)
      | None => (runeError, 1%nat)
      end
    else if (t3 <=? s0) && (s0 <? t4) then
      match str_at s 1, str_at s 2 with
      | Some s1, Some s2 =>
        if is_cont s1 && is_cont s2 then
          let r := Z.lor (Z.lor (Z.shiftl (Z.land s0 mask3) 12)
                                (Z.shiftl (Z.land s1 maskx) 6))
                         (Z.land s2 maskx) in
          if (rune2Max <? r) && negb ((surrogateMin <=? r) && (r <=? surrogateMax))
          then (r, 3%nat) else (runeError, 1%nat)
        else (runeError, 1%nat)
      | _, _ => (runeError, 1%nat)
      end
    else if (t4 <=? s0) && (s0 <? t5) then
      match str_at s 1, str_at s 2, str_at s 3 with
      | Some s1, Some s2, Some s3 =>
        if is_cont s1 && is_cont s2 && is_cont s3 then
          let r := Z.lor (Z.lor (Z.lor (Z.shiftl (Z.land s0 mask4) 18)
                                       (Z.shiftl (Z.land s1 maskx) 12))
                                (Z.shiftl (Z.land s2 maskx) 6))
                         (Z.land s3 maskx) in
          if (rune3Max <? r) && (r <=? maxRune)
          then (r, 4%nat) else (runeError, 1%nat)
        else (runeError, 1%nat)
      | _, _, _ => (runeError, 1%nat)
      end
    else (runeError, 1%nat)
  end.

(** One step of [for _, r := range s]: ASCII bytes are taken as they
    are, anything else goes through [decoderune]. *)
Definition next_rune (s : string) : rune * nat :=
  match str_at s 0 with
  | Some c => if c <? runeSelf then (c, 1%nat) else decoderune s
  | None => (runeError, 1%nat)
  end.

(** [[]rune(s)] ([stringtoslicerune]).  Every step consumes at least one
    byte, so [len(s)] steps are enough. *)
Fixpoint range_runes (fuel : nat) (s : string) : list rune :=
  match fuel with
  | O => []
  | S fuel' =>
    match s with
    | EmptyString => []
    | String _ _ =>
      let '(r, w) := next_rune s in
      r :: range_runes fuel' (str_drop w s)
    end
  end.

Definition stringtoslicerune (s : string) : list rune :=
  range_runes (String.length s) s.

(** [string(runes)] ([slicerunetostring]). *)
Definition slicerunetostring (a : list rune) : string :=
  str_concat (encoderune <$> a).

(** A Unicode scalar value: a code point that is not a surrogate. *)
Definition scalar (r : rune) : Prop :=
  (0 <= r < surrogateMin) \/ (surrogateMax < r <= maxRune).

End utf8.

(** ** The value scanner of [encoding/json] ([scanner.go])

    [Decoder.Decode] first delimits one JSON value in its input with this
    state machine and only then unmarshals the bytes of that value. *)

Module json.

(** The codes a step returns. *)
Inductive opcode :=
| scanContinue | scanBeginLiteral | scanBeginObject | scanObjectKey
| scanObjectValue | scanEndObject | scanBeginArray | scanArrayValue
| scanEndArray | scanSkipSpace | scanEnd | scanError.

(** The entries of the parse stack. *)
Inductive parse := parseObjectKey | parseObjectValue | parseArrayValue.

(** The value of the field [step]: which state function comes next. *)
Inductive stepfn :=
| StepBeginValueOrEmpty | StepBeginValue | StepBeginStringOrEmpty
| StepBeginString | StepEndValue | StepEndTop
| StepInString | StepInStringEsc | StepInStringEscU | StepInStringEscU1
| StepInStringEscU12 | StepInStringEscU123
| StepNeg | Step1 | Step0 | StepDot | StepDot0 | StepE | StepESign | StepE0
| StepT | StepTr | StepTru | StepF | StepFa | StepFal | StepFals
| StepN | StepNu | StepNul | StepError.

(** [parseState] is kept with its last element (the innermost open
    composite) at the head of the list; [err] keeps the context string
    of the syntax error. *)
Record scanner := Scanner {
  step : stepfn;
  endTop : bool;
  parseState : list parse;
  err : option string;
}.

Definition maxNestingDepth : Z := 10000.

(** A byte literal such as ['{']. *)
Definition ch (a : Ascii.ascii) : Z := byte_val a.
Arguments ch a%_char.

Definition set_step (s : scanner) (f : stepfn) : scanner :=
  Scanner f (endTop s) (parseState s) (err s).

Definition set_top (s : scanner) (p : parse) : scanner :=
  Scanner (step s) (endTop s) (p :: tail (parseState s)) (err s).

(** [s.reset()]. *)
Definition reset : scanner := Scanner StepBeginValue false [] None.

(** [s.error(c, context)]. *)
Definition error (s : scanner) (c : Z) (context : string) : scanner * opcode :=
  (Scanner StepError (endTop s) (parseState s) (Some context), scanError).

Definition pushParseState (s : scanner) (c : Z) (newParseState : parse)
    (successState : opcode) : scanner * opcode :=
  let s := Scanner (step s) (endTop s) (newParseState :: parseState s) (err s) in
  if Z.of_nat (length (parseState s)) <=? maxNestingDepth then (s, successState)
  else error s c "exceeded max depth".

Definition popParseState (s : scanner) : scanner :=
  let st := tail (parseState s) in
  match st with
  | [] => Scanner StepEndTop true st (err s)
  | _ => Scanner StepEndValue (endTop s) st (err s)
  end.

Definition isSpace (c : Z) : bool :=
  (c <=? ch " ") &&
  ((c =? ch " ") || (c =? 9) || (c =? 13) || (c =? 10)).

Definition isDigit (c : Z) : bool := (ch "0" <=? c) && (c <=? ch "9").
Definition isDigit19 (c : Z) : bool := (ch "1" <=? c) && (c <=? ch "9").
Definition isHex (c : Z) : bool :=
  isDigit c || ((ch "a" <=? c) && (c <=? ch "f")) || ((ch "A" <=? c) && (c <=? ch "F")).

Definition stateEndTop (s : scanner) (c : Z) : scanner * opcode :=
  if negb (isSpace c) then ((error s c "after top-level value").1, scanEnd)
  else (s, scanEnd).

Definition stateEndValue (s : scanner) (c : Z) : scanner * opcode :=
  match parseState s with
  | [] => stateEndTop (Scanner StepEndTop true [] (err s)) c
  | ps :: _ =>
    if isSpace c then (set_step s StepEndValue, scanSkipSpace)
    else
      match ps with
      | parseObjectKey =>
        if c =? ch ":" then
          (set_step (set_top s parseObjectValue) StepBeginValue, scanObjectKey)
        else error s c "after object key"
      | parseObjectValue =>
        if c =? ch "," then
          (set_step (set_top s parseObjectKey) StepBeginString, scanObjectValue)
        else if c =? ch "}" then (popParseState s, scanEndObject)
        else error s c "after object key:value pair"
      | parseArrayValue =>
        if c =? ch "," then (set_step s StepBeginValue, scanArrayValue)
        else if c =? ch "]" then (popParseState s, scanEndArray)
        else error s c "after array element"
      end
  end.

Definition stateBeginValue (s : scanner) (c : Z) : scanner * opcode :=
  if isSpace c then (s, scanSkipSpace)
  else if c =? ch "{" then
    pushParseState (set_step s StepBeginStringOrEmpty) c parseObjectKey scanBeginObject
  else if c =? ch "[" then
    pushParseState (set_step s StepBeginValueOrEmpty) c parseArrayValue scanBeginArray
  else if c =? 34 then (set_step s StepInString, scanBeginLiteral)
  else if c =? ch "-" then (set_step s StepNeg, scanBeginLiteral)
  else if c =? ch "0" then (set_step s Step0, scanBeginLiteral)
  else if c =? ch "t" then (set_step s StepT, scanBeginLiteral)
  else if c =? ch "f" then (set_step s StepF, scanBeginLiteral)
  else if c =? ch "n" then (set_step s StepN, scanBeginLiteral)
  else if isDigit19 c then (set_step s Step1, scanBeginLiteral)
  else error s c "looking for beginning of value".

Definition stateBeginValueOrEmpty (s : scanner) (c : Z) : scanner * opcode :=
  if isSpace c then (s, scanSkipSpace)
  else if c =? ch "]" then stateEndValue s c
  else stateBeginValue s c.

Definition stateBeginString (s : scanner) (c : Z) : scanner * opcode :=
  if isSpace c then (s, scanSkipSpace)
  else if c =? 34 then (set_step s StepInString, scanBeginLiteral)
  else error s c "looking for beginning of object key string".

Definition stateBeginStringOrEmpty (s : scanner) (c : Z) : scanner * opcode :=
  if isSpace c then (s, scanSkipSpace)
  else if c =? ch "}" then stateEndValue (set_top s parseObjectValue) c
  else stateBeginString s c.

Definition stateInString (s : scanner) (c : Z) : scanner * opcode :=
  if c =? 34 then (set_step s StepEndValue, scanContinue)
  else if c =? 92 then (set_step s StepInStringEsc, scanContinue)
  else if c <? 32 then error s c "in string literal"
  else (s, scanContinue).

Definition stateInStringEsc (s : scanner) (c : Z) : scanner * opcode :=
  if (c =? ch "b") || (c =? ch "f") || (c =? ch "n") || (c =? ch "r")
     || (c =? ch "t") || (c =? 92) || (c =? ch "/") || (c =? 34)
  then (set_step s StepInString, scanContinue)
  else if c =? ch "u" then (set_step s StepInStringEscU, scanContinue)
  else error s c "in string escape code".

(** [stateInStringEscU], [...U1], [...U12], [...U123]: one hexadecimal
    digit each, [next] being the state after it. *)
Definition stateHex (next : stepfn) (s : scanner) (c : Z) : scanner * opcode :=
  if isHex c then (set_step s next, scanContinue)
  else error s c "in \u hexadecimal character escape".

Definition state0 (s : scanner) (c : Z) : scanner * opcode :=
  if c =? ch "." then (set_step s StepDot, scanContinue)
  else if (c =? ch "e") || (c =? ch "E") then (set_step s StepE, scanContinue)
  else stateEndValue s c.

Definition state1 (s : scanner) (c : Z) : scanner * opcode :=
  if isDigit c then (set_step s Step1, scanContinue)
  else state0 s c.

Definition stateNeg (s : scanner) (c : Z) : scanner * opcode :=
  if c =? ch "0" then (set_step s Step0, scanContinue)
  else if isDigit19 c then (set_step s Step1, scanContinue)
  else error s c "in numeric literal".

Definition stateDot (s : scanner) (c : Z) : scanner * opcode :=
  if isDigit c then (set_step s StepDot0, scanContinue)
  else error s c "after decimal point in numeric literal".

Definition stateDot0 (s : scanner) (c : Z) : scanner * opcode :=
  if isDigit c then (s, scanContinue)
  else if (c =? ch "e") || (c =? ch "E") then (set_step s StepE, scanContinue)
  else stateEndValue s c.

Definition stateESign (s : scanner) (c : Z) : scanner * opcode :=
  if isDigit c then (set_step s StepE0, scanContinue)
  else error s c "in exponent of numeric literal".

Definition stateE (s : scanner) (c : Z) : scanner * opcode :=
  if (c =? ch "+") || (c =? ch "-") then (set_step s StepESign, scanContinue)
  else stateESign s c.

Definition stateE0 (s : scanner) (c : Z) : scanner * opcode :=
  if isDigit c then (s, scanContinue)
  else stateEndValue s c.

(** [stateT], [stateTr], ... [stateNul]: the next letter [want] of a
    literal, [next] being the state after it. *)
Definition stateLit (want : Z) (next : stepfn) (context : string)
    (s : scanner) (c : Z) : scanner * opcode :=
  if c =? want then (set_step s next, scanContinue)
  else error s c context.

Definition stateError (s : scanner) (c : Z) : scanner * opcode := (s, scanError).

(** [s.step(s, c)]. *)
Definition call_step (s : scanner) (c : Z) : scanner * opcode :=
  match step s with
  | StepBeginValueOrEmpty => stateBeginValueOrEmpty s c
  | StepBeginValue => stateBeginValue s c
  | StepBeginStringOrEmpty => stateBeginStringOrEmpty s c
  | StepBeginString => stateBeginString s c
  | StepEndValue => stateEndValue s c
  | StepEndTop => stateEndTop s c
  | StepInString => stateInString s c
  | StepInStringEsc => stateInStringEsc s c
  | StepInStringEscU => stateHex StepInStringEscU1 s c
  | StepInStringEscU1 => stateHex StepInStringEscU12 s c
  | StepInStringEscU12 => stateHex StepInStringEscU123 s c
  | StepInStringEscU123 => stateHex StepInString s c
  | StepNeg => stateNeg s c
  | Step1 => state1 s c
  | Step0 => state0 s c
  | StepDot => stateDot s c
  | StepDot0 => stateDot0 s c
  | StepE => stateE s c
  | StepESign => stateESign s c
  | StepE0 => stateE0 s c
  | StepT => stateLit (ch "r") StepTr "in literal true (expecting 'r')" s c
  | StepTr => stateLit (ch "u") StepTru "in literal true (expecting 'u')" s c
  | StepTru => stateLit (ch "e") StepEndValue "in literal true (expecting 'e')" s c
  | StepF => stateLit (ch "a") StepFa "in literal false (expecting 'a')" s c
  | StepFa => stateLit (ch "l") StepFal "in literal false (expecting 'l')" s c
  | StepFal => stateLit (ch "s") StepFals "in literal false (expecting 's')" s c
  | StepFals => stateLit (ch "e") StepEndValue "in literal false (expecting 'e')" s c
  | StepN => stateLit (ch "u") StepNu "in literal null (expecting 'u')" s c
  | StepNu => stateLit (ch "l") StepNul "in literal null (expecting 'l')" s c
  | StepNul => stateLit (ch "l") StepEndValue "in literal null (expecting 'l')" s c
  | StepError => stateError s c
  end.

(** *** [Decoder.readValue] ([stream.go])

    A reader delivers [rd_data] and then ends, with [io.EOF] ([rd_err =
    None]) or with another error.  The decoder scans what it has
    buffered before it looks at the reader's error, so the way the data
    is cut into reads does not matter. *)

Record Reader := mkReader { rd_data : string; rd_err : option string }.

(** What the scan of the buffered bytes comes to. *)
Inductive scanned :=
| ValueEnds (n : nat)              (* the value is the first [n] bytes *)
| SyntaxErr (context : string)     (* the scanner reported [scanError] *)
| NeedMore (s : scanner) (n : nat). (* all [n] bytes consumed, no end yet *)

(** The inner [for ; scanp < len(dec.buf); scanp++] loop. *)
Fixpoint scanBuf (s : scanner) (buf : string) (scanp : nat) : scanned :=
  match buf with
  | EmptyString => NeedMore s scanp
  | String c buf' =>
    let '(s', op) := call_step s (byte_val c) in
    match op with
    | scanEnd => ValueEnds scanp
    | scanEndObject | scanEndArray =>
      match (stateEndValue s' (ch " ")).2 with
      | scanEnd => ValueEnds (S scanp)
      | _ => scanBuf s' buf' (S scanp)
      end
    | scanError => SyntaxErr (default EmptyString (err s'))
    | _ => scanBuf s' buf' (S scanp)
    end
  end.

(** [nonSpace(b)]: some byte of [b] is not white space. *)
Fixpoint nonSpace (b : string) : bool :=
  match b with
  | EmptyString => false
  | String c b' => negb (isSpace (byte_val c)) || nonSpace b'
  end.

(** [dec.readValue()]: the length of the first value, or an error.  At
    the end of the input a value that needs no closing byte (a number, a
    literal) is complete; anything else is [io.EOF], or
    [io.ErrUnexpectedEOF] when something was read. *)
Definition readValue (rd : Reader) : string + nat :=
  match scanBuf reset (rd_data rd) 0 with
  | ValueEnds n => inr n
  | SyntaxErr e => inl e
  | NeedMore s n =>
    match rd_err rd with
    | None =>
      match (call_step s (ch " ")).2 with
      | scanEnd => inr n
      | _ => inl (if nonSpace (rd_data rd) then "unexpected EOF" else "EOF")
      end
    | Some e => inl e
    end
  end.

End json.

(** The double quote. *)
Definition DQ : string := String (Ascii.ascii_of_nat 34) EmptyString.

(** ** The data model of [main.go] *)

Definition StreamResponseInterval : Z := 50.

Module Message.
Record t := mk { Role : string; Content : string }.
End Message.

Module ChatCompletionRequest.
Record t := mk { Model : string; Messages : list Message.t; Stream : bool }.
End ChatCompletionRequest.

Module ResponseChoice.
Record t := mk { Index : Z; Message : Message.t }.
End ResponseChoice.

Module ChatCompletionResponse.
Record t := mk {
  ID : string; Object : string; Created : Z; Model : string;
  Choices : list ResponseChoice.t;
}.
End ChatCompletionResponse.

Module DeltaMessage.
Record t := mk { Role : string; Content : string }.
End DeltaMessage.

(** [LogProbs] is an [interface{}]; [None] is [nil]. *)
Module ChunkChoice.
Record t := mk {
  Index : Z; Delta : DeltaMessage.t; LogProbs : option string;
  FinishReason : string;
}.
End ChunkChoice.

Module ChatCompletionChunk.
Record t := mk {
  ID : string; Object : string; Created : Z; Model : string;
  SystemFingerprint : string; Choices : list ChunkChoice.t;
}.
End ChatCompletionChunk.

(** ** The world a handler acts on *)

(** [http.Header]: a map from canonical keys to their values. *)
Abbreviation Header := (gmap string (list string)).

(** [h.Get(key)] for a key in canonical form. *)
Definition Header_Get (h : Header) (key : string) : string :=
  match h !! key with
  | Some (v :: _) => v
  | _ => EmptyString
  end.

Definition Header_Set (h : Header) (key value : string) : Header :=
  <[key := [value]]> h.

Definition Header_Del (h : Header) (key : string) : Header := delete key h.

Record Request := mkRequest {
  Method : string;
  ReqHeader : Header;
  Body : string;
}.

(** The values handed to [slog.Info]. *)
Inductive LogValue :=
| LogRequest (req : ChatCompletionRequest.t)
| LogBool (b : bool)
| LogChunk (chunk : ChatCompletionChunk.t).

(** What a handler does, in order. *)
Inductive Event :=
| EvWrite (data : string)        (* [w.Write] *)
| EvFlush                        (* [f.Flush] *)
| EvSleep (d : Z)                (* [time.Sleep], in nanoseconds *)
| EvLog (msg : string) (args : list (string * LogValue)).

(** [respHeader] is [w.Header()]; [wroteHeader] is the status line once it
    is sent, with the headers as they were then; [flusher] says whether
    [w] is an [http.Flusher]; [rand_src] is the supply of the global
    random source and [rand_pos] the number of draws made so far; [clock]
    is the wall clock in nanoseconds since the Unix epoch. *)
Record World := mkWorld {
  respHeader : Header;
  wroteHeader : option (Z * Header);
  trace : list Event;
  flusher : bool;
  rand_src : nat -> Z;
  rand_pos : nat;
  clock : Z;
}.

Definition emit (e : Event) (w : World) : World :=
  mkWorld (respHeader w) (wroteHeader w) (trace w ++ [e]) (flusher w)
          (rand_src w) (rand_pos w) (clock w).

Definition set_respHeader (h : Header) (w : World) : World :=
  mkWorld h (wroteHeader w) (trace w) (flusher w)
          (rand_src w) (rand_pos w) (clock w).

(** The status code of the response, once it is sent. *)
Definition status (w : World) : option Z := fst <$> wroteHeader w.

(** The data of the writes of a trace, in order. *)
Definition writes (tr : list Event) : list string :=
  omap (fun e => match e with EvWrite d => Some d | _ => None end) tr.

(** A handler is a state transformer. *)
Definition M (A : Type) : Type := World -> A * World.

#[global] Instance M_ret : MRet M := fun A a w => (a, w).
#[global] Instance M_bind : MBind M :=
  fun A B k m w => let '(a, w') := m w in k a w'.

Definition exec {A} (m : M A) (w : World) : World := (m w).2.
Definition modify (f : World -> World) : M unit := fun w => (tt, f w).
Definition gets {A} (f : World -> A) : M A := fun w => (f w, w).

(** *** [net/http], [time], [math/rand], [log/slog] *)

Definition w_Header_Set (key value : string) : M unit :=
  modify (fun w => set_respHeader (Header_Set (respHeader w) key value) w).

Definition w_Header_Del (key : string) : M unit :=
  modify (fun w => set_respHeader (Header_Del (respHeader w) key) w).

(** [w.WriteHeader(code)]: the first call sends the status line. *)
Definition w_WriteHeader (code : Z) : M unit :=
  modify (fun w =>
    match wroteHeader w with
    | Some _ => w
    | None => mkWorld (respHeader w) (Some (code, respHeader w)) (trace w)
                      (flusher w) (rand_src w) (rand_pos w) (clock w)
    end).

Definition StatusOK : Z := 200.
Definition StatusBadRequest : Z := 400.
Definition StatusMethodNotAllowed : Z := 405.
Definition StatusInternalServerError : Z := 500.
Definition MethodPost : string := "POST".

(** [w.Write(data)]: sends the status line with [StatusOK] if it is not
    out yet. *)
Definition w_Write (data : string) : M unit :=
  w_WriteHeader StatusOK;; modify (emit (EvWrite data)).

Definition w_Flush : M unit :=
  w_WriteHeader StatusOK;; modify (emit EvFlush).

(** [http.Error(w, error, code)]. *)
Definition http_Error (error : string) (code : Z) : M unit :=
  w_Header_Del "Content-Length";;
  w_Header_Set "Content-Type" "text/plain; charset=utf-8";;
  w_Header_Set "X-Content-Type-Options" "nosniff";;
  w_WriteHeader code;;
  w_Write (error +:+ LF).

Definition Millisecond : Z := 1000000.
Definition Second : Z := 1000 * Millisecond.

Definition time_Sleep (d : Z) : M unit :=
  modify (fun w => mkWorld (respHeader w) (wroteHeader w) (trace w ++ [EvSleep d])
                           (flusher w) (rand_src w) (rand_pos w) (clock w + Z.max 0 d)).

(** [time.Now().Unix()]. *)
Definition time_Now_Unix : M Z := gets (fun w => clock w / Second).

(** [rand.Intn(n)] for [n > 0]: the next value of the supply, brought into
    [[0, n)]. *)
Definition rand_Intn (n : Z) : M Z :=
  fun w => (rand_src w (rand_pos w) mod n,
            mkWorld (respHeader w) (wroteHeader w) (trace w) (flusher w)
                    (rand_src w) (S (rand_pos w)) (clock w)).

Definition slog_Info (msg : string) (args : list (string * LogValue)) : M unit :=
  modify (emit (EvLog msg args)).

(** *** What stays outside: [compress/flate] and the reflection-driven
    halves of [encoding/json] *)

Record GoLib := mkGoLib {
  (** the rest of [gzip.NewReader] once the fixed ten bytes of the header
      are accepted (optional header fields, then the inflated stream the
      reader delivers), given the whole body: [None] when [NewReader]
      fails *)
  gzip_member : string -> option json.Reader;
  (** [decodeState.unmarshal] of one scanned value into a fresh
      [ChatCompletionRequest]: [None] when it returns an error *)
  json_unmarshal : string -> option ChatCompletionRequest.t;
  (** [json.Marshal] of the two response structs *)
  json_Marshal_chunk : ChatCompletionChunk.t -> string;
  json_Marshal_response : ChatCompletionResponse.t -> string;
}.

(** [gzip.NewReader(r.Body)]: [readHeader] wants ten bytes that start with
    the two magic bytes and the deflate method. *)
Definition gzipID1 : Z := 0x1f.
Definition gzipID2 : Z := 0x8b.
Definition gzipDeflate : Z := 8.

Definition gzip_NewReader (lib : GoLib) (body : string) : option json.Reader :=
  if (String.length body <? 10)%nat then None
  else
    match str_at body 0, str_at body 1, str_at body 2 with
    | Some b0, Some b1, Some b2 =>
      if negb (b0 =? gzipID1) || negb (b1 =? gzipID2) || negb (b2 =? gzipDeflate)
      then None
      else gzip_member lib body
    | _, _, _ => None
    end.

(** [json.NewDecoder(body).Decode(&req)]: [None] when it returns an error. *)
Definition json_Decode (lib : GoLib) (body : json.Reader)
    : option ChatCompletionRequest.t :=
  match json.readValue body with
  | inr n => json_unmarshal lib (str_take n (json.rd_data body))
  | inl _ => None
  end.

(** ** The functions of [main.go] *)

Section Handlers.

Variable lib : GoLib.

Definition generateResponse (messages : list Message.t) : string :=
  "who are you? and what are you doing here? and what is your purpose?".

Definition letters : list utf8.rune :=
  utf8.stringtoslicerune
    "abcdefghijklmnopqrstuvwxyzABCDEFGHIJKLMNOPQRSTUVWXYZ0123456789".

(** The loop [for i := range b { b[i] = letters[rand.Intn(len(letters))] }]
    of [randomString], for the [n] elements of [b]. *)
Fixpoint randomRunes (n : nat) : M (list utf8.rune) :=
  match n with
  | O => mret []
  | S n' =>
    k ← rand_Intn (Z.of_nat (length letters));
    b ← randomRunes n';
    mret (nth (Z.to_nat k) letters 0 :: b)
  end.

Definition randomString (n : nat) : M string :=
  b ← randomRunes n; mret (utf8.slicerunetostring b).

Definition toJSON (v : ChatCompletionChunk.t) : string :=
  json_Marshal_chunk lib v.

Definition writeChunk (chunk : ChatCompletionChunk.t) : M unit :=
  let data := "data: " +:+ toJSON chunk +:+ LFLF in
  w_Write data;;
  slog_Info "writeChunk" [("chunk", LogChunk chunk)];;
  ok ← gets flusher;
  if ok : bool then w_Flush else mret tt.

Definition handleNonStreamingResponse (req : ChatCompletionRequest.t) : M unit :=
  suffix ← randomString 10;
  created ← time_Now_Unix;
  let response :=
    ChatCompletionResponse.mk
      ("chatcmpl-" +:+ suffix)
      "chat.completion"
      created
      (ChatCompletionRequest.Model req)
      [ResponseChoice.mk 0
         (Message.mk "assistant"
            (generateResponse (ChatCompletionRequest.Messages req)))] in
  w_Header_Set "Content-Type" "application/json";;
  w_Write (json_Marshal_response lib response +:+ LF).

(** The three chunk literals of [handleStreamingResponse]. *)
Definition initialChunk (id : string) (created : Z)
    (req : ChatCompletionRequest.t) : ChatCompletionChunk.t :=
  ChatCompletionChunk.mk id "chat.completion.chunk" created
    (ChatCompletionRequest.Model req) "fp_44709d6fcb"
    [ChunkChoice.mk 0 (DeltaMessage.mk "assistant" EmptyString) None EmptyString].

Definition contentChunk (id : string) (created : Z)
    (req : ChatCompletionRequest.t) (content : string) : ChatCompletionChunk.t :=
  ChatCompletionChunk.mk id "chat.completion.chunk" created
    (ChatCompletionRequest.Model req) "fp_44709d6fcb"
    [ChunkChoice.mk 0 (DeltaMessage.mk EmptyString content) None EmptyString].

Definition finalChunk (id : string) (created : Z)
    (req : ChatCompletionRequest.t) : ChatCompletionChunk.t :=
  ChatCompletionChunk.mk id "chat.completion.chunk" created
    (ChatCompletionRequest.Model req) "fp_44709d6fcb"
    [ChunkChoice.mk 0 (DeltaMessage.mk EmptyString EmptyString) None "stop"].

(** [l[i:j]] for [i <= j <= len(l)]. *)
Definition slice {A} (l : list A) (i j : nat) : list A := take (j - i) (drop i l).

(** [for i := 0; i < len(runes); i += 2 { ... }], entered at [i].  Each
    round adds two to [i], so [len(runes)] rounds are enough;
    [streamLoop_fuel] shows that more fuel changes nothing. *)
Fixpoint streamLoop (fuel : nat) (id : string) (created : Z)
    (req : ChatCompletionRequest.t) (runes : list utf8.rune) (i : nat) : M unit :=
  match fuel with
  | O => mret tt
  | S fuel' =>
    if (i <? length runes)%nat then
      let content :=
        if (i + 1 <? length runes)%nat
        then utf8.slicerunetostring (slice runes i (i + 2))
        else utf8.slicerunetostring (slice runes i (length runes)) in
      writeChunk (contentChunk id created req content);;
      time_Sleep (StreamResponseInterval * Millisecond);;
      streamLoop fuel' id created req runes (i + 2)
    else mret tt
  end.

Definition DONE : string := "data: [DONE]" +:+ LFLF.

(** [handleStreamingResponse] from the point where [response] is known. *)
Definition streamResponse (response : string) (req : ChatCompletionRequest.t)
    : M unit :=
  suffix ← randomString 10;
  let id := "chatcmpl-" +:+ suffix in
  created ← time_Now_Unix;
  writeChunk (initialChunk id created req);;
  let runes := utf8.stringtoslicerune response in
  streamLoop (length runes) id created req runes 0;;
  writeChunk (finalChunk id created req);;
  w_Write DONE.

Definition handleStreamingResponse (req : ChatCompletionRequest.t) : M unit :=
  w_Header_Set "Content-Type" "text/event-stream";;
  w_Header_Set "Cache-Control" "no-cache";;
  w_Header_Set "Connection" "keep-alive";;
  streamResponse (generateResponse (ChatCompletionRequest.Messages req)) req.

(** [handleChatCompletion] from the method check on, [body] being
    [r.Body] as the gzip step left it. *)
Definition decodeAndRespond (r : Request) (body : json.Reader) : M unit :=
  if negb (String.eqb (Method r) MethodPost) then
    http_Error "Method not allowed" StatusMethodNotAllowed
  else
    match json_Decode lib body with
    | None => http_Error "Invalid request body" StatusBadRequest
    | Some req =>
      slog_Info "handleChatCompletion"
        [("req", LogRequest req);
         ("stream", LogBool (ChatCompletionRequest.Stream req))];;
      if ChatCompletionRequest.Stream req
      then handleStreamingResponse req
      else handleNonStreamingResponse req
    end.

Definition handleChatCompletion (r : Request) : M unit :=
  if String.eqb (Header_Get (ReqHeader r) "Content-Encoding") "gzip" then
    match gzip_NewReader lib (Body r) with
    | None => http_Error "Failed to decompress request body" StatusBadRequest
    | Some gzipReader => decodeAndRespond r gzipReader
    end
  else decodeAndRespond r (json.mkReader (Body r) None).

Definition handleRandomSleep (r : Request) : M unit :=
  d ← rand_Intn 5000;
  time_Sleep (d * Millisecond);;
  handleChatCompletion r.

Definition handleRandomFail (r : Request) : M unit :=
  k ← rand_Intn 10;
  if k <? 5 then http_Error "Random error" StatusInternalServerError
  else handleChatCompletion r.

Definition handleRandom (r : Request) : M unit :=
  k ← rand_Intn 10;
  if k <? 5 then handleRandomFail r
  else
    d ← rand_Intn 5000;
    time_Sleep (d * Millisecond);;
    handleChatCompletion r.

End Handlers.

(** ** Vocabulary of the specification

    The definitions below are not in [main.go]; they name what the
    statements about it talk about. *)

(** What a handler run from [w] to [w'] added to the trace. *)
Definition emitted (w w' : World) : list Event :=
  drop (length (trace w)) (trace w').

(** The event-stream frame of a chunk, as [writeChunk] builds it. *)
Definition frame (lib : GoLib) (c : ChatCompletionChunk.t) : string :=
  "data: " +:+ toJSON lib c +:+ LFLF.

(** The events of one call of [writeChunk]. *)
Definition chunk_events (lib : GoLib) (fl : bool) (c : ChatCompletionChunk.t)
    : list Event :=
  [EvWrite (frame lib c); EvLog "writeChunk" [("chunk", LogChunk c)]]
  ++ (if fl then [EvFlush] else []).

(** A list cut into groups of two, the last group holding one element
    when the length is odd. *)
Fixpoint chunks2 {A} (l : list A) : list (list A) :=
  match l with
  | [] => []
  | [a] => [[a]]
  | a :: b :: l' => [a; b] :: chunks2 l'
  end.

(** The events of one round of the loop of [handleStreamingResponse]. *)
Definition content_events (lib : GoLib) (fl : bool) (id : string) (created : Z)
    (req : ChatCompletionRequest.t) (g : list utf8.rune) : list Event :=
  chunk_events lib fl (contentChunk id created req (utf8.slicerunetostring g))
  ++ [EvSleep (StreamResponseInterval * Millisecond)].

(** The id and the timestamp a response started in [w] carries. *)
Definition fresh_id (w : World) : string := "chatcmpl-" +:+ (randomString 10 w).1.
Definition now_unix (w : World) : Z := clock w / Second.

(** The chunks of a streamed response, in order. *)
Definition stream_chunks (id : string) (created : Z) (req : ChatCompletionRequest.t)
    (response : string) : list ChatCompletionChunk.t :=
  [initialChunk id created req]
  ++ (contentChunk id created req ∘ utf8.slicerunetostring
        <$> chunks2 (utf8.stringtoslicerune response))
  ++ [finalChunk id created req].

(** The events of a streamed response: those of its chunks, then the
    write of the terminator. *)
Definition frame_events (lib : GoLib) (fl : bool) (id : string) (created : Z)
    (req : ChatCompletionRequest.t) (response : string) : list Event :=
  chunk_events lib fl (initialChunk id created req)
  ++ flat_map (content_events lib fl id created req)
       (chunks2 (utf8.stringtoslicerune response))
  ++ chunk_events lib fl (finalChunk id created req).

Definition stream_events (lib : GoLib) (fl : bool) (id : string) (created : Z)
    (req : ChatCompletionRequest.t) (response : string) : list Event :=
  frame_events lib fl id created req response ++ [EvWrite DONE].

(** The envelope [handleNonStreamingResponse] builds in [w]. *)
Definition envelope (w : World) (req : ChatCompletionRequest.t)
    : ChatCompletionResponse.t :=
  ChatCompletionResponse.mk (fresh_id w) "chat.completion" (now_unix w)
    (ChatCompletionRequest.Model req)
    [ResponseChoice.mk 0
       (Message.mk "assistant" (generateResponse (ChatCompletionRequest.Messages req)))].

(** World updates: appending events (sleeps advance the clock), sending
    the status line, drawing [n] random values. *)
Definition slept (evs : list Event) : Z :=
  foldr (fun e acc => match e with EvSleep d => Z.max 0 d + acc | _ => acc end) 0 evs.

Definition emits (evs : list Event) (w : World) : World :=
  mkWorld (respHeader w) (wroteHeader w) (trace w ++ evs) (flusher w)
          (rand_src w) (rand_pos w) (clock w + slept evs).

Definition commit (code : Z) (w : World) : World :=
  match wroteHeader w with
  | Some _ => w
  | None => mkWorld (respHeader w) (Some (code, respHeader w)) (trace w)
                    (flusher w) (rand_src w) (rand_pos w) (clock w)
  end.

Definition skip_draws (n : nat) (w : World) : World :=
  mkWorld (respHeader w) (wroteHeader w) (trace w) (flusher w)
          (rand_src w) (rand_pos w + n) (clock w).

Definition error_headers (h : Header) : Header :=
  Header_Set (Header_Set (Header_Del h "Content-Length")
                "Content-Type" "text/plain; charset=utf-8")
    "X-Content-Type-Options" "nosniff".

Definition stream_headers (h : Header) : Header :=
  Header_Set (Header_Set (Header_Set h "Content-Type" "text/event-stream")
                "Cache-Control" "no-cache")
    "Connection" "keep-alive".

(** [utf8.scalar] as a test. *)
Definition is_scalar (r : utf8.rune) : bool :=
  ((0 <=? r) && (r <? utf8.surrogateMin))
  || ((utf8.surrogateMax <? r) && (r <=? utf8.maxRune)).

(** *** The shape of the frames *)

Definition is_empty (s : string) : bool :=
  match s with EmptyString => true | _ => false end.

(** A frame whose delta has a role and nothing else. *)
Definition role_only (c : ChatCompletionChunk.t) : bool :=
  match ChatCompletionChunk.Choices c with
  | [ch] =>
    negb (is_empty (DeltaMessage.Role (ChunkChoice.Delta ch)))
    && is_empty (DeltaMessage.Content (ChunkChoice.Delta ch))
    && is_empty (ChunkChoice.FinishReason ch)
  | _ => false
  end.

(** A frame whose delta has content and nothing else. *)
Definition content_only (c : ChatCompletionChunk.t) : bool :=
  match ChatCompletionChunk.Choices c with
  | [ch] =>
    negb (is_empty (DeltaMessage.Content (ChunkChoice.Delta ch)))
    && is_empty (DeltaMessage.Role (ChunkChoice.Delta ch))
    && is_empty (ChunkChoice.FinishReason ch)
  | _ => false
  end.

(** A frame with an empty delta that ends the message. *)
Definition terminal (c : ChatCompletionChunk.t) : bool :=
  match ChatCompletionChunk.Choices c with
  | [ch] =>
    is_empty (DeltaMessage.Content (ChunkChoice.Delta ch))
    && is_empty (DeltaMessage.Role (ChunkChoice.Delta ch))
    && String.eqb (ChunkChoice.FinishReason ch) "stop"
  | _ => false
  end.

(** The writes are the frames of a role-only chunk, of content-only
    chunks and of a terminal chunk, and then the terminator. *)
Definition frames_shape (lib : GoLib) (evs : list Event) : Prop :=
  exists first mid last,
    writes evs = (frame lib <$> first :: mid ++ [last]) ++ [DONE]
    /\ role_only first = true
    /\ forallb content_only mid = true
    /\ terminal last = true.

Definition same_on {A B} (f : A -> B) (l : list A) : Prop :=
  forall x y, x ∈ l -> y ∈ l -> f x = f y.

(** The writes are the frames of chunks that agree on id, timestamp,
    model and fingerprint, and then the terminator. *)
Definition frames_share (lib : GoLib) (evs : list Event) : Prop :=
  exists chunks,
    writes evs = (frame lib <$> chunks) ++ [DONE]
    /\ same_on ChatCompletionChunk.ID chunks
    /\ same_on ChatCompletionChunk.Created chunks
    /\ same_on ChatCompletionChunk.Model chunks
    /\ same_on ChatCompletionChunk.SystemFingerprint chunks
    /\ Forall (fun c => ChatCompletionChunk.SystemFingerprint c = "fp_44709d6fcb")
         chunks.

(** *** Flushing *)

(** The trace as the transport sees it: without the log lines. *)
Definition is_transport (e : Event) : bool :=
  match e with EvLog _ _ => false | _ => true end.

Definition transport (tr : list Event) : list Event := List.filter is_transport tr.

(** Every write is followed at once by a flush. *)
Fixpoint flushed_after_each_write (tr : list Event) : bool :=
  match tr with
  | [] => true
  | EvWrite _ :: rest =>
    match rest with
    | EvFlush :: _ => flushed_after_each_write rest
    | _ => false
    end
  | _ :: rest => flushed_after_each_write rest
  end.

(** Every frame of a chunk is flushed at once, and the write of the
    terminator comes last, with nothing after it. *)
Definition frames_flushed (lib : GoLib) (evs : list Event) : Prop :=
  exists chunks before,
    transport evs = before ++ [EvWrite DONE]
    /\ writes before = frame lib <$> chunks
    /\ flushed_after_each_write before = true.

(** *** Decoding *)

Definition gzip_encoded (r : Request) : bool :=
  String.eqb (Header_Get (ReqHeader r) "Content-Encoding") "gzip".

(** [r.Body] as [handleChatCompletion] reads it: [None] when the gzip
    reader cannot be opened. *)
Definition body_reader (lib : GoLib) (r : Request) : option json.Reader :=
  if gzip_encoded r then gzip_NewReader lib (Body r)
  else Some (json.mkReader (Body r) None).

(** The request the body decodes to, if any. *)
Definition decode_request (lib : GoLib) (r : Request)
    : option ChatCompletionRequest.t :=
  body_reader lib r ≫= json_Decode lib.

(** A decoding step of [handleChatCompletion] fails on [r]: the gzip
    reader cannot be opened, or the JSON decoder, which only a POST
    reaches, returns an error. *)
Definition decoding_fails (lib : GoLib) (r : Request) : bool :=
  match body_reader lib r with
  | None => true
  | Some body =>
    String.eqb (Method r) MethodPost
    && match json_Decode lib body with None => true | Some _ => false end
  end.

(** What [handleChatCompletion] does with a decoded request. *)
Definition respond (lib : GoLib) (req : ChatCompletionRequest.t) : M unit :=
  slog_Info "handleChatCompletion"
    [("req", LogRequest req);
     ("stream", LogBool (ChatCompletionRequest.Stream req))];;
  if ChatCompletionRequest.Stream req
  then handleStreamingResponse lib req
  else handleNonStreamingResponse lib req.

(** The first byte that is not JSON white space is the opening brace of
    an object. *)
Fixpoint starts_object (s : string) : bool :=
  match s with
  | EmptyString => false
  | String c s' =>
    if json.isSpace (byte_val c) then starts_object s'
    else byte_val c =? json.ch "{"
  end.

(** The scanner is inside a composite value: its parse stack is not
    empty. *)
Definition inside (s : json.scanner) : Prop :=
  json.parseState s <> [] /\ json.step s <> json.StepEndTop.

(** What one step inside a composite value may come to: never the end of
    the top-level value; the scanner stays inside unless the step closes
    the outermost composite, which [readValue] notices at once, or
    fails. *)
Definition step_ok (r : json.scanner * json.opcode) : Prop :=
  match r.2 with
  | json.scanEnd => False
  | json.scanError => True
  | json.scanEndObject | json.scanEndArray =>
    (json.stateEndValue r.1 (json.ch " ")).2 = json.scanEnd \/ inside r.1
  | _ => inside r.1
  end.

(** *** The combined fault-injection route *)

Inductive Outcome := HardFailure | DelayedDelegation | PlainDelegation.

Definition Outcome_eqb (a b : Outcome) : bool :=
  match a, b with
  | HardFailure, HardFailure
  | DelayedDelegation, DelayedDelegation
  | PlainDelegation, PlainDelegation => true
  | _, _ => false
  end.

(** What a client can tell from the response: a hard failure is a status
    of 500, a delay is a sleep before anything else happens. *)
Definition classify (w w' : World) : Outcome :=
  let failed :=
    match status w' with
    | Some code => code =? StatusInternalServerError
    | None => false
    end in
  if failed then HardFailure
  else
    match emitted w w' with
    | EvSleep _ :: _ => DelayedDelegation
    | _ => PlainDelegation
    end.

(** The world in which the next two values of the random supply are [a]
    and [b]. *)
Definition with_draws (a b : Z) (w : World) : World :=
  mkWorld (respHeader w) (wroteHeader w) (trace w) (flusher w)
    (fun n => if (n =? rand_pos w)%nat then a
              else if (n =? S (rand_pos w))%nat then b
              else rand_src w n)
    (rand_pos w) (clock w).

Definition outcome (lib : GoLib) (r : Request) (w : World) (a b : Z) : Outcome :=
  let w0 := with_draws a b w in
  classify w0 (exec (handleRandom lib r) w0).

(** The hundred equally likely pairs of values of two independent draws,
    each uniform on [0, 10). *)
Definition draw_pairs : list (Z * Z) := list_prod (seqZ 0 10) (seqZ 0 10).

Definition count_outcome (lib : GoLib) (r : Request) (w : World) (o : Outcome)
    : nat :=
  length (List.filter (fun p => Outcome_eqb (outcome lib r w p.1 p.2) o) draw_pairs).

(** [c] out of [total] is 0.375 to within 0.1. *)
Definition near_three_eighths (c total : nat) : bool :=
  Z.abs (8 * Z.of_nat c - 3 * Z.of_nat total) * 10 <=? 8 * Z.of_nat total.

(** ** A stand-in for the library and a first world

    To run the handlers on examples: gzip members that hold one stored
    block (their checksums are not verified), an unmarshaller that only
    looks for the word [true], and marshallers that list a few fields. *)

Fixpoint str_prefix (p s : string) : bool :=
  match p, s with
  | EmptyString, _ => true
  | String a p', String b s' => Ascii.eqb a b && str_prefix p' s'
  | String _ _, EmptyString => false
  end.

Fixpoint str_contains (p s : string) : bool :=
  match s with
  | EmptyString => str_prefix p s
  | String _ s' => str_prefix p s || str_contains p s'
  end.

Definition str_of_bytes (l : list Z) : string :=
  foldr (fun b s => String (byte_chr b) s) EmptyString l.

Definition demo_gzip_member (body : string) : option json.Reader :=
  match str_at body 3 with
  | Some 0 =>
    let rest := str_drop 10 body in
    match str_at rest 0, str_at rest 1, str_at rest 2 with
    | Some 1, Some lo, Some hi =>
      let len := Z.to_nat (lo + 256 * hi) in
      let data := str_take len (str_drop 5 rest) in
      if (String.length data =? len)%nat
      then Some (json.mkReader data None)
      else Some (json.mkReader data (Some "unexpected EOF"))
    | _, _, _ => Some (json.mkReader EmptyString (Some "flate: corrupt input"))
    end
  | _ => None
  end.

Definition demo_unmarshal (v : string) : option ChatCompletionRequest.t :=
  Some (ChatCompletionRequest.mk "gpt-4" [Message.mk "user" "hi"]
          (str_contains "true" v)).

Definition demo_Marshal_chunk (c : ChatCompletionChunk.t) : string :=
  "{" +:+ ChatCompletionChunk.ID c +:+ "," +:+ ChatCompletionChunk.Model c
  +:+ str_concat
        ((fun ch => "," +:+ DeltaMessage.Role (ChunkChoice.Delta ch)
                    +:+ "," +:+ DeltaMessage.Content (ChunkChoice.Delta ch)
                    +:+ "," +:+ ChunkChoice.FinishReason ch)
           <$> ChatCompletionChunk.Choices c)
  +:+ "}".

Definition demo_Marshal_response (r : ChatCompletionResponse.t) : string :=
  "{" +:+ ChatCompletionResponse.ID r +:+ "," +:+ ChatCompletionResponse.Model r
  +:+ str_concat
        ((fun ch => "," +:+ Message.Content (ResponseChoice.Message ch))
           <$> ChatCompletionResponse.Choices r)
  +:+ "}".

Definition demoLib : GoLib :=
  mkGoLib demo_gzip_member demo_unmarshal demo_Marshal_chunk demo_Marshal_response.

(** A fresh response writer that can flush, some random supply, and a
    clock. *)
Definition demoWorld : World :=
  mkWorld ∅ None [] true (fun n => Z.of_nat (7 * n + 3)) 0 (1700000000 * Second).

Definition quoted (s : string) : string := DQ +:+ s +:+ DQ.

(** A body with the model gpt-4 and stream set to true. *)
Definition demoBody : string :=
  "{" +:+ quoted "model" +:+ ":" +:+ quoted "gpt-4" +:+ ","
  +:+ quoted "stream" +:+ ":true}".

Definition demoRequest : Request := mkRequest "POST" ∅ demoBody.

(** [demoBody] as a gzip member with one stored block. *)
Definition demoGzipBody : string :=
  str_of_bytes [0x1f; 0x8b; 8; 0; 0; 0; 0; 0; 0; 0xff;
                1; Z.of_nat (String.length demoBody); 0;
                255 - Z.of_nat (String.length demoBody); 255]
  +:+ demoBody +:+ str_of_bytes [0; 0; 0; 0; Z.of_nat (String.length demoBody); 0; 0; 0].

Definition demoGzipRequest : Request :=
  mkRequest "POST" {["Content-Encoding" := ["gzip"]]} demoGzipBody.

(** A GET that announces gzip and has no body. *)
Definition demoGetRequest : Request :=
  mkRequest "GET" {["Content-Encoding" := ["gzip"]]} EmptyString.

Definition demoReq : ChatCompletionRequest.t :=
  ChatCompletionRequest.mk "gpt-4" [Message.mk "user" "hi"] true.

(** A POST whose body is not JSON. *)
Definition demoBadRequest : Request := mkRequest "POST" ∅ "{oops".

(** The runes of [hé€]. *)
Definition demoRunes : list utf8.rune := [0x68; 0xE9; 0x20AC].

(** ** Further vocabulary *)

(** The bytes of a string, as numbers. *)
Fixpoint str_bytes (s : string) : list Z :=
  match s with
  | EmptyString => []
  | String c s' => byte_val c :: str_bytes s'
  end.

(** An ASCII letter or digit. *)
Definition is_alnum (c : Z) : bool :=
  ((json.ch "a" <=? c) && (c <=? json.ch "z"))
  || ((json.ch "A" <=? c) && (c <=? json.ch "Z"))
  || ((json.ch "0" <=? c) && (c <=? json.ch "9")).

(** The chunks [writeChunk] logged, in order. *)
Definition logged_chunks (tr : list Event) : list ChatCompletionChunk.t :=
  omap (fun e => match e with
                 | EvLog _ [(_, LogChunk c)] => Some c
                 | _ => None
                 end) tr.

Definition is_flush (e : Event) : bool :=
  match e with EvFlush => true | _ => false end.

(** The world with a response writer that can, or cannot, flush. *)
Definition set_flusher (fl : bool) (w : World) : World :=
  mkWorld (respHeader w) (wroteHeader w) (trace w) fl
          (rand_src w) (rand_pos w) (clock w).

(** What reaches the transport for one chunk, and for the whole stream. *)
Definition chunk_transport (lib : GoLib) (fl : bool) (c : ChatCompletionChunk.t)
    : list Event :=
  EvWrite (frame lib c) :: (if fl then [EvFlush] else []).

Definition stream_transport (lib : GoLib) (fl : bool) (id : string) (created : Z)
    (req : ChatCompletionRequest.t) (response : string) : list Event :=
  chunk_transport lib fl (initialChunk id created req)
  ++ flat_map
       (fun g => chunk_transport lib fl
                   (contentChunk id created req (utf8.slicerunetostring g))
                 ++ [EvSleep (StreamResponseInterval * Millisecond)])
       (chunks2 (utf8.stringtoslicerune response))
  ++ chunk_transport lib fl (finalChunk id created req)
  ++ [EvWrite DONE].

(** How many of the ten equally likely values of one draw of
    [rand.Intn(10)] lead the failure route to the outcome [o]. *)
Definition count_fail_outcome (lib : GoLib) (r : Request) (w : World) (o : Outcome)
    : nat :=
  length (List.filter
            (fun a => Outcome_eqb
                        (classify (with_draws a 0 w)
                           (exec (handleRandomFail lib r) (with_draws a 0 w))) o)
            (seqZ 0 10)).

(** The log entry [handleChatCompletion] makes for a decoded request. *)
Definition request_logged (req : ChatCompletionRequest.t) : Event :=
  EvLog "handleChatCompletion"
    [("req", LogRequest req);
     ("stream", LogBool (ChatCompletionRequest.Stream req))].

(** ** The request body *)

(** Every byte of [s] is JSON white space. *)
Definition blank (s : string) : bool := negb (json.nonSpace s).

(** [c] can start a JSON value. *)
Definition starts_value (c : Z) : bool :=
  (c =? json.ch "{") || (c =? json.ch "[") || (c =? 34) || (c =? json.ch "-")
  || json.isDigit c || (c =? json.ch "t") || (c =? json.ch "f") || (c =? json.ch "n").

(** The first byte of [s] that is not white space, if any. *)
Fixpoint first_nonspace (s : string) : option Z :=
  match s with
  | EmptyString => None
  | String c s' =>
    if json.isSpace (byte_val c) then first_nonspace s' else Some (byte_val c)
  end.

(** [n] copies of [c]. *)
Fixpoint str_repeat (c : ascii) (n : nat) : string :=
  match n with
  | O => EmptyString
  | S n' => String c (str_repeat c n')
  end.

(** The first ten bytes of [body] are there and start with the gzip magic
    bytes and the deflate method. *)
Definition gzip_magic (body : string) : bool :=
  negb (String.length body <? 10)%nat
  && match str_at body 0, str_at body 1, str_at body 2 with
     | Some b0, Some b1, Some b2 =>
       (b0 =? gzipID1) && (b1 =? gzipID2) && (b2 =? gzipDeflate)
     | _, _, _ => false
     end.

(** ** Runes *)

(** A value of the type [rune], which is [int32]. *)
Definition is_int32 (r : Z) : Prop := - 2 ^ 31 <= r < 2 ^ 31.

(** The rune that comes back when [r] is encoded and decoded: [r] itself
    when it is a scalar value, U+FFFD otherwise. *)
Definition sanitize (r : utf8.rune) : utf8.rune :=
  if is_scalar r then r else utf8.runeError.

(** ** [strings.Fields] and [unicode.IsSpace], for [splitIntoWords] *)

(** [s[i:j]] for [i <= j <= len(s)]. *)
Definition str_slice (s : string) (i j : nat) : string :=
  str_take (j - i) (str_drop i s).

Module unicode.

Definition MaxLatin1 : Z := 0xFF.

(** [unicode.IsSpace]: the white space of Latin-1, and beyond it the
    code points with the property White_Space. *)
Definition IsSpace (r : utf8.rune) : bool :=
  if utf8.uint32 r <=? MaxLatin1 then
    (r =? 9) || (r =? 10) || (r =? 11) || (r =? 12) || (r =? 13) || (r =? 32)
    || (r =? 0x85) || (r =? 0xA0)
  else
    (r =? 0x1680) || ((0x2000 <=? r) && (r <=? 0x200a))
    || ((0x2028 <=? r) && (r <=? 0x2029)) || (r =? 0x202f) || (r =? 0x205f)
    || (r =? 0x3000).

End unicode.

Module strings.

(** The table [asciiSpace]: 1 at the white space of ASCII, 0 elsewhere. *)
Definition asciiSpace (c : Z) : Z :=
  if (c =? 9) || (c =? 10) || (c =? 11) || (c =? 12) || (c =? 13) || (c =? 32)
  then 1 else 0.

(** The loop [for end, rune := range s] of [FieldsFunc], entered at byte
    [end_] with [rest = s[end_:]].  [start] is the start of the field
    being read, or negative; [spans] are the fields found so far. *)
Fixpoint FieldsFunc_range (fuel : nat) (f : utf8.rune -> bool) (rest : string)
    (end_ : nat) (start : Z) (spans : list (nat * nat)) : Z * list (nat * nat) :=
  match fuel with
  | O => (start, spans)
  | S fuel' =>
    match rest with
    | EmptyString => (start, spans)
    | String _ _ =>
      let '(rune, width) := utf8.next_rune rest in
      let '(start', spans') :=
        if f rune then
          if 0 <=? start
          then (Z.lnot start, spans ++ [(Z.to_nat start, end_)])
          else (start, spans)
        else
          if start <? 0 then (Z.of_nat end_, spans) else (start, spans) in
      FieldsFunc_range fuel' f (str_drop width rest) (end_ + width) start' spans'
    end
  end.

(** [strings.FieldsFunc(s, f)]. *)
Definition FieldsFunc (s : string) (f : utf8.rune -> bool) : list string :=
  let '(start, spans) := FieldsFunc_range (String.length s) f s 0 (-1) [] in
  let spans :=
    if 0 <=? start then spans ++ [(Z.to_nat start, String.length s)] else spans in
  (fun sp : nat * nat => str_slice s sp.1 sp.2) <$> spans.

(** The first loop of [Fields], over the bytes that are left: [n] counts
    the fields, [setBits] collects the bits of the bytes read. *)
Fixpoint Fields_count (bs : list Z) (n wasSpace setBits : Z) : Z * Z :=
  match bs with
  | [] => (n, setBits)
  | r :: bs' =>
    let setBits := Z.lor setBits r in
    let isSpace := asciiSpace r in
    Fields_count bs' (n + Z.land wasSpace (Z.lnot isSpace)) isSpace setBits
  end.

(** [for i < len(s) && asciiSpace[s[i]] != 0 { i++ }]. *)
Fixpoint Fields_skip (fuel : nat) (s : string) (i : nat) : nat :=
  match fuel with
  | O => i
  | S fuel' =>
    match str_at s i with
    | Some c => if asciiSpace c =? 0 then i else Fields_skip fuel' s (i + 1)
    | None => i
    end
  end.

(** [a[na] = v]; an index out of range panics. *)
Definition set_index (a : list string) (na : nat) (v : string) : option (list string) :=
  if decide (na < length a)%nat then Some (<[na := v]> a) else None.

(** The loop [for i < len(s)] of the ASCII path of [Fields]. *)
Fixpoint Fields_loop (fuel : nat) (s : string) (a : list string)
    (na fieldStart i : nat) : option (list string * nat * nat) :=
  match fuel with
  | O => Some (a, na, fieldStart)
  | S fuel' =>
    match str_at s i with
    | None => Some (a, na, fieldStart)
    | Some c =>
      if asciiSpace c =? 0 then Fields_loop fuel' s a na fieldStart (i + 1)
      else
        a' ← set_index a na (str_slice s fieldStart i);
        let i' := Fields_skip (String.length s) s (i + 1) in
        Fields_loop fuel' s a' (na + 1) i' i'
    end
  end.

(** What follows the loop: the last field may end where [s] ends. *)
Definition Fields_last (s : string) (st : list string * nat * nat) :
    option (list string) :=
  let '(a, na, fieldStart) := st in
  if decide (fieldStart < String.length s)%nat
  then set_index a na (str_slice s fieldStart (String.length s))
  else Some a.

(** [strings.Fields(s)]: the fields of [s] around white space; [None]
    stands for a panic. *)
Definition Fields (s : string) : option (list string) :=
  let '(n, setBits) := Fields_count (str_bytes s) 0 1 0 in
  if utf8.runeSelf <=? setBits then Some (FieldsFunc s unicode.IsSpace)
  else
    let a := replicate (Z.to_nat n) EmptyString in
    let i := Fields_skip (String.length s) s 0 in
    Fields_loop (String.length s) s a 0 i i ≫= Fields_last s.

End strings.

Definition splitIntoWords (s : string) : option (list string) := strings.Fields s.

(** The words of a list of bytes, [cur] being the word that is being
    read. *)
Fixpoint words_from (sp : Z -> bool) (cur : list Z) (l : list Z) : list (list Z) :=
  match l with
  | [] => if cur is [] then [] else [cur]
  | c :: l' =>
    if sp c
    then (if cur is [] then [] else [cur]) ++ words_from sp [] l'
    else words_from sp (cur ++ [c]) l'
  end.

(** White space among the ASCII bytes, as [asciiSpace] has it. *)
Definition space_byte (c : Z) : bool := negb (strings.asciiSpace c =? 0).

Definition is_ascii (s : string) : Prop :=
  Forall (fun c => c < utf8.runeSelf) (str_bytes s).

(** [strings.Join(ws, " ")]. *)
Definition join_spaces (ws : list string) : string :=
  match ws with
  | [] => EmptyString
  | w :: ws' => w +:+ str_concat ((fun v => " " +:+ v) <$> ws')
  end.

(** A word: some ASCII bytes, none of them white space. *)
Definition is_word (s : string) : Prop :=
  s <> EmptyString
  /\ Forall (fun c => c < utf8.runeSelf /\ unicode.IsSpace c = false) (str_bytes s).

(** The bytes of the fields a final state of the loop stands for. *)
Definition span_words (s : string) (st : Z * list (nat * nat)) : list (list Z) :=
  (fun sp : nat * nat => str_bytes (str_slice s sp.1 sp.2))
  <$> (if 0 <=? st.1 then st.2 ++ [(Z.to_nat st.1, String.length s)] else st.2).

Definition current_word (s : string) (start : Z) (e : nat) : list Z :=
  if 0 <=? start then take (e - Z.to_nat start) (drop (Z.to_nat start) (str_bytes s))
  else [].

(** ** More stand-ins *)

(** A POST whose body is white space only. *)
Definition demoBlankRequest : Request := mkRequest "POST" ∅ "   ".

(** A POST whose body is plain text. *)
Definition demoTextRequest : Request := mkRequest "POST" ∅ " hello".

(** [demoRequest] with one more header. *)
Definition demoTypedRequest : Request :=
  mkRequest "POST" {["Content-Type" := ["application/json"]]} demoBody.

(** A POST whose body opens 10001 arrays. *)
Definition demoDeepRequest : Request :=
  mkRequest "POST" ∅ (str_repeat "[" (Z.to_nat 10001) +:+ "1").

(** A world whose next two random numbers are 0 and 0. *)
Definition demoFailWorld : World := with_draws 0 0 demoWorld.

(** A letter, a surrogate, a negative number and a number past U+10FFFF. *)
Definition demoInt32s : list utf8.rune := [0x41; 0xD800; -1; 0x110000].

Definition demoWords : list string := ["who"; "are"; "you?"].

(** A world whose next two random numbers are 7 and 1234. *)
Definition demoDelayWorld : World := with_draws 7 1234 demoWorld.

(** * Facts about the embedded library code *)

(** ** Bytes *)

Lemma byte_val_range c : 0 <= byte_val c < 256.
Proof.
  unfold byte_val. pose proof (N_ascii_bounded c). lia.
Qed.

Lemma byte_chr_val c : byte_chr (byte_val c) = c.
Proof.
  unfold byte_chr, byte_val.
  pose proof (N_ascii_bounded c) as Hb.
  change 255 with (Z.ones 8). rewrite Z.land_ones by lia.
  rewrite Z.mod_small by lia.
  rewrite N2Z.id. apply ascii_N_embedding.
Qed.

Lemma byte_val_chr x : 0 <= x < 256 -> byte_val (byte_chr x) = x.
Proof.
  intros Hx. unfold byte_chr, byte_val.
  change 255 with (Z.ones 8). rewrite Z.land_ones by lia.
  rewrite Z.mod_small by lia.
  rewrite N_ascii_embedding by lia. lia.
Qed.

Lemma lor_disjoint hi lo k :
  0 <= k -> 0 <= lo < 2 ^ k -> hi mod 2 ^ k = 0 -> Z.lor hi lo = hi + lo.
Proof.
  intros Hk Hlo Hhi. symmetry. apply Z.add_nocarry_lor.
  apply Z.bits_inj'. intros n Hn.
  rewrite Z.land_spec, Z.bits_0.
  destruct (Z.lt_ge_cases n k) as [Hlt|Hge].
  - rewrite <- (Z.mod_pow2_bits_low hi k n) by lia. rewrite Hhi, Z.bits_0. reflexivity.
  - rewrite <- (Z.mod_small lo (2 ^ k)) by lia.
    rewrite Z.mod_pow2_bits_high by lia. apply andb_false_r.
Qed.

Import utf8.

Lemma land_255 x : Z.land x 255 = x mod 256.
Proof. change 255 with (Z.ones 8). apply Z.land_ones. lia. Qed.
Lemma land_maskx x : Z.land x maskx = x mod 64.
Proof. change maskx with (Z.ones 6). apply Z.land_ones. lia. Qed.
Lemma land_mask2 x : Z.land x mask2 = x mod 32.
Proof. change mask2 with (Z.ones 5). apply Z.land_ones. lia. Qed.
Lemma land_mask3 x : Z.land x mask3 = x mod 16.
Proof. change mask3 with (Z.ones 4). apply Z.land_ones. lia. Qed.
Lemma land_mask4 x : Z.land x mask4 = x mod 8.
Proof. change mask4 with (Z.ones 3). apply Z.land_ones. lia. Qed.

Ltac lor_add k :=
  let v := eval vm_compute in (2 ^ k) in
  rewrite (lor_disjoint _ _ k); change (2 ^ k) with v;
  try solve [ lia | Z.div_mod_to_equations; lia | reflexivity ].

Ltac lor_add_lo lo k :=
  let v := eval vm_compute in (2 ^ k) in
  rewrite (lor_disjoint _ lo k); change (2 ^ k) with v;
  try solve [ lia | Z.div_mod_to_equations; lia | reflexivity ].

Ltac arith :=
  rewrite ?land_255, ?land_maskx, ?land_mask2, ?land_mask3, ?land_mask4,
    ?Z.shiftr_div_pow2, ?Z.shiftl_mul_pow2 by lia;
  change (2 ^ 6) with 64; change (2 ^ 12) with 4096; change (2 ^ 18) with 262144.

(** The bytes [encoderune] writes, as arithmetic. *)
Lemma lead2 r : 0 <= r <= 0x7FF -> Z.lor t2 (Z.land (Z.shiftr r 6) 255) = 192 + r / 64.
Proof.
  intros Hr. arith. unfold t2.
  lor_add 6.
Qed.

Lemma lead3 r : 0 <= r <= 0xFFFF -> Z.lor t3 (Z.land (Z.shiftr r 12) 255) = 224 + r / 4096.
Proof.
  intros Hr. arith. unfold t3.
  lor_add 5.
Qed.

Lemma lead4 r : 0 <= r <= 0x1FFFFF -> Z.lor t4 (Z.land (Z.shiftr r 18) 255) = 240 + r / 262144.
Proof.
  intros Hr. arith. unfold t4.
  lor_add 4.
Qed.

Lemma cont_byte x : Z.lor tx (Z.land (Z.land x 255) maskx) = 128 + x mod 64.
Proof.
  arith. unfold tx.
  lor_add 7.
Qed.

(** The rune [decoderune] puts together, as arithmetic. *)
Lemma join2 a b :
  Z.lor (Z.shiftl (Z.land a mask2) 6) (Z.land b maskx) = (a mod 32) * 64 + b mod 64.
Proof. arith. lor_add 6. Qed.

Lemma join3 a b c :
  Z.lor (Z.lor (Z.shiftl (Z.land a mask3) 12) (Z.shiftl (Z.land b maskx) 6))
        (Z.land c maskx)
  = (a mod 16) * 4096 + (b mod 64) * 64 + c mod 64.
Proof.
  arith. lor_add_lo (b mod 64 * 64) 12.
  lor_add 6.
Qed.

Lemma join4 a b c d :
  Z.lor (Z.lor (Z.lor (Z.shiftl (Z.land a mask4) 18) (Z.shiftl (Z.land b maskx) 12))
               (Z.shiftl (Z.land c maskx) 6))
        (Z.land d maskx)
  = (a mod 8) * 262144 + (b mod 64) * 4096 + (c mod 64) * 64 + d mod 64.
Proof.
  arith. lor_add_lo (b mod 64 * 4096) 18.
  lor_add_lo (c mod 64 * 64) 12.
  lor_add 6.
Qed.

Ltac dlia := Z.div_mod_to_equations; lia.

Ltac decide_if :=
  repeat match goal with
  | |- context [?a <=? ?b] =>
      first [ rewrite (Zle_imp_le_bool a b) by dlia
            | rewrite (proj2 (Z.leb_gt a b)) by dlia ]
  | |- context [?a <? ?b] =>
      first [ rewrite (proj2 (Z.ltb_lt a b)) by dlia
            | rewrite (proj2 (Z.ltb_ge a b)) by dlia ]
  end; cbn [andb orb negb].

Lemma uint32_small r : 0 <= r <= maxRune -> uint32 r = r.
Proof. intros H. unfold uint32, maxRune in *. apply Z.mod_small. lia. Qed.

Lemma encoderune_1 r :
  0 <= r <= 127 -> encoderune r = String (byte_chr r) EmptyString.
Proof.
  intros H. unfold encoderune. rewrite uint32_small by (unfold maxRune; lia).
  change rune1Max with 127. decide_if. reflexivity.
Qed.

Lemma encoderune_2 r :
  128 <= r <= 2047 ->
  encoderune r = String (byte_chr (192 + r / 64))
                   (String (byte_chr (128 + r mod 64)) EmptyString).
Proof.
  intros H. unfold encoderune. rewrite uint32_small by (unfold maxRune; lia).
  change rune1Max with 127. change rune2Max with 2047. decide_if.
  rewrite lead2, cont_byte by lia. reflexivity.
Qed.

Lemma encoderune_3 r :
  2048 <= r <= 65535 -> ~ (surrogateMin <= r <= surrogateMax) ->
  encoderune r = String (byte_chr (224 + r / 4096))
                   (String (byte_chr (128 + (r / 64) mod 64))
                      (String (byte_chr (128 + r mod 64)) EmptyString)).
Proof.
  intros H Hs. unfold encoderune. rewrite uint32_small by (unfold maxRune; lia).
  change rune1Max with 127. change rune2Max with 2047. change rune3Max with 65535.
  unfold maxRune, surrogateMin, surrogateMax in *.
  decide_if.
  replace ((55296 <=? r) && (r <=? 57343)) with false
    by (symmetry; apply andb_false_iff; lia).
  cbn [orb]. rewrite lead3 by lia. rewrite !cont_byte.
  rewrite Z.shiftr_div_pow2 by lia. reflexivity.
Qed.

Lemma encoderune_4 r :
  65536 <= r <= maxRune ->
  encoderune r = String (byte_chr (240 + r / 262144))
                   (String (byte_chr (128 + (r / 4096) mod 64))
                      (String (byte_chr (128 + (r / 64) mod 64))
                         (String (byte_chr (128 + r mod 64)) EmptyString))).
Proof.
  intros H. unfold encoderune. rewrite uint32_small by lia.
  change rune1Max with 127. change rune2Max with 2047. change rune3Max with 65535.
  unfold maxRune, surrogateMin, surrogateMax in *.
  decide_if.
  rewrite lead4 by lia. rewrite !cont_byte.
  rewrite !Z.shiftr_div_pow2 by lia. reflexivity.
Qed.

Lemma app_String c s t : String c s +:+ t = String c (s +:+ t).
Proof. reflexivity. Qed.
Lemma app_Empty t : EmptyString +:+ t = t.
Proof. reflexivity. Qed.

Lemma str_at_0 c s : str_at (String c s) 0 = Some (byte_val c).
Proof. reflexivity. Qed.
Lemma str_at_S c s i : str_at (String c s) (S i) = str_at s i.
Proof. reflexivity. Qed.

Lemma scalar_cases r :
  scalar r ->
  0 <= r <= 127 \/ 128 <= r <= 2047
  \/ (2048 <= r <= 65535 /\ ~ (surrogateMin <= r <= surrogateMax))
  \/ 65536 <= r <= maxRune.
Proof. unfold scalar, surrogateMin, surrogateMax, maxRune. lia. Qed.

(** Decoding in front of any rest gives back the rune that was encoded,
    and consumes exactly its bytes. *)
Lemma next_rune_encoderune r rest :
  scalar r ->
  next_rune (encoderune r +:+ rest) = (r, String.length (encoderune r)).
Proof.
  intros Hr. unfold next_rune, decoderune, is_cont.
  change runeSelf with 128. change t2 with 192. change t3 with 224.
  change t4 with 240. change t5 with 248. change locb with 128.
  change hicb with 191. change rune1Max with 127. change rune2Max with 2047.
  change rune3Max with 65535.
  destruct (scalar_cases r Hr) as [H|[H|[[H Hs]|H]]].
  - rewrite encoderune_1 by done. rewrite !app_String, app_Empty. cbn [String.length].
    rewrite str_at_0, byte_val_chr by lia. decide_if. reflexivity.
  - rewrite encoderune_2 by done. rewrite !app_String, app_Empty. cbn [String.length].
    rewrite !str_at_S, !str_at_0, !byte_val_chr by dlia.
    rewrite join2. decide_if. f_equal. dlia.
  - rewrite encoderune_3 by done. rewrite !app_String, app_Empty. cbn [String.length].
    rewrite !str_at_S, !str_at_0, !byte_val_chr by dlia.
    rewrite join3. decide_if.
    unfold surrogateMin, surrogateMax in *.
    replace (224 + r `div` 4096) with (224 + r / 4096) by done.
    assert (E : (224 + r / 4096) mod 16 * 4096 + (128 + (r / 64) mod 64) mod 64 * 64
                + (128 + r mod 64) mod 64 = r) by dlia.
    rewrite E. decide_if.
    replace ((55296 <=? r) && (r <=? 57343)) with false
      by (symmetry; apply andb_false_iff; lia).
    reflexivity.
  - rewrite encoderune_4 by done. rewrite !app_String, app_Empty. cbn [String.length].
    unfold maxRune in *.
    rewrite !str_at_S, !str_at_0, !byte_val_chr by dlia.
    rewrite join4.
    assert (E : (240 + r / 262144) mod 8 * 262144 + (128 + (r / 4096) mod 64) mod 64 * 4096
                + (128 + (r / 64) mod 64) mod 64 * 64
                + (128 + r mod 64) mod 64 = r) by dlia.
    rewrite E. decide_if. reflexivity.
Qed.

(** ** Strings and rune slices *)

Lemma str_length_app s t :
  String.length (s +:+ t) = (String.length s + String.length t)%nat.
Proof. induction s as [|c s IH]; [done|]. rewrite app_String. cbn. by rewrite IH. Qed.

Lemma str_app_assoc s t u : (s +:+ t) +:+ u = s +:+ (t +:+ u).
Proof. induction s as [|c s IH]; [done|]. rewrite !app_String. by rewrite IH. Qed.

Lemma str_app_empty_r s : s +:+ EmptyString = s.
Proof. induction s as [|c s IH]; [done|]. rewrite app_String. by rewrite IH. Qed.

Lemma str_drop_app s t : str_drop (String.length s) (s +:+ t) = t.
Proof. induction s as [|c s IH]; [done|]. rewrite app_String. cbn. done. Qed.

Lemma str_take_app s t : str_take (String.length s) (s +:+ t) = s.
Proof.
  induction s as [|c s IH]; [by destruct t|]. rewrite app_String. cbn. by rewrite IH.
Qed.

Lemma str_concat_cons s l : str_concat (s :: l) = s +:+ str_concat l.
Proof. reflexivity. Qed.

Lemma str_concat_app l1 l2 : str_concat (l1 ++ l2) = str_concat l1 +:+ str_concat l2.
Proof.
  induction l1 as [|s l1 IH]; [done|].
  rewrite <- app_comm_cons, !str_concat_cons, IH. by rewrite str_app_assoc.
Qed.

Lemma slicerunetostring_app a b :
  slicerunetostring (a ++ b) = slicerunetostring a +:+ slicerunetostring b.
Proof. unfold slicerunetostring. by rewrite fmap_app, str_concat_app. Qed.

Lemma slicerunetostring_cons r a :
  slicerunetostring (r :: a) = encoderune r +:+ slicerunetostring a.
Proof. reflexivity. Qed.

(** [encoderune] writes at least one byte, whatever the rune. *)
Lemma encoderune_nonempty r : exists c s, encoderune r = String c s.
Proof.
  unfold encoderune.
  repeat match goal with |- context [if ?b then _ else _] => destruct b end; eauto.
Qed.

Lemma slicerunetostring_nonempty a :
  a <> [] -> slicerunetostring a <> EmptyString.
Proof.
  destruct a as [|r a]; [done|]. intros _.
  rewrite slicerunetostring_cons.
  destruct (encoderune_nonempty r) as (c & s & ->). by rewrite app_String.
Qed.

Lemma range_runes_encoded a :
  Forall scalar a ->
  forall fuel, (length a <= fuel)%nat ->
  range_runes fuel (slicerunetostring a) = a.
Proof.
  induction 1 as [|r a Hr Ha IH]; intros fuel Hf.
  - by destruct fuel.
  - destruct fuel as [|fuel]; [cbn in Hf; lia|].
    rewrite slicerunetostring_cons. cbn [range_runes].
    rewrite next_rune_encoderune by done.
    destruct (encoderune_nonempty r) as (c & s & E).
    rewrite E at 1. rewrite app_String.
    rewrite str_drop_app, IH by (cbn in Hf; lia). done.
Qed.

Lemma slicerunetostring_length a :
  (length a <= String.length (slicerunetostring a))%nat.
Proof.
  induction a as [|r a IH]; [done|].
  rewrite slicerunetostring_cons, str_length_app.
  destruct (encoderune_nonempty r) as (c & s & ->). cbn. lia.
Qed.

(** [[]rune(string(a)) = a] for Unicode text. *)
Lemma stringtoslicerune_slicerunetostring a :
  Forall scalar a -> stringtoslicerune (slicerunetostring a) = a.
Proof.
  intros Ha. apply range_runes_encoded; [done|]. apply slicerunetostring_length.
Qed.

(** ** Handlers as world updates *)

Lemma run_bind {A B} (m : M A) (k : A -> M B) w :
  (m ≫= k) w = k (m w).1 (m w).2.
Proof. unfold mbind, M_bind. by destruct (m w). Qed.

Lemma exec_bind {A B} (m : M A) (k : A -> M B) w :
  exec (m ≫= k) w = exec (k (m w).1) (m w).2.
Proof. unfold exec. by rewrite run_bind. Qed.

Lemma exec_seq {B} (m : M unit) (k : M B) w :
  exec (m ≫= fun _ => k) w = exec k (exec m w).
Proof. by rewrite exec_bind. Qed.

Lemma exec_ret {A} (a : A) w : exec (mret a) w = w.
Proof. reflexivity. Qed.

Lemma exec_modify f w : exec (modify f) w = f w.
Proof. reflexivity. Qed.

Lemma world_eta w :
  mkWorld (respHeader w) (wroteHeader w) (trace w) (flusher w)
          (rand_src w) (rand_pos w) (clock w) = w.
Proof. by destruct w. Qed.

Lemma emits_nil w : emits [] w = w.
Proof.
  unfold emits. cbn. rewrite app_nil_r, Z.add_0_r. apply world_eta.
Qed.

Lemma slept_app a b : slept (a ++ b) = slept a + slept b.
Proof.
  unfold slept. induction a as [|e a IH]; [cbn; lia|]. cbn. destruct e; lia.
Qed.

Lemma emits_emits a b w : emits b (emits a w) = emits (a ++ b) w.
Proof.
  unfold emits. cbn. rewrite slept_app. f_equal; [by rewrite app_assoc | lia].
Qed.

Lemma emit_emits e w :
  (forall d, e <> EvSleep d) -> emit e w = emits [e] w.
Proof.
  intros He. unfold emit, emits. f_equal. destruct e; cbn; try lia.
  by destruct (He d).
Qed.

Lemma commit_emits code evs w : commit code (emits evs w) = emits evs (commit code w).
Proof.
  unfold commit, emits. cbn [wroteHeader].
  destruct (wroteHeader w) eqn:E; cbn; by rewrite ?E.
Qed.

Lemma commit_commit c1 c2 w : commit c2 (commit c1 w) = commit c1 w.
Proof. unfold commit. destruct (wroteHeader w) eqn:E; cbn; [by rewrite E | done]. Qed.

Lemma commit_sent code w : wroteHeader w <> None -> commit code w = w.
Proof. unfold commit. by destruct (wroteHeader w). Qed.

Lemma exec_WriteHeader code w : exec (w_WriteHeader code) w = commit code w.
Proof. reflexivity. Qed.

Lemma exec_Write d w : exec (w_Write d) w = emits [EvWrite d] (commit StatusOK w).
Proof.
  unfold w_Write. rewrite exec_seq, exec_WriteHeader, exec_modify.
  by apply emit_emits.
Qed.

Lemma exec_Flush w : exec w_Flush w = emits [EvFlush] (commit StatusOK w).
Proof.
  unfold w_Flush. rewrite exec_seq, exec_WriteHeader, exec_modify.
  by apply emit_emits.
Qed.

Lemma exec_Info msg args w : exec (slog_Info msg args) w = emits [EvLog msg args] w.
Proof. unfold slog_Info. rewrite exec_modify. by apply emit_emits. Qed.

Lemma exec_Sleep d w : exec (time_Sleep d) w = emits [EvSleep d] w.
Proof. unfold time_Sleep, emits. rewrite exec_modify. cbn. f_equal. lia. Qed.

Lemma exec_writeChunk lib c w :
  exec (writeChunk lib c) w = emits (chunk_events lib (flusher w) c) (commit StatusOK w).
Proof.
  unfold writeChunk. rewrite exec_seq, exec_Write, exec_seq, exec_Info, exec_bind.
  unfold gets at 1 2. cbn [fst snd]. rewrite emits_emits.
  replace (flusher (emits _ _)) with (flusher w)
    by (unfold emits, commit; cbn; by destruct (wroteHeader w)).
  unfold chunk_events, frame. destruct (flusher w).
  - rewrite exec_Flush, commit_emits, commit_commit, emits_emits. done.
  - rewrite exec_ret, app_nil_r. done.
Qed.

Lemma flusher_emits evs w : flusher (emits evs w) = flusher w.
Proof. reflexivity. Qed.
Lemma wroteHeader_emits evs w : wroteHeader (emits evs w) = wroteHeader w.
Proof. reflexivity. Qed.
Lemma trace_emits evs w : trace (emits evs w) = trace w ++ evs.
Proof. reflexivity. Qed.

(** The loop writes one content chunk per group of two runes, and sleeps
    after each; fuel beyond half the remaining length is never used. *)
Lemma exec_streamLoop lib id created req runes fuel :
  forall i w,
  wroteHeader w <> None ->
  (length runes - i <= 2 * fuel)%nat ->
  exec (streamLoop lib fuel id created req runes i) w
  = emits (flat_map (content_events lib (flusher w) id created req)
             (chunks2 (drop i runes))) w.
Proof.
  induction fuel as [|fuel IH]; intros i w Hw Hf.
  - rewrite drop_ge by lia. cbn. by rewrite emits_nil.
  - cbn [streamLoop].
    destruct (Nat.ltb_spec i (length runes)) as [Hi|Hi];
      [|rewrite exec_ret, drop_ge by lia; cbn; by rewrite emits_nil].
    rewrite exec_seq, exec_writeChunk, commit_sent by done.
    rewrite exec_seq, exec_Sleep, emits_emits.
    rewrite IH by (rewrite ?wroteHeader_emits; first [done | lia]).
    rewrite flusher_emits, emits_emits.
    rewrite <- (drop_drop runes 2 i).
    pose proof (length_drop runes i) as Hl.
    unfold slice.
    destruct (Nat.ltb_spec (i + 1) (length runes)) as [Hi1|Hi1].
    + destruct (drop i runes) as [|a [|b rest]] eqn:E; cbn in Hl; try lia.
      replace (i + 2 - i)%nat with 2%nat by lia. cbn.
      unfold content_events. by rewrite <- !app_assoc.
    + destruct (drop i runes) as [|a [|b rest]] eqn:E; cbn in Hl; try lia.
      replace (length runes - i)%nat with 1%nat by lia. cbn.
      unfold content_events. by rewrite <- !app_assoc.
Qed.

Lemma exec_streamLoop_full lib id created req runes w :
  wroteHeader w <> None ->
  exec (streamLoop lib (length runes) id created req runes 0) w
  = emits (flat_map (content_events lib (flusher w) id created req) (chunks2 runes)) w.
Proof. intros Hw. rewrite exec_streamLoop by (done || lia). done. Qed.

(** More fuel than the length of the reply changes nothing. *)
Lemma streamLoop_fuel lib id created req runes fuel w :
  wroteHeader w <> None ->
  (length runes <= fuel)%nat ->
  exec (streamLoop lib fuel id created req runes 0) w
  = exec (streamLoop lib (length runes) id created req runes 0) w.
Proof. intros Hw Hf. rewrite !exec_streamLoop by (done || lia). done. Qed.

Lemma skip_draws_0 w : skip_draws 0 w = w.
Proof. unfold skip_draws. rewrite Nat.add_0_r. apply world_eta. Qed.

Lemma randomRunes_world n : forall w, (randomRunes n w).2 = skip_draws n w.
Proof.
  induction n as [|n IH]; intros w.
  - cbn. by rewrite skip_draws_0.
  - cbn [randomRunes]. rewrite run_bind. cbn [rand_Intn fst snd].
    rewrite run_bind. cbn [fst snd mret M_ret]. rewrite IH.
    unfold skip_draws. cbn. f_equal. lia.
Qed.

Lemma randomString_world n w : (randomString n w).2 = skip_draws n w.
Proof.
  unfold randomString. rewrite run_bind. cbn [mret M_ret snd]. apply randomRunes_world.
Qed.

Lemma exec_Header_Set k v w :
  exec (w_Header_Set k v) w = set_respHeader (Header_Set (respHeader w) k v) w.
Proof. reflexivity. Qed.

Lemma exec_Header_Del k w :
  exec (w_Header_Del k) w = set_respHeader (Header_Del (respHeader w) k) w.
Proof. reflexivity. Qed.

Lemma set_respHeader_twice h1 h2 w :
  set_respHeader h2 (set_respHeader h1 w) = set_respHeader h2 w.
Proof. reflexivity. Qed.

Lemma exec_http_Error msg code w :
  exec (http_Error msg code) w
  = emits [EvWrite (msg +:+ LF)]
      (commit code (set_respHeader (error_headers (respHeader w)) w)).
Proof.
  unfold http_Error.
  rewrite exec_seq, exec_Header_Del, exec_seq, exec_Header_Set.
  rewrite exec_seq, exec_Header_Set, exec_seq, exec_WriteHeader, exec_Write.
  rewrite commit_commit. reflexivity.
Qed.

Lemma wroteHeader_commit code w : wroteHeader (commit code w) <> None.
Proof. unfold commit. destruct (wroteHeader w) eqn:E; cbn; by rewrite ?E. Qed.

Lemma flusher_commit code w : flusher (commit code w) = flusher w.
Proof. unfold commit. by destruct (wroteHeader w). Qed.

Lemma exec_streamResponse lib response req w :
  exec (streamResponse lib response req) w
  = emits (stream_events lib (flusher w) (fresh_id w) (now_unix w) req response)
      (commit StatusOK (skip_draws 10 w)).
Proof.
  unfold streamResponse.
  rewrite exec_bind, randomString_world.
  fold (fresh_id w).
  rewrite exec_bind. unfold time_Now_Unix at 1 2, gets. cbn [fst snd].
  change (clock (skip_draws 10 w) / Second) with (now_unix w).
  rewrite exec_seq, exec_writeChunk.
  rewrite exec_seq, exec_streamLoop_full
    by (rewrite wroteHeader_emits; apply wroteHeader_commit).
  rewrite exec_seq, exec_writeChunk, exec_Write.
  rewrite !commit_emits, !commit_commit, !emits_emits.
  rewrite !flusher_emits.
  rewrite !flusher_commit. cbn [flusher skip_draws].
  unfold stream_events, frame_events. by rewrite <- ?app_assoc.
Qed.

Lemma exec_handleStreamingResponse lib req w :
  exec (handleStreamingResponse lib req) w
  = emits (stream_events lib (flusher w) (fresh_id w) (now_unix w) req
             (generateResponse (ChatCompletionRequest.Messages req)))
      (commit StatusOK (skip_draws 10 (set_respHeader (stream_headers (respHeader w)) w))).
Proof.
  unfold handleStreamingResponse.
  rewrite !exec_seq, !exec_Header_Set, exec_streamResponse. reflexivity.
Qed.

Lemma exec_handleNonStreamingResponse lib req w :
  exec (handleNonStreamingResponse lib req) w
  = emits [EvWrite (json_Marshal_response lib (envelope w req) +:+ LF)]
      (commit StatusOK
         (set_respHeader (Header_Set (respHeader w) "Content-Type" "application/json")
            (skip_draws 10 w))).
Proof.
  unfold handleNonStreamingResponse.
  rewrite exec_bind, randomString_world.
  rewrite exec_bind. unfold time_Now_Unix at 1 2, gets. cbn [fst snd].
  rewrite exec_seq, exec_Header_Set, exec_Write. reflexivity.
Qed.

(** ** Groups of two *)

Section chunks2_facts.
Context {A : Type}.
Implicit Types l : list A.

Lemma list_ind2 (P : list A -> Prop) :
  P [] -> (forall a, P [a]) -> (forall a b l, P l -> P (a :: b :: l)) ->
  forall l, P l.
Proof.
  intros H0 H1 H2.
  assert (H : forall l, P l /\ forall a, P (a :: l)).
  { induction l as [|b l [IH1 IH2]]; split; auto. }
  apply H.
Qed.

Lemma chunks2_length l : length (chunks2 l) = ((length l + 1) / 2)%nat.
Proof.
  induction l as [| a | a b l IH] using list_ind2; [done..|].
  cbn [chunks2 length]. rewrite IH.
  replace (S (S (length l)) + 1)%nat with (length l + 1 + 1 * 2)%nat by lia.
  rewrite Nat.div_add by lia. lia.
Qed.

Lemma chunks2_concat l : concat (chunks2 l) = l.
Proof.
  induction l as [| a | a b l IH] using list_ind2; [done..|].
  cbn. by rewrite IH.
Qed.

Lemma chunks2_lookup l :
  forall k, (k < length (chunks2 l))%nat ->
  chunks2 l !! k = Some (take 2 (drop (2 * k) l)).
Proof.
  induction l as [| a | a b l IH] using list_ind2; intros k Hk.
  - cbn in Hk. lia.
  - cbn in Hk. by replace k with 0%nat by lia.
  - destruct k as [|k]; [done|].
    cbn [chunks2 length] in Hk. cbn [chunks2 lookup list_lookup].
    rewrite IH by lia.
    by replace (2 * S k)%nat with (S (S (2 * k))) by lia.
Qed.

Lemma chunks2_nonempty l : Forall (fun g => g <> []) (chunks2 l).
Proof.
  induction l as [| a | a b l IH] using list_ind2; cbn; repeat constructor; done.
Qed.
End chunks2_facts.

Lemma str_concat_chunks2 (a : list rune) :
  str_concat (slicerunetostring <$> chunks2 a) = slicerunetostring a.
Proof.
  induction a as [| r | r1 r2 a IH] using list_ind2.
  - done.
  - cbn. by rewrite str_app_empty_r.
  - cbn [chunks2 fmap list_fmap]. rewrite str_concat_cons, IH.
    by rewrite <- slicerunetostring_app.
Qed.

Lemma writes_app a b : writes (a ++ b) = writes a ++ writes b.
Proof. apply omap_app. Qed.

Lemma writes_chunk_events lib fl c : writes (chunk_events lib fl c) = [frame lib c].
Proof. by destruct fl. Qed.

Lemma writes_content_events lib fl id created req gs :
  writes (flat_map (content_events lib fl id created req) gs)
  = frame lib <$> (contentChunk id created req ∘ slicerunetostring <$> gs).
Proof.
  induction gs as [|g gs IH]; [done|].
  cbn [flat_map]. rewrite writes_app, IH.
  unfold content_events. rewrite writes_app, writes_chunk_events. done.
Qed.

Lemma writes_frame_events lib fl id created req response :
  writes (frame_events lib fl id created req response)
  = frame lib <$> stream_chunks id created req response.
Proof.
  unfold frame_events, stream_chunks.
  rewrite !writes_app, !writes_chunk_events, writes_content_events.
  by rewrite !fmap_app.
Qed.

Lemma writes_stream_events lib fl id created req response :
  writes (stream_events lib fl id created req response)
  = (frame lib <$> stream_chunks id created req response) ++ [DONE].
Proof.
  unfold stream_events. by rewrite writes_app, writes_frame_events.
Qed.

Lemma emitted_emits evs w w1 :
  trace w1 = trace w -> emitted w (emits evs w1) = evs.
Proof.
  intros E. unfold emitted. rewrite trace_emits, E. by rewrite drop_app_length.
Qed.

Lemma trace_commit code w : trace (commit code w) = trace w.
Proof. unfold commit. by destruct (wroteHeader w). Qed.

Lemma emitted_streamResponse lib response req w :
  emitted w (exec (streamResponse lib response req) w)
  = stream_events lib (flusher w) (fresh_id w) (now_unix w) req response.
Proof.
  rewrite exec_streamResponse. apply emitted_emits. by rewrite trace_commit.
Qed.

Lemma stream_chunks_shape id created req response :
  match stream_chunks id created req response with
  | first :: rest =>
    role_only first = true
    /\ exists mid last, rest = mid ++ [last]
       /\ forallb content_only mid = true /\ terminal last = true
  | [] => False
  end.
Proof.
  unfold stream_chunks. cbn [app]. split; [done|].
  eexists _, _. split; [done|]. split; [|done].
  apply forallb_forall. intros c Hc.
  apply in_map_iff in Hc as (g & <- & Hg).
  pose proof (chunks2_nonempty (stringtoslicerune response)) as Hne.
  rewrite Forall_forall in Hne. apply list_elem_of_In, Hne in Hg.
  unfold content_only, compose. cbn.
  destruct (slicerunetostring g) eqn:E; [|done].
  by apply slicerunetostring_nonempty in E.
Qed.

Lemma emitted_handleStreamingResponse lib req w :
  emitted w (exec (handleStreamingResponse lib req) w)
  = stream_events lib (flusher w) (fresh_id w) (now_unix w) req
      (generateResponse (ChatCompletionRequest.Messages req)).
Proof.
  rewrite exec_handleStreamingResponse. apply emitted_emits. by rewrite trace_commit.
Qed.

Lemma stream_chunks_fields id created req response :
  Forall (fun c => ChatCompletionChunk.ID c = id
                   /\ ChatCompletionChunk.Created c = created
                   /\ ChatCompletionChunk.Model c = ChatCompletionRequest.Model req
                   /\ ChatCompletionChunk.SystemFingerprint c = "fp_44709d6fcb")
         (stream_chunks id created req response).
Proof.
  unfold stream_chunks. rewrite !Forall_app. repeat split.
  - by repeat constructor.
  - apply Forall_fmap, Forall_true. intros g. by cbn.
  - by repeat constructor.
Qed.

Lemma same_on_Forall {A B} (f : A -> B) (b : B) l :
  Forall (fun x => f x = b) l -> same_on f l.
Proof.
  rewrite Forall_forall. intros H x y Hx Hy. by rewrite (H x), (H y).
Qed.

Lemma stream_events_share lib fl id created req response :
  frames_share lib (stream_events lib fl id created req response).
Proof.
  exists (stream_chunks id created req response).
  pose proof (stream_chunks_fields id created req response) as H.
  split; [apply writes_stream_events|].
  repeat split.
  - apply (same_on_Forall _ id). eapply Forall_impl; [done|]. by intros c (?&?&?&?).
  - apply (same_on_Forall _ created). eapply Forall_impl; [done|]. by intros c (?&?&?&?).
  - apply (same_on_Forall _ (ChatCompletionRequest.Model req)).
    eapply Forall_impl; [done|]. by intros c (?&?&?&?).
  - apply (same_on_Forall _ "fp_44709d6fcb"). eapply Forall_impl; [done|]. by intros c (?&?&?&?).
  - eapply Forall_impl; [done|]. by intros c (?&?&?&?).
Qed.

Lemma stream_events_shape lib fl id created req response :
  frames_shape lib (stream_events lib fl id created req response).
Proof.
  unfold frames_shape. rewrite writes_stream_events.
  pose proof (stream_chunks_shape id created req response) as H.
  destruct (stream_chunks _ _ _ _) as [|first rest]; [done|].
  destruct H as (H1 & mid & last & -> & H2 & H3). by exists first, mid, last.
Qed.

Lemma transport_app a b : transport (a ++ b) = transport a ++ transport b.
Proof. apply List.filter_app. Qed.

Lemma flushed_app a b :
  flushed_after_each_write a = true -> flushed_after_each_write b = true ->
  flushed_after_each_write (a ++ b) = true.
Proof.
  intros Ha Hb. induction a as [|e a IH]; [done|].
  destruct e; cbn in *; try by apply IH.
  destruct a as [|[] a]; cbn in *; try done. by apply IH.
Qed.

Lemma writes_transport evs : writes (transport evs) = writes evs.
Proof.
  unfold writes, transport. induction evs as [|e evs IH]; [done|].
  destruct e; cbn; by rewrite ?IH.
Qed.

Lemma flushed_chunk_events lib c :
  flushed_after_each_write (transport (chunk_events lib true c)) = true.
Proof. reflexivity. Qed.

Lemma flushed_content_events lib id created req gs :
  flushed_after_each_write
    (transport (flat_map (content_events lib true id created req) gs)) = true.
Proof.
  induction gs as [|g gs IH]; [done|].
  cbn [flat_map]. rewrite transport_app. apply flushed_app; [reflexivity | exact IH].
Qed.

Lemma stream_events_flushed lib id created req response :
  frames_flushed lib (stream_events lib true id created req response).
Proof.
  exists (stream_chunks id created req response),
         (transport (frame_events lib true id created req response)).
  split; [|split].
  - unfold stream_events. by rewrite transport_app.
  - by rewrite writes_transport, writes_frame_events.
  - unfold frame_events. rewrite !transport_app.
    repeat apply flushed_app;
      auto using flushed_chunk_events, flushed_content_events.
Qed.

(** ** The scanner and trailing bytes *)

Import json.

Lemma scanBuf_prefix buf rest :
  forall s p,
  (forall s' n, scanBuf s buf p <> NeedMore s' n) ->
  scanBuf s (buf +:+ rest) p = scanBuf s buf p.
Proof.
  induction buf as [|c buf IH]; intros s p H.
  - by destruct (H s p).
  - rewrite app_String. cbn [scanBuf] in *.
    destruct (call_step s (byte_val c)) as [s' op].
    destruct op; try done; try by apply IH.
    all: destruct (stateEndValue s' (ch " ")).2; try done; by apply IH.
Qed.

Lemma scanBuf_bound buf :
  forall s p n, scanBuf s buf p = ValueEnds n -> (n <= p + String.length buf)%nat.
Proof.
  induction buf as [|c buf IH]; intros s p n H; [done|].
  cbn [scanBuf String.length] in *.
  destruct (call_step s (byte_val c)) as [s' op].
  destruct op; simplify_eq; try lia; try (apply IH in H; lia).
  all: destruct (stateEndValue s' (ch " ")).2; simplify_eq; try lia;
    try (apply IH in H; lia).
Qed.

Ltac break_ifs :=
  repeat match goal with
  | |- context [if ?b then _ else _] => destruct b eqn:?
  | H : context [if ?b then _ else _] |- _ => destruct b eqn:?
  end.

Lemma step_ok_error s c context : step_ok (error s c context).
Proof. done. Qed.

Lemma step_ok_set s f op :
  parseState s <> [] -> f <> StepEndTop ->
  match op with
  | scanEnd | scanError | scanEndObject | scanEndArray => False
  | _ => True
  end ->
  step_ok (set_step s f, op).
Proof. intros Hs Hf Hop. unfold step_ok, inside. by destruct op. Qed.

Lemma step_ok_same s op :
  inside s ->
  match op with
  | scanEnd | scanError | scanEndObject | scanEndArray => False
  | _ => True
  end ->
  step_ok (s, op).
Proof. intros Hs Hop. unfold step_ok. by destruct op. Qed.

Lemma step_ok_pop s op :
  op = scanEndObject \/ op = scanEndArray -> step_ok (popParseState s, op).
Proof.
  intros Hop. unfold step_ok, popParseState.
  assert (H : (stateEndValue
                 match tail (parseState s) with
                 | [] => Scanner StepEndTop true (tail (parseState s)) (err s)
                 | _ :: _ => Scanner StepEndValue (endTop s) (tail (parseState s)) (err s)
                 end (ch " ")).2 = scanEnd
              \/ inside
                   match tail (parseState s) with
                   | [] => Scanner StepEndTop true (tail (parseState s)) (err s)
                   | _ :: _ => Scanner StepEndValue (endTop s) (tail (parseState s)) (err s)
                   end).
  { destruct (tail (parseState s)) as [|p ps]; [by left|by right]. }
  by destruct Hop as [-> | ->].
Qed.

Lemma step_ok_stateEndValue s c :
  parseState s <> [] -> step_ok (stateEndValue s c).
Proof.
  intros Hs. unfold stateEndValue.
  destruct (parseState s) as [|p ps] eqn:E; [done|].
  destruct (isSpace c); [by apply step_ok_set; rewrite ?E|].
  destruct p.
  - destruct (c =? ch ":"); [|apply step_ok_error].
    by apply step_ok_set.
  - destruct (c =? ch ","); [by apply step_ok_set|].
    destruct (c =? ch "}"); [|apply step_ok_error].
    apply step_ok_pop. by left.
  - destruct (c =? ch ","); [by apply step_ok_set; rewrite ?E|].
    destruct (c =? ch "]"); [|apply step_ok_error].
    apply step_ok_pop. by right.
Qed.

Lemma step_ok_push s c p op :
  op = scanBeginObject \/ op = scanBeginArray ->
  step s <> StepEndTop -> step_ok (pushParseState s c p op).
Proof.
  intros Hop Hs. unfold pushParseState.
  destruct (_ <=? _); [|apply step_ok_error].
  by destruct Hop as [-> | ->].
Qed.

Lemma inside_step s c : inside s -> step_ok (call_step s c).
Proof.
  intros [Hps Hst]. unfold call_step.
  destruct (step s) eqn:Est; try done.
  all: unfold stateBeginValueOrEmpty, stateBeginValue, stateBeginStringOrEmpty,
      stateBeginString, stateInString, stateInStringEsc, stateHex,
      stateNeg, state1, state0, stateDot, stateDot0, stateE, stateESign, stateE0,
      stateLit, stateError.
  all: repeat match goal with
       | |- context [if ?b then _ else _] => destruct b
       end.
  all: lazymatch goal with
       | |- step_ok (error _ _ _) => apply step_ok_error
       | |- step_ok (stateEndValue _ _) => by apply step_ok_stateEndValue
       | |- step_ok (pushParseState _ _ _ scanBeginObject) =>
           apply step_ok_push; [by left | done]
       | |- step_ok (pushParseState _ _ _ scanBeginArray) =>
           apply step_ok_push; [by right | done]
       | |- step_ok (set_step _ _, _) => by apply step_ok_set
       | |- step_ok (_, scanError) => exact I
       | |- step_ok (_, _) => apply step_ok_same; [split; [done | by rewrite Est] | done]
       end.
Qed.

Lemma step_ok_not_end r : step_ok r -> r.2 <> scanEnd.
Proof. unfold step_ok. by destruct r.2. Qed.

(** Scanning from inside a composite value: when the buffer runs out the
    scanner is still inside. *)
Lemma scanBuf_inside buf :
  forall s p, inside s ->
  match scanBuf s buf p with NeedMore s' _ => inside s' | _ => True end.
Proof.
  induction buf as [|c buf IH]; intros s p Hs; [done|].
  cbn [scanBuf]. pose proof (inside_step s (byte_val c) Hs) as Hok.
  destruct (call_step s (byte_val c)) as [s' op]. unfold step_ok in Hok. cbn in Hok.
  destruct op; try done; try by apply IH.
  all: destruct Hok as [-> | Hok]; [done|].
  all: destruct (stateEndValue s' (ch " ")).2; try done; by apply IH.
Qed.

Lemma isSpace_not_brace c : isSpace c = true -> (c =? ch "{") = false.
Proof.
  unfold isSpace. intros H. apply andb_true_iff in H as [H _].
  apply Z.leb_le in H. apply Z.eqb_neq. change (ch " ") with 32 in H.
  change (ch "{") with 123. lia.
Qed.

Lemma scanBuf_object buf :
  forall s p, step s = StepBeginValue -> parseState s = [] ->
  starts_object buf = true ->
  match scanBuf s buf p with NeedMore s' _ => inside s' | _ => True end.
Proof.
  induction buf as [|c buf IH]; intros s p Hst Hps Hobj; [done|].
  cbn [scanBuf starts_object] in *.
  unfold call_step. rewrite Hst. unfold stateBeginValue.
  destruct (isSpace (byte_val c)) eqn:Esp.
  - by apply IH.
  - rewrite Hobj. unfold pushParseState. cbn [parseState set_step length].
    rewrite Hps. cbn [length].
    change (Z.of_nat 1 <=? maxNestingDepth) with true. cbn iota.
    apply scanBuf_inside. split; [done|]. by cbn.
Qed.

Lemma str_take_app_le n s t :
  (n <= String.length s)%nat -> str_take n (s +:+ t) = str_take n s.
Proof.
  revert s. induction n as [|n IH]; intros s Hn; [by destruct s, t|].
  destruct s as [|c s]; [cbn in Hn; lia|].
  rewrite app_String. cbn [str_take]. rewrite IH; [done|]. cbn in Hn. lia.
Qed.

(** The decoder stops at the brace that closes the top-level object:
    whatever follows it, and however the reader ends, is never looked
    at. *)
Lemma readValue_trailing body n :
  starts_object body = true ->
  readValue (mkReader body None) = inr n ->
  forall trailing e,
    readValue (mkReader (body +:+ trailing) e) = inr n
    /\ str_take n (body +:+ trailing) = str_take n body.
Proof.
  unfold readValue. cbn [rd_data rd_err]. intros Hobj Hread trailing e.
  pose proof (scanBuf_object body reset 0 eq_refl eq_refl Hobj) as Hin.
  pose proof (scanBuf_bound body reset 0%nat) as Hb.
  destruct (scanBuf reset body 0) as [m | ctx | s m] eqn:E.
  - rewrite scanBuf_prefix by (rewrite E; done). rewrite E.
    simplify_eq. split; [done|]. apply str_take_app_le. specialize (Hb n eq_refl). lia.
  - done.
  - pose proof (step_ok_not_end _ (inside_step s (ch " ") Hin)) as Hne.
    by destruct (call_step s (ch " ")).2.
Qed.

Lemma json_Decode_trailing lib body req :
  starts_object body = true ->
  json_Decode lib (mkReader body None) = Some req ->
  forall trailing e,
    json_Decode lib (mkReader (body +:+ trailing) e) = Some req.
Proof.
  unfold json_Decode. intros Hobj Hdec trailing e.
  destruct (readValue (mkReader body None)) as [ctx|n] eqn:E; [done|].
  destruct (readValue_trailing body n Hobj E trailing e) as [-> Ht].
  cbn [rd_data] in *. by rewrite Ht.
Qed.

(** ** The completions handler *)

Lemma handleChatCompletion_reader lib r :
  handleChatCompletion lib r
  = match body_reader lib r with
    | None => http_Error "Failed to decompress request body" StatusBadRequest
    | Some body => decodeAndRespond lib r body
    end.
Proof.
  unfold handleChatCompletion, body_reader, gzip_encoded.
  by destruct (String.eqb _ _).
Qed.

Lemma handleChatCompletion_post lib r :
  Method r = MethodPost ->
  handleChatCompletion lib r
  = match body_reader lib r with
    | None => http_Error "Failed to decompress request body" StatusBadRequest
    | Some body =>
      match json_Decode lib body with
      | None => http_Error "Invalid request body" StatusBadRequest
      | Some req => respond lib req
      end
    end.
Proof.
  intros Hm. rewrite handleChatCompletion_reader.
  destruct (body_reader lib r); [|done].
  unfold decodeAndRespond. rewrite Hm. done.
Qed.

Lemma handleChatCompletion_not_post lib r :
  Method r <> MethodPost ->
  handleChatCompletion lib r
  = match body_reader lib r with
    | None => http_Error "Failed to decompress request body" StatusBadRequest
    | Some _ => http_Error "Method not allowed" StatusMethodNotAllowed
    end.
Proof.
  intros Hm. rewrite handleChatCompletion_reader.
  destruct (body_reader lib r); [|done].
  unfold decodeAndRespond. apply String.eqb_neq in Hm. by rewrite Hm.
Qed.

Lemma status_commit code w :
  wroteHeader w = None -> status (commit code w) = Some code.
Proof. intros H. unfold status, commit. by rewrite H. Qed.

Lemma status_http_Error msg code w :
  wroteHeader w = None -> status (exec (http_Error msg code) w) = Some code.
Proof.
  intros H. rewrite exec_http_Error.
  change (status (emits ?evs ?w1)) with (status w1). by apply status_commit.
Qed.

Lemma emitted_http_Error msg code w :
  emitted w (exec (http_Error msg code) w) = [EvWrite (msg +:+ LF)].
Proof. rewrite exec_http_Error. apply emitted_emits. by rewrite trace_commit. Qed.

Lemma set_respHeader_emits h evs w :
  set_respHeader h (emits evs w) = emits evs (set_respHeader h w).
Proof. reflexivity. Qed.

Lemma skip_draws_emits k evs w :
  skip_draws k (emits evs w) = emits evs (skip_draws k w).
Proof. reflexivity. Qed.

Lemma skip_draws_set_respHeader k h w :
  skip_draws k (set_respHeader h w) = set_respHeader h (skip_draws k w).
Proof. reflexivity. Qed.

Lemma exec_respond lib req w :
  exists evs h,
    exec (respond lib req) w
    = emits (EvLog "handleChatCompletion"
               [("req", LogRequest req);
                ("stream", LogBool (ChatCompletionRequest.Stream req))] :: evs)
        (commit StatusOK (set_respHeader h (skip_draws 10 w))).
Proof.
  unfold respond. rewrite exec_seq, exec_Info.
  destruct (ChatCompletionRequest.Stream req).
  - rewrite exec_handleStreamingResponse.
    rewrite set_respHeader_emits, skip_draws_emits, commit_emits, emits_emits.
    rewrite skip_draws_set_respHeader. by eexists _, _.
  - rewrite exec_handleNonStreamingResponse.
    rewrite skip_draws_emits, set_respHeader_emits, commit_emits, emits_emits.
    by eexists _, _.
Qed.

Lemma status_respond lib req w :
  wroteHeader w = None -> status (exec (respond lib req) w) = Some StatusOK.
Proof.
  intros Hw. destruct (exec_respond lib req w) as (evs & h & ->).
  change (status (emits ?evs ?w1)) with (status w1). by apply status_commit.
Qed.

(** ** The combined route *)

Lemma handleChatCompletion_effect lib r w :
  exists e evs code h k,
    exec (handleChatCompletion lib r) w
    = emits (e :: evs) (commit code (set_respHeader h (skip_draws k w)))
    /\ code <> StatusInternalServerError
    /\ (forall d, e <> EvSleep d).
Proof.
  assert (Herr : forall msg code, code <> StatusInternalServerError ->
    exists e evs code' h k,
      exec (http_Error msg code) w
      = emits (e :: evs) (commit code' (set_respHeader h (skip_draws k w)))
      /\ code' <> StatusInternalServerError /\ (forall d, e <> EvSleep d)).
  { intros msg code Hc. rewrite exec_http_Error.
    eexists _, [], code, _, 0%nat. rewrite skip_draws_0. done. }
  rewrite handleChatCompletion_reader.
  destruct (body_reader lib r) as [body|]; [|by apply Herr].
  unfold decodeAndRespond.
  destruct (negb _); [by apply Herr|].
  destruct (json_Decode lib body) as [req|]; [|by apply Herr].
  fold (respond lib req).
  destruct (exec_respond lib req w) as (evs & h & ->).
  by eexists _, _, _, _, _.
Qed.

Lemma classify_delegated w0 w1 pre e evs code h k :
  wroteHeader w1 = None ->
  trace w1 = trace w0 ++ pre ->
  code <> StatusInternalServerError ->
  classify w0 (emits (e :: evs) (commit code (set_respHeader h (skip_draws k w1))))
  = match pre ++ [e] with
    | EvSleep _ :: _ => DelayedDelegation
    | _ => PlainDelegation
    end.
Proof.
  intros Hw Ht Hc. unfold classify.
  change (status (emits ?a ?w)) with (status w).
  rewrite status_commit by done.
  apply Z.eqb_neq in Hc. rewrite Hc.
  unfold emitted. rewrite trace_emits, trace_commit. cbn [trace set_respHeader skip_draws].
  rewrite Ht, <- app_assoc, drop_app_length.
  destruct pre as [|[] pre]; done.
Qed.

Lemma run_Intn n w :
  rand_Intn n w = (rand_src w (rand_pos w) mod n, skip_draws 1 w).
Proof.
  unfold rand_Intn, skip_draws. do 2 f_equal. lia.
Qed.

Lemma with_draws_first a b w :
  rand_src (with_draws a b w) (rand_pos (with_draws a b w)) = a.
Proof. cbn. by rewrite Nat.eqb_refl. Qed.

Lemma with_draws_second a b w :
  rand_src (skip_draws 1 (with_draws a b w))
           (rand_pos (skip_draws 1 (with_draws a b w))) = b.
Proof.
  cbn [rand_src rand_pos with_draws skip_draws].
  destruct (Nat.eqb_spec (rand_pos w + 1) (rand_pos w)); [lia|].
  destruct (Nat.eqb_spec (rand_pos w + 1) (S (rand_pos w))); [done|lia].
Qed.

Lemma outcome_char lib r w a b :
  wroteHeader w = None ->
  outcome lib r w a b
  = if a mod 10 <? 5
    then if b mod 10 <? 5 then HardFailure else PlainDelegation
    else DelayedDelegation.
Proof.
  intros Hw. unfold outcome, handleRandom.
  rewrite exec_bind, run_Intn. cbn [fst snd]. rewrite with_draws_first.
  destruct (a mod 10 <? 5).
  - unfold handleRandomFail.
    rewrite exec_bind, run_Intn. cbn [fst snd]. rewrite with_draws_second.
    destruct (b mod 10 <? 5).
    + unfold classify. rewrite status_http_Error by done. done.
    + match goal with |- classify _ (exec _ ?w1) = _ =>
        destruct (handleChatCompletion_effect lib r w1)
          as (e & evs & code & h & k & -> & Hc & He)
      end.
      rewrite (classify_delegated _ _ []) by (done || by rewrite app_nil_r).
      destruct e; try done. by destruct (He d).
  - rewrite exec_bind, run_Intn. cbn [fst snd].
    rewrite exec_seq, exec_Sleep.
    match goal with |- classify _ (exec _ ?w1) = _ =>
      destruct (handleChatCompletion_effect lib r w1)
        as (e & evs & code & h & k & -> & Hc & He)
    end.
    erewrite (classify_delegated _ _ [EvSleep _]); done.
Qed.

Lemma count_outcome_char lib r w o :
  wroteHeader w = None ->
  count_outcome lib r w o
  = length (List.filter
      (fun p => Outcome_eqb
         (if p.1 mod 10 <? 5
          then if p.2 mod 10 <? 5 then HardFailure else PlainDelegation
          else DelayedDelegation) o) draw_pairs).
Proof.
  intros Hw. unfold count_outcome. f_equal.
  apply List.filter_ext. intros [a b]. by rewrite outcome_char.
Qed.

(** * The properties of the specification *)

Example utf8_encode_euro : utf8.encoderune 0x20AC = "€".
Proof. reflexivity. Qed.

Example utf8_decode_text :
  utf8.stringtoslicerune "aé€😀" = [0x61; 0xE9; 0x20AC; 0x1F600].
Proof. reflexivity. Qed.

(** A byte that is not UTF-8 comes back as the three bytes of U+FFFD:
    the round trip below needs a reply that is Unicode text. *)
Example utf8_invalid_byte_replaced :
  utf8.slicerunetostring (utf8.stringtoslicerune (str_of_bytes [0xFF]))
  = str_of_bytes [0xEF; 0xBF; 0xBD].
Proof. reflexivity. Qed.

Example readValue_object :
  json.readValue (json.mkReader ("{" +:+ quoted "a" +:+ ":[1,2]} trailing") None)
  = inr 11%nat.
Proof. reflexivity. Qed.

Example demoRequest_decodes : decode_request demoLib demoRequest = Some demoReq.
Proof. reflexivity. Qed.

(** The reply of [generateResponse] has 67 code points: the handler
    writes 34 content frames between the role frame and the terminal
    frame. *)
Example generateResponse_frames req :
  length (utf8.stringtoslicerune
            (generateResponse (ChatCompletionRequest.Messages req))) = 67%nat
  /\ length (stream_chunks EmptyString 0 req
               (generateResponse (ChatCompletionRequest.Messages req))) = 36%nat.
Proof. split; reflexivity. Qed.

Lemma is_scalar_spec r : is_scalar r = true -> scalar r.
Proof.
  unfold is_scalar, scalar. intros H.
  apply orb_true_iff in H as [H|H]; apply andb_true_iff in H as [H1 H2].
  - left. apply Z.leb_le in H1. apply Z.ltb_lt in H2. lia.
  - right. apply Z.ltb_lt in H1. apply Z.leb_le in H2. lia.
Qed.

Lemma Forall_is_scalar l : forallb is_scalar l = true -> Forall scalar l.
Proof.
  intros H. apply Forall_forall. intros r Hr.
  apply is_scalar_spec. rewrite forallb_forall in H.
  by apply H, list_elem_of_In.
Qed.

(** The handler itself: its reply is Unicode text, and its frames are the
    role frame, the 34 content frames of the reply and the terminal
    frame. *)
Lemma handleStreamingResponse_frames lib req w :
  let response := generateResponse (ChatCompletionRequest.Messages req) in
  let runes := stringtoslicerune response in
  let contents := slicerunetostring <$> chunks2 runes in
  Forall scalar runes
  /\ slicerunetostring runes = response
  /\ writes (emitted w (exec (handleStreamingResponse lib req) w))
     = (frame lib <$> [initialChunk (fresh_id w) (now_unix w) req]
                      ++ (contentChunk (fresh_id w) (now_unix w) req <$> contents)
                      ++ [finalChunk (fresh_id w) (now_unix w) req])
       ++ [DONE]
  /\ length contents = 34%nat
  /\ str_concat contents = response.
Proof.
  intros response runes contents. split; [|split; [|split; [|split]]].
  - apply Forall_is_scalar. by vm_compute.
  - by vm_compute.
  - rewrite emitted_handleStreamingResponse, writes_stream_events.
    unfold stream_chunks. subst contents runes response.
    by rewrite <- list_fmap_compose.
  - by vm_compute.
  - by vm_compute.
Qed.

(** ** C1 *)

(** C1.  For every reply that is the UTF-8 text of [L] Unicode code points
    ([runes], scalar values), the streaming responder writes the frame of
    one role-only chunk, then the frames of ceil(L/2) content chunks, then
    the frame of one terminal chunk (and then the terminator).  The k-th
    content chunk carries the code points 2k and 2k+1 of the reply, the
    last one a single code point when L is odd; each content decodes, on
    its own, to exactly its code points, so no character is split across
    frames; and the contents concatenated in order are the reply. *)
Theorem stream_frames_roundtrip lib req w (runes : list rune) :
  Forall scalar runes ->
  let response := slicerunetostring runes in
  let contents := slicerunetostring <$> chunks2 runes in
  let id := fresh_id w in
  let created := now_unix w in
  stringtoslicerune response = runes
  /\ writes (emitted w (exec (streamResponse lib response req) w))
     = (frame lib <$> [initialChunk id created req]
                      ++ (contentChunk id created req <$> contents)
                      ++ [finalChunk id created req])
       ++ [DONE]
  /\ length contents = ((length runes + 1) / 2)%nat
  /\ (forall k, (k < length contents)%nat ->
        let group := take 2 (drop (2 * k) runes) in
        contents !! k = Some (slicerunetostring group)
        /\ stringtoslicerune (slicerunetostring group) = group)
  /\ str_concat contents = response.
Proof.
  intros Hr response contents id created.
  assert (E : stringtoslicerune response = runes)
    by (by apply stringtoslicerune_slicerunetostring).
  split; [done|]. split; [|split; [|split]].
  - rewrite emitted_streamResponse, writes_stream_events.
    unfold stream_chunks. rewrite E. subst contents. by rewrite <- list_fmap_compose.
  - subst contents. by rewrite length_fmap, chunks2_length.
  - subst contents. intros k Hk group. rewrite length_fmap in Hk. split.
    + by rewrite list_lookup_fmap, chunks2_lookup.
    + apply stringtoslicerune_slicerunetostring.
      by apply Forall_take, Forall_drop.
  - apply str_concat_chunks2.
Qed.

Lemma demoRunes_scalar : Forall scalar demoRunes.
Proof.
  repeat constructor; unfold scalar, surrogateMin, surrogateMax, maxRune; lia.
Defined.

Lemma stream_frames_roundtrip_witness :
  Forall scalar demoRunes
  /\ stringtoslicerune (slicerunetostring demoRunes) = demoRunes
  /\ length (slicerunetostring <$> chunks2 demoRunes) = 2%nat
  /\ str_concat (slicerunetostring <$> chunks2 demoRunes)
     = slicerunetostring demoRunes.
Proof.
  split; [exact demoRunes_scalar|].
  destruct (stream_frames_roundtrip demoLib demoReq demoWorld demoRunes
              demoRunes_scalar) as (H1 & _ & H3 & _ & H5).
  exact (conj H1 (conj H3 H5)).
Defined.

(** ** C2 *)

(** C2.  In every streamed response (for every reply, and so for the one
    the handler sends) the first frame's delta has a role and neither
    content nor finish reason; the last frame's delta has neither content
    nor role and its finish reason is stop; every frame in between has
    content and neither role nor finish reason. *)
Theorem stream_frame_shape lib req w response :
  frames_shape lib (emitted w (exec (streamResponse lib response req) w))
  /\ frames_shape lib (emitted w (exec (handleStreamingResponse lib req) w)).
Proof.
  rewrite emitted_streamResponse, emitted_handleStreamingResponse.
  split; apply stream_events_shape.
Qed.

(** ** C3 *)

(** C3.  The frames of one streamed response carry the same id, the same
    timestamp, the same model and the same fingerprint, which is the
    constant fp_44709d6fcb. *)
Theorem stream_frames_share lib req w response :
  frames_share lib (emitted w (exec (streamResponse lib response req) w))
  /\ frames_share lib (emitted w (exec (handleStreamingResponse lib req) w)).
Proof.
  rewrite emitted_streamResponse, emitted_handleStreamingResponse.
  split; apply stream_events_share.
Qed.

(** ** C4 *)

(** C4, as the code has it.  With the two draws independent and uniform on
    [0, 10), the combined route fails hard (500, nothing delegated) in 25
    cases of 100, sleeps a random time and then delegates in 50, and
    delegates at once in 25: the probabilities are 1/4, 1/2 and 1/4. *)
Theorem combined_route_distribution lib r w :
  wroteHeader w = None ->
  length draw_pairs = 100%nat
  /\ count_outcome lib r w HardFailure = 25%nat
  /\ count_outcome lib r w DelayedDelegation = 50%nat
  /\ count_outcome lib r w PlainDelegation = 25%nat.
Proof.
  intros Hw. rewrite !count_outcome_char by done. by vm_compute.
Qed.

Lemma combined_route_distribution_witness :
  wroteHeader demoWorld = None
  /\ length draw_pairs = 100%nat
  /\ count_outcome demoLib demoRequest demoWorld HardFailure = 25%nat
  /\ count_outcome demoLib demoRequest demoWorld DelayedDelegation = 50%nat
  /\ count_outcome demoLib demoRequest demoWorld PlainDelegation = 25%nat.
Proof.
  split; [reflexivity|].
  apply (combined_route_distribution demoLib demoRequest demoWorld). reflexivity.
Defined.

(** C4, as stated, fails: for the demo request the delayed outcome has 50
    of the 100 cases and the plain one 25; neither share is 0.375, not
    even to within 0.1. *)
Lemma combined_route_not_three_eighths :
  length draw_pairs = 100%nat
  /\ count_outcome demoLib demoRequest demoWorld DelayedDelegation = 50%nat
  /\ count_outcome demoLib demoRequest demoWorld PlainDelegation = 25%nat
  /\ near_three_eighths 50 100 = false
  /\ near_three_eighths 25 100 = false.
Proof. by vm_compute. Qed.

(** ** C5 *)

(** C5, as the code has it.  A request whose method is not POST is never
    decoded as JSON and gets no frame.  The gzip reader is opened before
    the method is looked at: when the request announces gzip and the
    reader cannot be opened, the response is 400 (failed to decompress);
    in every other case it is 405 (method not allowed). *)
Theorem non_post_rejected lib r w :
  Method r <> MethodPost ->
  wroteHeader w = None ->
  let w' := exec (handleChatCompletion lib r) w in
  match body_reader lib r with
  | Some _ =>
    w' = exec (http_Error "Method not allowed" StatusMethodNotAllowed) w
    /\ status w' = Some StatusMethodNotAllowed
    /\ emitted w w' = [EvWrite ("Method not allowed" +:+ LF)]
  | None =>
    gzip_encoded r = true
    /\ w' = exec (http_Error "Failed to decompress request body" StatusBadRequest) w
    /\ status w' = Some StatusBadRequest
    /\ emitted w w' = [EvWrite ("Failed to decompress request body" +:+ LF)]
  end.
Proof.
  intros Hm Hw w'. subst w'. rewrite handleChatCompletion_not_post by done.
  destruct (body_reader lib r) eqn:E.
  - by rewrite status_http_Error, emitted_http_Error.
  - rewrite status_http_Error, emitted_http_Error by done.
    repeat split. unfold body_reader in E. by destruct (gzip_encoded r).
Qed.

Lemma non_post_rejected_witness :
  Method demoGetRequest <> MethodPost
  /\ wroteHeader demoWorld = None
  /\ status (exec (handleChatCompletion demoLib demoGetRequest) demoWorld)
     = Some StatusBadRequest.
Proof.
  assert (Hm : Method demoGetRequest <> MethodPost) by discriminate.
  split; [exact Hm|]. split; [reflexivity|].
  pose proof (non_post_rejected demoLib demoGetRequest demoWorld Hm eq_refl) as H.
  exact (proj1 (proj2 (proj2 H))).
Defined.

(** C5, as stated, fails: a GET that announces gzip and has no body is
    answered with 400, not with 405. *)
Lemma get_with_gzip_header_is_400 :
  Method demoGetRequest = "GET"
  /\ status (exec (handleChatCompletion demoLib demoGetRequest) demoWorld)
     = Some StatusBadRequest
  /\ status (exec (handleChatCompletion demoLib demoGetRequest) demoWorld)
     <> Some StatusMethodNotAllowed.
Proof. split; [reflexivity|]. split; [by vm_compute|]. by vm_compute. Qed.

(** ** C6 *)

(** C6, as the code has it.  When the transport can flush, the write of
    the frame of every chunk is followed at once by a flush; the write of
    the terminator is the last thing the handler does to the transport
    and no flush follows it. *)
Theorem chunk_frames_flushed lib req w response :
  flusher w = true ->
  frames_flushed lib (emitted w (exec (streamResponse lib response req) w))
  /\ frames_flushed lib (emitted w (exec (handleStreamingResponse lib req) w)).
Proof.
  intros Hf. rewrite emitted_streamResponse, emitted_handleStreamingResponse, Hf.
  split; apply stream_events_flushed.
Qed.

Lemma chunk_frames_flushed_witness :
  flusher demoWorld = true
  /\ frames_flushed demoLib
       (emitted demoWorld (exec (handleStreamingResponse demoLib demoReq) demoWorld)).
Proof.
  split; [reflexivity|].
  exact (proj2 (chunk_frames_flushed demoLib demoReq demoWorld EmptyString eq_refl)).
Defined.

(** C6, as stated, fails: on a transport that can flush, the streamed
    response has a write that no flush follows, the terminator. *)
Lemma terminator_not_flushed :
  flusher demoWorld = true
  /\ flushed_after_each_write
       (transport
          (emitted demoWorld (exec (handleStreamingResponse demoLib demoReq) demoWorld)))
     = false
  /\ last (transport
             (emitted demoWorld (exec (handleStreamingResponse demoLib demoReq) demoWorld)))
     = Some (EvWrite DONE).
Proof. by vm_compute. Qed.

(** ** C7 *)

(** C7.  When the body of [rz] is a gzip file that inflates to the body of
    [rp], [rz] announces gzip and [rp] carries no content encoding, and
    the body of [rp] decodes to a request, then the body of [rz] decodes
    to the same request and the handler does the same on both. *)
Theorem gzip_body_equivalent lib rz rp req w :
  Method rz = Method rp ->
  gzip_encoded rz = true ->
  ReqHeader rp !! "Content-Encoding" = None ->
  gzip_NewReader lib (Body rz) = Some (json.mkReader (Body rp) None) ->
  decode_request lib rp = Some req ->
  decode_request lib rz = Some req
  /\ exec (handleChatCompletion lib rz) w = exec (handleChatCompletion lib rp) w.
Proof.
  intros Hm Hz Hp Hgz Hdec.
  assert (Ep : body_reader lib rp = Some (json.mkReader (Body rp) None)).
  { unfold body_reader, gzip_encoded, Header_Get. by rewrite Hp. }
  assert (Ez : body_reader lib rz = Some (json.mkReader (Body rp) None)).
  { unfold body_reader. by rewrite Hz. }
  split.
  - unfold decode_request in *. by rewrite Ez, <- Ep.
  - rewrite !handleChatCompletion_reader, Ez, Ep.
    unfold decodeAndRespond. by rewrite Hm.
Qed.

Lemma gzip_body_equivalent_witness :
  Method demoGzipRequest = Method demoRequest
  /\ gzip_encoded demoGzipRequest = true
  /\ ReqHeader demoRequest !! "Content-Encoding" = None
  /\ gzip_NewReader demoLib (Body demoGzipRequest)
     = Some (json.mkReader (Body demoRequest) None)
  /\ decode_request demoLib demoRequest = Some demoReq
  /\ decode_request demoLib demoGzipRequest = Some demoReq
  /\ exec (handleChatCompletion demoLib demoGzipRequest) demoWorld
     = exec (handleChatCompletion demoLib demoRequest) demoWorld.
Proof.
  do 5 (split; [reflexivity|]).
  apply (gzip_body_equivalent demoLib demoGzipRequest demoRequest demoReq demoWorld);
    reflexivity.
Defined.

(** ** C8 *)

(** C8.  When decoding the body of a request fails (the gzip reader
    cannot be opened, or the JSON decoder, reached by a POST, returns an
    error), the handler answers 400 and stops there: all it writes is the
    one line of the error message, no frame and no part of a response. *)
Theorem malformed_body_rejected lib r w :
  decoding_fails lib r = true ->
  wroteHeader w = None ->
  let w' := exec (handleChatCompletion lib r) w in
  exists msg,
    (msg = "Invalid request body" \/ msg = "Failed to decompress request body")
    /\ w' = exec (http_Error msg StatusBadRequest) w
    /\ status w' = Some StatusBadRequest
    /\ emitted w w' = [EvWrite (msg +:+ LF)].
Proof.
  intros Hdec Hw w'. subst w'. unfold decoding_fails in Hdec.
  rewrite handleChatCompletion_reader.
  destruct (body_reader lib r) as [body|].
  - apply andb_true_iff in Hdec as [Hm Hdec]. apply String.eqb_eq in Hm.
    unfold decodeAndRespond. rewrite Hm. cbn [negb String.eqb].
    change (MethodPost =? MethodPost)%string with true. cbn [negb].
    destruct (json_Decode lib body); [done|].
    exists "Invalid request body".
    rewrite status_http_Error, emitted_http_Error by done. auto.
  - exists "Failed to decompress request body".
    rewrite status_http_Error, emitted_http_Error by done. auto.
Qed.

Lemma malformed_body_rejected_witness :
  decoding_fails demoLib demoBadRequest = true
  /\ wroteHeader demoWorld = None
  /\ exists msg,
       (msg = "Invalid request body" \/ msg = "Failed to decompress request body")
       /\ exec (handleChatCompletion demoLib demoBadRequest) demoWorld
          = exec (http_Error msg StatusBadRequest) demoWorld
       /\ status (exec (handleChatCompletion demoLib demoBadRequest) demoWorld)
          = Some StatusBadRequest
       /\ emitted demoWorld (exec (handleChatCompletion demoLib demoBadRequest) demoWorld)
          = [EvWrite (msg +:+ LF)].
Proof.
  do 2 (split; [reflexivity|]).
  apply (malformed_body_rejected demoLib demoBadRequest demoWorld); reflexivity.
Defined.

(** The part of C8 about POST: a POST whose body does not decode is
    answered with 400. *)
Lemma post_undecodable_is_400 lib r w :
  Method r = MethodPost -> wroteHeader w = None ->
  decode_request lib r = None ->
  status (exec (handleChatCompletion lib r) w) = Some StatusBadRequest.
Proof.
  intros Hm Hw Hdec. rewrite handleChatCompletion_post by done.
  unfold decode_request in Hdec.
  destruct (body_reader lib r) as [body|]; cbn in Hdec.
  - rewrite Hdec. by apply status_http_Error.
  - by apply status_http_Error.
Qed.

(** ** C9 *)

(** C9.  For every request, the model of the envelope the non-streaming
    responder writes, and the model of every chunk the streaming
    responder writes, is the model of the request as it is, the empty
    string included. *)
Theorem model_verbatim lib req w :
  let chunks :=
    stream_chunks (fresh_id w) (now_unix w) req
      (generateResponse (ChatCompletionRequest.Messages req)) in
  (writes (emitted w (exec (handleNonStreamingResponse lib req) w))
   = [json_Marshal_response lib (envelope w req) +:+ LF]
   /\ ChatCompletionResponse.Model (envelope w req) = ChatCompletionRequest.Model req)
  /\ (writes (emitted w (exec (handleStreamingResponse lib req) w))
      = (frame lib <$> chunks) ++ [DONE]
      /\ Forall (fun c => ChatCompletionChunk.Model c = ChatCompletionRequest.Model req)
           chunks).
Proof.
  intros chunks. split; split.
  - rewrite exec_handleNonStreamingResponse, emitted_emits; [done|].
    by rewrite trace_commit.
  - done.
  - by rewrite emitted_handleStreamingResponse, writes_stream_events.
  - eapply Forall_impl; [apply stream_chunks_fields|]. by intros c (?&?&?&?).
Qed.

(** ** C10 *)

(** C10.  When the body of a POST without content encoding starts with an
    object and decodes to a request, the same body followed by any bytes
    decodes to the same request: the handler does the same on both, and
    answers 200, not 400. *)
Theorem trailing_bytes_ignored lib r req trailing w :
  Method r = MethodPost ->
  gzip_encoded r = false ->
  wroteHeader w = None ->
  starts_object (Body r) = true ->
  decode_request lib r = Some req ->
  let r' := mkRequest (Method r) (ReqHeader r) (Body r +:+ trailing) in
  decode_request lib r' = Some req
  /\ exec (handleChatCompletion lib r') w = exec (handleChatCompletion lib r) w
  /\ status (exec (handleChatCompletion lib r') w) = Some StatusOK.
Proof.
  intros Hm Hz Hw Hobj Hdec r'.
  assert (E : body_reader lib r = Some (json.mkReader (Body r) None))
    by (unfold body_reader; by rewrite Hz).
  assert (E' : body_reader lib r' = Some (json.mkReader (Body r +:+ trailing) None))
    by (unfold body_reader, gzip_encoded in *; cbn; by rewrite Hz).
  unfold decode_request in *. rewrite E in Hdec. cbn in Hdec.
  pose proof (json_Decode_trailing lib (Body r) req Hobj Hdec trailing None) as Ht.
  rewrite E'. cbn. split; [done|].
  rewrite !handleChatCompletion_post by done.
  rewrite E, E', Hdec, Ht. split; [done|]. by apply status_respond.
Qed.

Lemma trailing_bytes_ignored_witness :
  Method demoRequest = MethodPost
  /\ gzip_encoded demoRequest = false
  /\ wroteHeader demoWorld = None
  /\ starts_object (Body demoRequest) = true
  /\ decode_request demoLib demoRequest = Some demoReq
  /\ decode_request demoLib
       (mkRequest (Method demoRequest) (ReqHeader demoRequest)
          (Body demoRequest +:+ "] trailing bytes"))
     = Some demoReq
  /\ status
       (exec (handleChatCompletion demoLib
                (mkRequest (Method demoRequest) (ReqHeader demoRequest)
                   (Body demoRequest +:+ "] trailing bytes")))
             demoWorld)
     = Some StatusOK.
Proof.
  do 5 (split; [reflexivity|]).
  pose proof (trailing_bytes_ignored demoLib demoRequest demoReq "] trailing bytes"
                demoWorld eq_refl eq_refl eq_refl eq_refl eq_refl) as H.
  exact (conj (proj1 H) (proj2 (proj2 H))).
Defined.

(** * Further properties of the code *)

(** ** [randomString] *)

Lemma str_bytes_app s t : str_bytes (s +:+ t) = str_bytes s ++ str_bytes t.
Proof. induction s as [|c s IH]; [done|]. rewrite app_String. cbn. by rewrite IH. Qed.

Lemma str_bytes_length s : length (str_bytes s) = String.length s.
Proof. induction s as [|c s IH]; [done|]. cbn. by rewrite IH. Qed.

Lemma slicerunetostring_ascii a :
  Forall (fun r => 0 <= r <= 127) a -> str_bytes (slicerunetostring a) = a.
Proof.
  induction 1 as [|r a Hr Ha IH]; [done|].
  rewrite slicerunetostring_cons, str_bytes_app, IH, encoderune_1 by done.
  cbn. by rewrite byte_val_chr by lia.
Qed.

Lemma letters_alnum : forallb is_alnum letters = true.
Proof. by vm_compute. Qed.

Lemma letters_length : length letters = 62%nat.
Proof. by vm_compute. Qed.

Lemma letter_alnum k :
  0 <= k < 62 -> is_alnum (nth (Z.to_nat k) letters 0) = true.
Proof.
  intros Hk. pose proof letters_alnum as H. rewrite forallb_forall in H.
  apply H, nth_In. rewrite letters_length. lia.
Qed.

Lemma is_alnum_ascii c : is_alnum c = true -> 0 <= c <= 127.
Proof.
  unfold is_alnum. change (json.ch "a") with 97. change (json.ch "z") with 122.
  change (json.ch "A") with 65. change (json.ch "Z") with 90.
  change (json.ch "0") with 48. change (json.ch "9") with 57.
  intros H. repeat (apply orb_true_iff in H as [H|H]);
    apply andb_true_iff in H as [H1 H2]; lia.
Qed.

Lemma randomRunes_alnum n :
  forall w, length (randomRunes n w).1 = n
            /\ Forall (fun r => is_alnum r = true) (randomRunes n w).1.
Proof.
  induction n as [|n IH]; intros w; [done|].
  cbn [randomRunes]. rewrite run_bind, run_Intn. cbn [fst snd].
  rewrite run_bind. cbn [mret M_ret fst snd].
  destruct (IH (skip_draws 1 w)) as [Hl Ha]. split; [cbn; by rewrite Hl|].
  constructor; [|done]. apply letter_alnum.
  rewrite letters_length. change (Z.of_nat 62) with 62.
  apply Z.mod_pos_bound. lia.
Qed.

Lemma randomString_alphanumeric_aux n w :
  String.length (randomString n w).1 = n
  /\ Forall (fun c => is_alnum c = true) (str_bytes (randomString n w).1).
Proof.
  destruct (randomRunes_alnum n w) as [Hl Ha].
  assert (E : str_bytes (randomString n w).1 = (randomRunes n w).1).
  { unfold randomString. rewrite run_bind. cbn [mret M_ret fst].
    apply slicerunetostring_ascii. eapply Forall_impl; [done|].
    intros r. apply is_alnum_ascii. }
  split.
  - by rewrite <- str_bytes_length, E.
  - by rewrite E.
Qed.

(** X1.  [randomString n] returns a string of exactly [n] bytes, each of them
    an ASCII letter or digit, and takes exactly [n] numbers from the random
    source. *)
Theorem randomString_alphanumeric n w :
  String.length (randomString n w).1 = n
  /\ Forall (fun c => is_alnum c = true) (str_bytes (randomString n w).1)
  /\ (randomString n w).2 = skip_draws n w.
Proof.
  destruct (randomString_alphanumeric_aux n w) as [H1 H2].
  split; [done|]. split; [done|]. apply randomString_world.
Qed.

(** ** [handleChatCompletion]: the status and the error responses *)

(** X2.  On a fresh response writer [handleChatCompletion] answers with a
    status that the request fixes: 400 when the gzip reader cannot be
    opened or the body of a POST does not decode, 405 for any other request
    that is not a POST, and 200 otherwise. *)
Theorem status_of_request lib r w :
  wroteHeader w = None ->
  status (exec (handleChatCompletion lib r) w)
  = Some (if decoding_fails lib r then StatusBadRequest
          else if String.eqb (Method r) MethodPost then StatusOK
          else StatusMethodNotAllowed).
Proof.
  intros Hw. rewrite handleChatCompletion_reader. unfold decoding_fails.
  destruct (body_reader lib r) as [body|]; [|by apply status_http_Error].
  unfold decodeAndRespond.
  destruct (String.eqb (Method r) MethodPost); cbn [negb andb];
    [|by apply status_http_Error].
  destruct (json_Decode lib body) as [req|]; [|by apply status_http_Error].
  fold (respond lib req). by apply status_respond.
Qed.

Lemma status_of_request_witness :
  wroteHeader demoWorld = None
  /\ status (exec (handleChatCompletion demoLib demoRequest) demoWorld)
     = Some StatusOK.
Proof.
  split; [reflexivity|].
  exact (status_of_request demoLib demoRequest demoWorld eq_refl).
Defined.

Lemma http_Error_world msg code w :
  wroteHeader w = None ->
  let w' := exec (http_Error msg code) w in
  rand_pos w' = rand_pos w /\ clock w' = clock w
  /\ wroteHeader w' = Some (code, error_headers (respHeader w))
  /\ emitted w w' = [EvWrite (msg +:+ LF)].
Proof.
  intros Hw w'. subst w'. rewrite emitted_http_Error, exec_http_Error.
  unfold emits, commit. cbn. rewrite Hw. cbn. repeat split. lia.
Qed.

Lemma error_headers_lookup h :
  error_headers h !! "Content-Type" = Some ["text/plain; charset=utf-8"]
  /\ error_headers h !! "X-Content-Type-Options" = Some ["nosniff"]
  /\ error_headers h !! "Content-Length" = None.
Proof.
  unfold error_headers, Header_Set, Header_Del. repeat split.
  - by rewrite lookup_insert_ne, lookup_insert_eq.
  - by rewrite lookup_insert_eq.
  - rewrite !lookup_insert_ne by done. apply lookup_delete_eq.
Qed.

(** X3.  When [handleChatCompletion] answers with a status other than 200,
    the response is a single write of one message line, sent with the
    headers of [http.Error] (text/plain, nosniff, no Content-Length); no
    random number is drawn and no time passes. *)
Theorem error_response_shape lib r w :
  wroteHeader w = None ->
  status (exec (handleChatCompletion lib r) w) <> Some StatusOK ->
  let w' := exec (handleChatCompletion lib r) w in
  (exists msg, emitted w w' = [EvWrite (msg +:+ LF)])
  /\ rand_pos w' = rand_pos w
  /\ clock w' = clock w
  /\ exists code hdr,
       wroteHeader w' = Some (code, hdr)
       /\ hdr !! "Content-Type" = Some ["text/plain; charset=utf-8"]
       /\ hdr !! "X-Content-Type-Options" = Some ["nosniff"]
       /\ hdr !! "Content-Length" = None.
Proof.
  intros Hw Hst w'. subst w'. revert Hst.
  assert (Herr : forall msg code,
    let w' := exec (http_Error msg code) w in
    (exists msg, emitted w w' = [EvWrite (msg +:+ LF)])
    /\ rand_pos w' = rand_pos w /\ clock w' = clock w
    /\ exists code hdr,
         wroteHeader w' = Some (code, hdr)
         /\ hdr !! "Content-Type" = Some ["text/plain; charset=utf-8"]
         /\ hdr !! "X-Content-Type-Options" = Some ["nosniff"]
         /\ hdr !! "Content-Length" = None).
  { intros msg code w'.
    destruct (http_Error_world msg code w Hw) as (H1 & H2 & H3 & H4).
    split; [by exists msg|]. split; [done|]. split; [done|].
    exists code, (error_headers (respHeader w)). split; [done|].
    apply error_headers_lookup. }
  rewrite handleChatCompletion_reader.
  destruct (body_reader lib r) as [body|]; [|intros _; apply Herr].
  unfold decodeAndRespond.
  destruct (negb _); [intros _; apply Herr|].
  destruct (json_Decode lib body) as [req|]; [|intros _; apply Herr].
  fold (respond lib req). rewrite status_respond by done. done.
Qed.

Lemma error_response_shape_witness :
  wroteHeader demoWorld = None
  /\ status (exec (handleChatCompletion demoLib demoBadRequest) demoWorld)
     <> Some StatusOK
  /\ rand_pos (exec (handleChatCompletion demoLib demoBadRequest) demoWorld)
     = rand_pos demoWorld.
Proof.
  assert (Hs : status (exec (handleChatCompletion demoLib demoBadRequest) demoWorld)
               <> Some StatusOK) by (vm_compute; discriminate).
  split; [reflexivity|]. split; [exact Hs|].
  exact (proj1 (proj2 (error_response_shape demoLib demoBadRequest demoWorld eq_refl Hs))).
Defined.

(** ** The two responders *)

Lemma wroteHeader_commit_fresh code w :
  wroteHeader w = None -> wroteHeader (commit code w) = Some (code, respHeader w).
Proof. intros H. unfold commit. by rewrite H. Qed.

(** X4.  [handleStreamingResponse] sends the status 200 with Content-Type
    text/event-stream, Cache-Control no-cache and Connection keep-alive,
    and leaves every other header of the response as it was. *)
Theorem stream_headers_sent lib req w :
  wroteHeader w = None ->
  exists hdr,
    wroteHeader (exec (handleStreamingResponse lib req) w) = Some (StatusOK, hdr)
    /\ hdr !! "Content-Type" = Some ["text/event-stream"]
    /\ hdr !! "Cache-Control" = Some ["no-cache"]
    /\ hdr !! "Connection" = Some ["keep-alive"]
    /\ forall k, k <> "Content-Type" -> k <> "Cache-Control" -> k <> "Connection" ->
         hdr !! k = respHeader w !! k.
Proof.
  intros Hw. rewrite exec_handleStreamingResponse.
  exists (stream_headers (respHeader w)).
  rewrite wroteHeader_emits, wroteHeader_commit_fresh by done.
  split; [done|]. unfold stream_headers, Header_Set. repeat split.
  - do 2 (rewrite lookup_insert_ne by done). by rewrite lookup_insert_eq.
  - rewrite lookup_insert_ne by done. by rewrite lookup_insert_eq.
  - by rewrite lookup_insert_eq.
  - intros k H1 H2 H3. by do 3 (rewrite lookup_insert_ne by done).
Qed.

Lemma stream_headers_sent_witness :
  wroteHeader demoWorld = None
  /\ exists hdr,
       wroteHeader (exec (handleStreamingResponse demoLib demoReq) demoWorld)
       = Some (StatusOK, hdr)
       /\ hdr !! "Content-Type" = Some ["text/event-stream"].
Proof.
  split; [reflexivity|].
  destruct (stream_headers_sent demoLib demoReq demoWorld eq_refl) as (hdr & H1 & H2 & _).
  exists hdr. split; [exact H1 | exact H2].
Defined.

(** X5.  [handleNonStreamingResponse] writes the marshalled envelope and a
    newline in a single write, with the status 200 and Content-Type
    application/json set on the headers that were there.  No time passes,
    exactly ten random numbers are drawn, the envelope has one choice
    (index 0, role assistant, the generated reply) and its id is
    [chatcmpl-] followed by ten ASCII letters or digits. *)
Theorem non_streaming_response lib req w :
  wroteHeader w = None ->
  let w' := exec (handleNonStreamingResponse lib req) w in
  emitted w w' = [EvWrite (json_Marshal_response lib (envelope w req) +:+ LF)]
  /\ wroteHeader w'
     = Some (StatusOK, <["Content-Type" := ["application/json"]]> (respHeader w))
  /\ clock w' = clock w
  /\ rand_pos w' = (rand_pos w + 10)%nat
  /\ ChatCompletionResponse.Choices (envelope w req)
     = [ResponseChoice.mk 0
          (Message.mk "assistant"
             (generateResponse (ChatCompletionRequest.Messages req)))]
  /\ exists suffix,
       ChatCompletionResponse.ID (envelope w req) = "chatcmpl-" +:+ suffix
       /\ String.length suffix = 10%nat
       /\ Forall (fun c => is_alnum c = true) (str_bytes suffix).
Proof.
  intros Hw w'. subst w'. rewrite exec_handleNonStreamingResponse.
  split; [apply emitted_emits; by rewrite trace_commit|].
  split; [rewrite wroteHeader_emits; by apply wroteHeader_commit_fresh|].
  split; [unfold emits, commit; cbn; rewrite Hw; cbn; lia|].
  split; [unfold emits, commit; cbn; by rewrite Hw|].
  split; [done|].
  exists (randomString 10 w).1. split; [done|].
  destruct (randomString_alphanumeric_aux 10 w) as (H1 & H2). done.
Qed.

Lemma non_streaming_response_witness :
  wroteHeader demoWorld = None
  /\ rand_pos (exec (handleNonStreamingResponse demoLib demoReq) demoWorld) = 10%nat.
Proof.
  split; [reflexivity|].
  exact (proj1 (proj2 (proj2 (proj2
           (non_streaming_response demoLib demoReq demoWorld eq_refl))))).
Defined.

Lemma transport_chunk_events lib fl c :
  transport (chunk_events lib fl c) = chunk_transport lib fl c.
Proof. by destruct fl. Qed.

Lemma transport_content_events lib fl id created req gs :
  transport (flat_map (content_events lib fl id created req) gs)
  = flat_map
      (fun g => chunk_transport lib fl
                  (contentChunk id created req (slicerunetostring g))
                ++ [EvSleep (StreamResponseInterval * Millisecond)]) gs.
Proof.
  induction gs as [|g gs IH]; [done|].
  cbn [flat_map]. rewrite transport_app, IH. unfold content_events.
  by rewrite transport_app, transport_chunk_events.
Qed.

Lemma transport_stream_events lib fl id created req response :
  transport (stream_events lib fl id created req response)
  = stream_transport lib fl id created req response.
Proof.
  unfold stream_events, frame_events, stream_transport.
  rewrite !transport_app, !transport_chunk_events, transport_content_events.
  by rewrite <- !app_assoc.
Qed.

Lemma slept_content_events lib fl id created req gs :
  slept (flat_map (content_events lib fl id created req) gs)
  = Z.of_nat (length gs) * (StreamResponseInterval * Millisecond).
Proof.
  induction gs as [|g gs IH]; [done|].
  cbn [flat_map length]. rewrite slept_app, IH. unfold content_events.
  rewrite slept_app. replace (slept (chunk_events lib fl _)) with 0 by (by destruct fl).
  change (slept [EvSleep (StreamResponseInterval * Millisecond)]) with 50000000.
  change (StreamResponseInterval * Millisecond) with 50000000. lia.
Qed.

Lemma slept_stream_events lib fl id created req response :
  slept (stream_events lib fl id created req response)
  = Z.of_nat ((length (stringtoslicerune response) + 1) / 2)
    * (StreamResponseInterval * Millisecond).
Proof.
  unfold stream_events, frame_events.
  rewrite !slept_app, slept_content_events, chunks2_length.
  replace (slept (chunk_events lib fl (initialChunk id created req))) with 0
    by (by destruct fl).
  replace (slept (chunk_events lib fl (finalChunk id created req))) with 0
    by (by destruct fl).
  change (slept [EvWrite DONE]) with 0. lia.
Qed.

(** X6.  The writes, flushes and sleeps of a streamed reply are, in this
    order: the first frame; for each group of two runes its frame and then
    a sleep of 50 ms; the final frame; the DONE line.  Each frame is
    followed by a flush when the writer can flush, the DONE line never is.
    The clock advances by 50 ms for each group, that is (L + 1) / 2 times
    for a reply of L runes. *)
Theorem stream_transport_trace lib req w response :
  let w' := exec (streamResponse lib response req) w in
  transport (emitted w w')
  = stream_transport lib (flusher w) (fresh_id w) (now_unix w) req response
  /\ clock w'
     = clock w
       + Z.of_nat ((length (stringtoslicerune response) + 1) / 2)
         * (StreamResponseInterval * Millisecond).
Proof.
  intros w'. subst w'. split.
  - by rewrite emitted_streamResponse, transport_stream_events.
  - rewrite exec_streamResponse. unfold emits. cbn [clock].
    rewrite slept_stream_events. f_equal.
    unfold commit. by destruct (wroteHeader (skip_draws 10 w)).
Qed.

Lemma exec_streamResponse_set_flusher lib response req fl w :
  emitted (set_flusher fl w) (exec (streamResponse lib response req) (set_flusher fl w))
  = stream_events lib fl (fresh_id w) (now_unix w) req response.
Proof. by rewrite emitted_streamResponse. Qed.

Lemma filter_flush_chunk_events lib c :
  List.filter is_flush (chunk_events lib false c) = [].
Proof. reflexivity. Qed.

Lemma filter_flush_content_events lib id created req gs :
  List.filter is_flush (flat_map (content_events lib false id created req) gs) = [].
Proof.
  induction gs as [|g gs IH]; [done|].
  cbn [flat_map]. by rewrite List.filter_app, IH.
Qed.

(** X7.  With a writer that cannot flush, the streamed response has no
    flush at all, and the same writes in the same order as with a writer
    that can. *)
Theorem stream_without_flusher lib req w response :
  let w0 := set_flusher false w in
  List.filter is_flush (emitted w0 (exec (streamResponse lib response req) w0)) = []
  /\ writes (emitted w0 (exec (streamResponse lib response req) w0))
     = writes (emitted w (exec (streamResponse lib response req) w)).
Proof.
  intros w0. subst w0. rewrite exec_streamResponse_set_flusher. split.
  - unfold stream_events, frame_events.
    by rewrite !List.filter_app, !filter_flush_chunk_events,
      filter_flush_content_events.
  - by rewrite emitted_streamResponse, !writes_stream_events.
Qed.

Lemma logged_app a b : logged_chunks (a ++ b) = logged_chunks a ++ logged_chunks b.
Proof. apply omap_app. Qed.

Lemma logged_chunk_events lib fl c : logged_chunks (chunk_events lib fl c) = [c].
Proof. by destruct fl. Qed.

Lemma logged_content_events lib fl id created req gs :
  logged_chunks (flat_map (content_events lib fl id created req) gs)
  = contentChunk id created req ∘ slicerunetostring <$> gs.
Proof.
  induction gs as [|g gs IH]; [done|].
  cbn [flat_map]. rewrite logged_app, IH. unfold content_events.
  by rewrite logged_app, logged_chunk_events.
Qed.

(** X8.  Every chunk of a streamed response is logged by [writeChunk], in
    the order in which it is sent: the writes are the frames of the logged
    chunks, followed by the DONE line, which is not logged. *)
Theorem stream_frames_logged lib req w response :
  let evs := emitted w (exec (streamResponse lib response req) w) in
  logged_chunks evs = stream_chunks (fresh_id w) (now_unix w) req response
  /\ writes evs = (frame lib <$> logged_chunks evs) ++ [DONE].
Proof.
  intros evs. subst evs. rewrite emitted_streamResponse.
  assert (E : logged_chunks
                (stream_events lib (flusher w) (fresh_id w) (now_unix w) req response)
              = stream_chunks (fresh_id w) (now_unix w) req response).
  { unfold stream_events, frame_events, stream_chunks.
    rewrite !logged_app, !logged_chunk_events, logged_content_events.
    cbn. by rewrite app_nil_r. }
  split; [done|]. by rewrite E, writes_stream_events.
Qed.

(** ** The routes with delay and failure *)

Lemma status_handleChatCompletion lib r w :
  wroteHeader w = None ->
  status (exec (handleChatCompletion lib r) w)
  = Some (if decoding_fails lib r then StatusBadRequest
          else if String.eqb (Method r) MethodPost then StatusOK
          else StatusMethodNotAllowed).
Proof.
  intros Hw. rewrite handleChatCompletion_reader. unfold decoding_fails.
  destruct (body_reader lib r) as [body|]; [|by apply status_http_Error].
  unfold decodeAndRespond.
  destruct (String.eqb (Method r) MethodPost); cbn [negb andb];
    [|by apply status_http_Error].
  destruct (json_Decode lib body) as [req|]; [|by apply status_http_Error].
  fold (respond lib req). by apply status_respond.
Qed.

Lemma status_handleChatCompletion_not_500 lib r w :
  wroteHeader w = None ->
  status (exec (handleChatCompletion lib r) w) <> Some StatusInternalServerError.
Proof.
  intros Hw. rewrite status_handleChatCompletion by done.
  by repeat match goal with |- context [if ?b then _ else _] => destruct b end.
Qed.

Lemma emitted_after pre w w1 w' :
  trace w1 = trace w ++ pre ->
  (exists evs, trace w' = trace w1 ++ evs) ->
  emitted w w' = pre ++ emitted w1 w'.
Proof.
  intros E [evs E']. unfold emitted. rewrite E', E, <- app_assoc.
  rewrite drop_app_length. by rewrite app_assoc, drop_app_length.
Qed.

Lemma trace_handleChatCompletion lib r w :
  exists evs, trace (exec (handleChatCompletion lib r) w) = trace w ++ evs.
Proof.
  destruct (handleChatCompletion_effect lib r w)
    as (e & evs & code & h & k & -> & _ & _).
  exists (e :: evs). by rewrite trace_emits, trace_commit.
Qed.

(** X9.  [handleRandomSleep] draws one random number, sleeps [d] ms for
    some [0 <= d < 5000] before anything else happens, and then behaves as
    [handleChatCompletion] does; its status is that of the plain route. *)
Theorem random_sleep_route lib r w :
  wroteHeader w = None ->
  let w' := exec (handleRandomSleep lib r) w in
  exists d w1,
    0 <= d < 5000
    /\ w1 = emits [EvSleep (d * Millisecond)] (skip_draws 1 w)
    /\ w' = exec (handleChatCompletion lib r) w1
    /\ emitted w w' = EvSleep (d * Millisecond) :: emitted w1 w'
    /\ status w' = status (exec (handleChatCompletion lib r) w).
Proof.
  intros Hw w'. subst w'. unfold handleRandomSleep.
  rewrite exec_bind, run_Intn. cbn [fst snd].
  rewrite exec_seq, exec_Sleep.
  eexists _, _. split; [by apply Z.mod_pos_bound|]. split; [done|].
  split; [done|]. split.
  - apply (emitted_after [_]); [done|]. apply trace_handleChatCompletion.
  - by rewrite !status_handleChatCompletion.
Qed.

Lemma random_sleep_route_witness :
  wroteHeader demoWorld = None
  /\ status (exec (handleRandomSleep demoLib demoRequest) demoWorld)
     = status (exec (handleChatCompletion demoLib demoRequest) demoWorld).
Proof.
  split; [reflexivity|].
  destruct (random_sleep_route demoLib demoRequest demoWorld eq_refl)
    as (d & w1 & _ & _ & _ & _ & H).
  exact H.
Defined.

Lemma classify_http_Error_500 w0 w1 msg :
  wroteHeader w1 = None ->
  classify w0 (exec (http_Error msg StatusInternalServerError) w1) = HardFailure.
Proof. intros Hw. unfold classify. by rewrite status_http_Error. Qed.

Lemma fail_outcome_char lib r w a :
  wroteHeader w = None ->
  classify (with_draws a 0 w) (exec (handleRandomFail lib r) (with_draws a 0 w))
  = if a mod 10 <? 5 then HardFailure else PlainDelegation.
Proof.
  intros Hw. unfold handleRandomFail.
  rewrite exec_bind, run_Intn. cbn [fst snd]. rewrite with_draws_first.
  destruct (a mod 10 <? 5).
  - by apply classify_http_Error_500.
  - match goal with |- classify _ (exec _ ?w1) = _ =>
      destruct (handleChatCompletion_effect lib r w1)
        as (e & evs & code & h & k & -> & Hc & He)
    end.
    rewrite (classify_delegated _ _ []) by (done || by rewrite app_nil_r).
    destruct e; try done. by destruct (He d).
Qed.

(** X10.  [handleRandomFail] draws one number below 10.  When it is below 5,
    the response is the status 500 with the single line [Random error],
    and no time passes; otherwise the handler goes on as
    [handleChatCompletion], with the status of the plain route.  Of the ten
    values of the draw five fail, five delegate and none leads to a delay. *)
Theorem random_fail_route lib r w :
  wroteHeader w = None ->
  let w' := exec (handleRandomFail lib r) w in
  (if rand_src w (rand_pos w) mod 10 <? 5
   then status w' = Some StatusInternalServerError
        /\ emitted w w' = [EvWrite ("Random error" +:+ LF)]
        /\ clock w' = clock w
   else w' = exec (handleChatCompletion lib r) (skip_draws 1 w)
        /\ status w' = status (exec (handleChatCompletion lib r) w)
        /\ emitted w w' = emitted (skip_draws 1 w) w')
  /\ count_fail_outcome lib r w HardFailure = 5%nat
  /\ count_fail_outcome lib r w PlainDelegation = 5%nat
  /\ count_fail_outcome lib r w DelayedDelegation = 0%nat.
Proof.
  intros Hw w'. subst w'. split.
  - unfold handleRandomFail. rewrite exec_bind, run_Intn. cbn [fst snd].
    destruct (_ <? 5).
    + destruct (http_Error_world "Random error" StatusInternalServerError
                  (skip_draws 1 w) Hw) as (H1 & H2 & H3 & H4).
      split; [by apply status_http_Error|]. split; [|exact H2].
      rewrite (emitted_after [] w (skip_draws 1 w));
        [exact H4 | by rewrite app_nil_r |].
      rewrite exec_http_Error. eexists. by rewrite trace_emits, trace_commit.
    + split; [done|]. split; [by rewrite !status_handleChatCompletion|].
      rewrite (emitted_after [] w (skip_draws 1 w));
        [done | by rewrite app_nil_r |].
      apply trace_handleChatCompletion.
  - assert (E : forall o, count_fail_outcome lib r w o
      = length (List.filter
          (fun a => Outcome_eqb (if a mod 10 <? 5 then HardFailure else PlainDelegation) o)
          (seqZ 0 10))).
    { intros o. unfold count_fail_outcome. f_equal. apply List.filter_ext.
      intros a. by rewrite fail_outcome_char. }
    rewrite !E. by vm_compute.
Qed.

Lemma random_fail_route_witness :
  wroteHeader demoWorld = None
  /\ count_fail_outcome demoLib demoRequest demoWorld HardFailure = 5%nat
  /\ count_fail_outcome demoLib demoRequest demoWorld PlainDelegation = 5%nat
  /\ count_fail_outcome demoLib demoRequest demoWorld DelayedDelegation = 0%nat.
Proof.
  split; [reflexivity|].
  exact (proj2 (random_fail_route demoLib demoRequest demoWorld eq_refl)).
Defined.

Lemma exec_handleRandom lib r w :
  exec (handleRandom lib r) w
  = if rand_src w (rand_pos w) mod 10 <? 5
    then if rand_src w (S (rand_pos w)) mod 10 <? 5
         then exec (http_Error "Random error" StatusInternalServerError) (skip_draws 2 w)
         else exec (handleChatCompletion lib r) (skip_draws 2 w)
    else exec (handleChatCompletion lib r)
           (emits [EvSleep (rand_src w (S (rand_pos w)) mod 5000 * Millisecond)]
              (skip_draws 2 w)).
Proof.
  unfold handleRandom. rewrite exec_bind, run_Intn. cbn [fst snd].
  assert (E : skip_draws 1 (skip_draws 1 w) = skip_draws 2 w).
  { unfold skip_draws. cbn. f_equal. lia. }
  assert (E1 : rand_pos (skip_draws 1 w) = S (rand_pos w)).
  { cbn. lia. }
  destruct (_ <? 5).
  - unfold handleRandomFail. rewrite exec_bind, run_Intn. cbn [fst snd].
    rewrite E. cbn [rand_src skip_draws]. rewrite E1.
    by destruct (_ <? 5).
  - rewrite exec_bind, run_Intn. cbn [fst snd].
    rewrite exec_seq, exec_Sleep, E. cbn [rand_src skip_draws].
    by rewrite E1.
Qed.

(** X11.  When [handleRandom] answers 500, it has written the single line
    [Random error], has drawn exactly two random numbers, and no time has
    passed: a failure of the combined route is never delayed. *)
Theorem hard_failure_not_delayed lib r w :
  wroteHeader w = None ->
  status (exec (handleRandom lib r) w) = Some StatusInternalServerError ->
  let w' := exec (handleRandom lib r) w in
  emitted w w' = [EvWrite ("Random error" +:+ LF)]
  /\ clock w' = clock w
  /\ rand_pos w' = (rand_pos w + 2)%nat.
Proof.
  intros Hw Hst w'. subst w'. revert Hst. rewrite exec_handleRandom.
  destruct (_ <? 5); [destruct (_ <? 5)|].
  - intros _.
    destruct (http_Error_world "Random error" StatusInternalServerError
                (skip_draws 2 w) Hw) as (H1 & H2 & H3 & H4).
    split; [|split; [exact H2 | exact H1]].
    rewrite (emitted_after [] w (skip_draws 2 w));
      [exact H4 | by rewrite app_nil_r |].
    rewrite exec_http_Error. eexists. by rewrite trace_emits, trace_commit.
  - intros Hst. by apply status_handleChatCompletion_not_500 in Hst.
  - intros Hst. by apply status_handleChatCompletion_not_500 in Hst.
Qed.

Lemma hard_failure_not_delayed_witness :
  wroteHeader demoFailWorld = None
  /\ status (exec (handleRandom demoLib demoRequest) demoFailWorld)
     = Some StatusInternalServerError
  /\ clock (exec (handleRandom demoLib demoRequest) demoFailWorld)
     = clock demoFailWorld.
Proof.
  assert (Hs : status (exec (handleRandom demoLib demoRequest) demoFailWorld)
               = Some StatusInternalServerError) by (vm_compute; reflexivity).
  split; [reflexivity|]. split; [exact Hs|].
  exact (proj1 (proj2 (hard_failure_not_delayed demoLib demoRequest demoFailWorld
                         eq_refl Hs))).
Defined.

(** X12.  The plain route answers 200, 400 or 405.  The route with delay
    answers with the status of the plain route; the route with failure and
    the combined route answer with 500 or with the status of the plain
    route. *)
Theorem routes_status lib r w :
  wroteHeader w = None ->
  let base := status (exec (handleChatCompletion lib r) w) in
  (base = Some StatusOK \/ base = Some StatusBadRequest
   \/ base = Some StatusMethodNotAllowed)
  /\ status (exec (handleRandomSleep lib r) w) = base
  /\ (status (exec (handleRandomFail lib r) w) = Some StatusInternalServerError
      \/ status (exec (handleRandomFail lib r) w) = base)
  /\ (status (exec (handleRandom lib r) w) = Some StatusInternalServerError
      \/ status (exec (handleRandom lib r) w) = base).
Proof.
  intros Hw base. subst base. split; [|split; [|split]].
  - rewrite status_handleChatCompletion by done.
    repeat match goal with |- context [if ?b then _ else _] => destruct b end; auto.
  - unfold handleRandomSleep. rewrite exec_bind, run_Intn. cbn [fst snd].
    rewrite exec_seq, exec_Sleep. by rewrite !status_handleChatCompletion.
  - unfold handleRandomFail. rewrite exec_bind, run_Intn. cbn [fst snd].
    destruct (_ <? 5).
    + left. by apply status_http_Error.
    + right. by rewrite !status_handleChatCompletion.
  - rewrite exec_handleRandom.
    destruct (_ <? 5); [destruct (_ <? 5)|].
    + left. by apply status_http_Error.
    + right. by rewrite !status_handleChatCompletion.
    + right. by rewrite !status_handleChatCompletion.
Qed.

Lemma routes_status_witness :
  wroteHeader demoWorld = None
  /\ status (exec (handleRandomSleep demoLib demoGetRequest) demoWorld)
     = status (exec (handleChatCompletion demoLib demoGetRequest) demoWorld).
Proof.
  split; [reflexivity|].
  exact (proj1 (proj2 (routes_status demoLib demoGetRequest demoWorld eq_refl))).
Defined.

(** ** Bodies that are rejected *)

Lemma scanBuf_blank buf :
  forall s p, step s = StepBeginValue -> blank buf = true ->
  scanBuf s buf p = NeedMore s (p + String.length buf).
Proof.
  unfold blank. induction buf as [|c buf IH]; intros s p Hs Hb.
  - cbn. by rewrite Nat.add_0_r.
  - cbn [nonSpace] in Hb. apply negb_true_iff, orb_false_iff in Hb as [Hc Hb].
    apply negb_false_iff in Hc.
    cbn [scanBuf String.length]. unfold call_step. rewrite Hs.
    unfold stateBeginValue. rewrite Hc.
    rewrite IH by (done || by rewrite Hb). f_equal. lia.
Qed.

Lemma readValue_blank body e :
  blank body = true -> exists err, readValue (mkReader body e) = inl err.
Proof.
  intros Hb. unfold readValue. cbn [rd_data rd_err].
  rewrite scanBuf_blank by done. destruct e as [e|]; [by eexists|].
  cbn. by eexists.
Qed.

Lemma status_post_undecodable lib r w :
  Method r = MethodPost -> wroteHeader w = None ->
  decode_request lib r = None ->
  status (exec (handleChatCompletion lib r) w) = Some StatusBadRequest.
Proof.
  intros Hm Hw Hdec. rewrite handleChatCompletion_post by done.
  unfold decode_request in Hdec.
  destruct (body_reader lib r) as [body|]; cbn in Hdec.
  - rewrite Hdec. by apply status_http_Error.
  - by apply status_http_Error.
Qed.

(** X13.  A POST without gzip encoding whose body is empty, or JSON white
    space only, is answered with 400 and the single line
    [Invalid request body]. *)
Theorem blank_body_rejected lib r w :
  Method r = MethodPost ->
  gzip_encoded r = false ->
  blank (Body r) = true ->
  wroteHeader w = None ->
  let w' := exec (handleChatCompletion lib r) w in
  status w' = Some StatusBadRequest
  /\ emitted w w' = [EvWrite ("Invalid request body" +:+ LF)].
Proof.
  intros Hm Hz Hb Hw w'. subst w'.
  rewrite handleChatCompletion_post by done.
  unfold body_reader. rewrite Hz. unfold json_Decode.
  destruct (readValue_blank (Body r) None Hb) as [err ->].
  by rewrite status_http_Error, emitted_http_Error.
Qed.

Lemma blank_body_rejected_witness :
  Method demoBlankRequest = MethodPost
  /\ gzip_encoded demoBlankRequest = false
  /\ blank (Body demoBlankRequest) = true
  /\ wroteHeader demoWorld = None
  /\ status (exec (handleChatCompletion demoLib demoBlankRequest) demoWorld)
     = Some StatusBadRequest.
Proof.
  split; [reflexivity|]. split; [reflexivity|]. split; [reflexivity|].
  split; [reflexivity|].
  exact (proj1 (blank_body_rejected demoLib demoBlankRequest demoWorld
                  eq_refl eq_refl eq_refl eq_refl)).
Defined.

Lemma scanBuf_bad_start buf c :
  first_nonspace buf = Some c -> starts_value c = false ->
  forall s p, step s = StepBeginValue ->
  exists ctx, scanBuf s buf p = SyntaxErr ctx.
Proof.
  intros Hf Hc. induction buf as [|b buf IH]; intros s p Hs; [done|].
  cbn [first_nonspace] in Hf. cbn [scanBuf]. unfold call_step. rewrite Hs.
  unfold stateBeginValue. revert Hf.
  destruct (isSpace (byte_val b)) eqn:Esp; intros Hf; [by apply IH|].
  simplify_eq. unfold starts_value in Hc.
  repeat (apply orb_false_iff in Hc as [Hc ?]).
  assert (Hd : isDigit19 (byte_val b) = false /\ (byte_val b =? ch "0") = false).
  { match goal with H : isDigit _ = false |- _ => rename H into Hdig end.
    unfold isDigit, isDigit19 in *.
    change (ch "1") with 49. change (ch "0") with 48 in *.
    apply andb_false_iff in Hdig. rewrite andb_false_iff, Z.eqb_neq.
    destruct Hdig as [Hlo|Hhi].
    - apply Z.leb_gt in Hlo. split; [left; apply Z.leb_gt|]; lia.
    - apply Z.leb_gt in Hhi. change (ch "9") with 57 in *. split; [by right; apply Z.leb_gt|lia]. }
  destruct Hd as [Hd Hzero].
  repeat match goal with H : (_ =? _) = false |- _ => rewrite H; clear H end.
  rewrite ?Hzero, Hd. by eexists.
Qed.

(** X14.  A POST without gzip encoding whose first byte after the white
    space cannot start a JSON value is answered with 400 and the single
    line [Invalid request body]. *)
Theorem bad_first_byte_rejected lib r w c :
  Method r = MethodPost ->
  gzip_encoded r = false ->
  first_nonspace (Body r) = Some c ->
  starts_value c = false ->
  wroteHeader w = None ->
  let w' := exec (handleChatCompletion lib r) w in
  status w' = Some StatusBadRequest
  /\ emitted w w' = [EvWrite ("Invalid request body" +:+ LF)].
Proof.
  intros Hm Hz Hf Hc Hw w'. subst w'.
  rewrite handleChatCompletion_post by done.
  unfold body_reader. rewrite Hz. unfold json_Decode, readValue. cbn [rd_data].
  destruct (scanBuf_bad_start (Body r) c Hf Hc reset 0 eq_refl) as [ctx ->].
  by rewrite status_http_Error, emitted_http_Error.
Qed.

Lemma bad_first_byte_rejected_witness :
  Method demoTextRequest = MethodPost
  /\ gzip_encoded demoTextRequest = false
  /\ first_nonspace (Body demoTextRequest) = Some (ch "h")
  /\ starts_value (ch "h") = false
  /\ wroteHeader demoWorld = None
  /\ status (exec (handleChatCompletion demoLib demoTextRequest) demoWorld)
     = Some StatusBadRequest.
Proof.
  split; [reflexivity|]. split; [reflexivity|]. split; [reflexivity|].
  split; [reflexivity|]. split; [reflexivity|].
  exact (proj1 (bad_first_byte_rejected demoLib demoTextRequest demoWorld (ch "h")
                  eq_refl eq_refl eq_refl eq_refl eq_refl)).
Defined.

Lemma gzip_NewReader_magic lib body :
  gzip_magic body = false -> gzip_NewReader lib body = None.
Proof.
  unfold gzip_magic, gzip_NewReader. intros H.
  destruct (String.length body <? 10)%nat; [done|]. cbn [negb andb] in H.
  destruct (str_at body 0) as [b0|]; [|done].
  destruct (str_at body 1) as [b1|]; [|done].
  destruct (str_at body 2) as [b2|]; [|done].
  destruct (b0 =? gzipID1), (b1 =? gzipID2), (b2 =? gzipDeflate); done.
Qed.

(** X15.  A request with Content-Encoding gzip, of any method, whose body is
    shorter than ten bytes or does not start with the bytes 1f 8b 08, is
    answered with 400 and the single line
    [Failed to decompress request body]. *)
Theorem gzip_without_magic_rejected lib r w :
  gzip_encoded r = true ->
  gzip_magic (Body r) = false ->
  wroteHeader w = None ->
  let w' := exec (handleChatCompletion lib r) w in
  status w' = Some StatusBadRequest
  /\ emitted w w' = [EvWrite ("Failed to decompress request body" +:+ LF)].
Proof.
  intros Hz Hmagic Hw w'. subst w'. rewrite handleChatCompletion_reader.
  unfold body_reader. rewrite Hz, gzip_NewReader_magic by done.
  by rewrite status_http_Error, emitted_http_Error.
Qed.

Lemma gzip_without_magic_rejected_witness :
  gzip_encoded demoGetRequest = true
  /\ gzip_magic (Body demoGetRequest) = false
  /\ wroteHeader demoWorld = None
  /\ status (exec (handleChatCompletion demoLib demoGetRequest) demoWorld)
     = Some StatusBadRequest.
Proof.
  split; [reflexivity|]. split; [reflexivity|]. split; [reflexivity|].
  exact (proj1 (gzip_without_magic_rejected demoLib demoGetRequest demoWorld
                  eq_refl eq_refl eq_refl)).
Defined.

(** X16.  Two requests with the same method and the same body that agree on
    whether Content-Encoding is gzip get the same response and leave the
    same state: the handler reads no other header. *)
Theorem only_content_encoding_read lib r r' w :
  Method r = Method r' ->
  Body r = Body r' ->
  gzip_encoded r = gzip_encoded r' ->
  exec (handleChatCompletion lib r) w = exec (handleChatCompletion lib r') w.
Proof.
  intros Hm Hb Hz. rewrite !handleChatCompletion_reader.
  unfold body_reader, decodeAndRespond. by rewrite Hm, Hb, Hz.
Qed.

Lemma only_content_encoding_read_witness :
  Method demoRequest = Method demoTypedRequest
  /\ Body demoRequest = Body demoTypedRequest
  /\ gzip_encoded demoRequest = gzip_encoded demoTypedRequest
  /\ exec (handleChatCompletion demoLib demoRequest) demoWorld
     = exec (handleChatCompletion demoLib demoTypedRequest) demoWorld.
Proof.
  split; [reflexivity|]. split; [reflexivity|]. split; [reflexivity|].
  exact (only_content_encoding_read demoLib demoRequest demoTypedRequest demoWorld
           eq_refl eq_refl eq_refl).
Defined.

Lemma scanBuf_too_deep rest n :
  forall s p,
  step s = StepBeginValue \/ step s = StepBeginValueOrEmpty ->
  Z.of_nat (length (parseState s)) <= maxNestingDepth ->
  maxNestingDepth < Z.of_nat (length (parseState s) + n) ->
  scanBuf s (str_repeat "[" n +:+ rest) p = SyntaxErr "exceeded max depth".
Proof.
  induction n as [|n IH]; intros s p Hs Hle Hgt.
  - rewrite Nat.add_0_r in Hgt. lia.
  - cbn [str_repeat]. rewrite app_String. cbn [scanBuf].
    assert (E : call_step s (byte_val "[")
                = pushParseState (set_step s StepBeginValueOrEmpty) (byte_val "[")
                    parseArrayValue scanBeginArray).
    { unfold call_step. by destruct Hs as [-> | ->]. }
    rewrite E. unfold pushParseState. cbn [parseState set_step length].
    destruct (Z.leb_spec (Z.of_nat (S (length (parseState s)))) maxNestingDepth)
      as [Hok|Hbad].
    + apply IH; cbn [step parseState length]; [by right | done | ].
      replace (S (length (parseState s)) + n)%nat
        with (length (parseState s) + S n)%nat by lia. done.
    + done.
Qed.

(** X17.  A POST without gzip encoding whose body starts with more than
    10000 opening brackets is answered with 400 and the single line
    [Invalid request body], whatever follows the brackets. *)
Theorem nesting_too_deep_rejected lib r w n rest :
  Method r = MethodPost ->
  gzip_encoded r = false ->
  maxNestingDepth < n ->
  Body r = str_repeat "[" (Z.to_nat n) +:+ rest ->
  wroteHeader w = None ->
  let w' := exec (handleChatCompletion lib r) w in
  status w' = Some StatusBadRequest
  /\ emitted w w' = [EvWrite ("Invalid request body" +:+ LF)].
Proof.
  intros Hm Hz Hn Hb Hw w'. subst w'.
  rewrite handleChatCompletion_post by done.
  unfold body_reader. rewrite Hz. unfold json_Decode, readValue. cbn [rd_data].
  rewrite Hb, scanBuf_too_deep; [| by left | done | cbn; unfold maxNestingDepth in *; lia].
  by rewrite status_http_Error, emitted_http_Error.
Qed.

Lemma nesting_too_deep_rejected_witness :
  Method demoDeepRequest = MethodPost
  /\ gzip_encoded demoDeepRequest = false
  /\ maxNestingDepth < 10001
  /\ Body demoDeepRequest = str_repeat "[" (Z.to_nat 10001) +:+ "1"
  /\ wroteHeader demoWorld = None
  /\ status (exec (handleChatCompletion demoLib demoDeepRequest) demoWorld)
     = Some StatusBadRequest.
Proof.
  split; [reflexivity|]. split; [reflexivity|]. split; [reflexivity|].
  split; [reflexivity|]. split; [reflexivity|].
  exact (proj1 (nesting_too_deep_rejected demoLib demoDeepRequest demoWorld 10001 "1"
                  eq_refl eq_refl eq_refl eq_refl eq_refl)).
Defined.

(** ** Runes and strings *)

Lemma is_scalar_iff r : is_scalar r = true <-> scalar r.
Proof.
  split; [apply is_scalar_spec|].
  unfold is_scalar, scalar, surrogateMin, surrogateMax, maxRune.
  intros [H|H]; apply orb_true_iff; [left|right]; apply andb_true_iff; split;
    first [apply Z.leb_le | apply Z.ltb_lt]; lia.
Qed.

Lemma sanitize_scalar r : scalar (sanitize r).
Proof.
  unfold sanitize. destruct (is_scalar r) eqn:E; [by apply is_scalar_spec|].
  unfold scalar, runeError, surrogateMin, surrogateMax, maxRune. lia.
Qed.

Lemma encoderune_sanitize r : is_int32 r -> encoderune r = encoderune (sanitize r).
Proof.
  intros Hr. unfold sanitize. destruct (is_scalar r) eqn:E; [done|].
  assert (Hns : ~ scalar r) by (rewrite <- is_scalar_iff; by rewrite E).
  unfold scalar, surrogateMin, surrogateMax, maxRune, is_int32 in *.
  unfold encoderune at 1. unfold uint32.
  change rune1Max with 127. change rune2Max with 2047. change rune3Max with 65535.
  unfold maxRune, surrogateMin, surrogateMax.
  assert (Hcase : (r < 0 /\ r mod 2 ^ 32 = r + 2 ^ 32)
                  \/ (0 <= r /\ r mod 2 ^ 32 = r)).
  { destruct (Z.lt_ge_cases r 0); [left|right]; (split; [lia|]).
    - symmetry. apply (Z.mod_unique r (2 ^ 32) (-1)); lia.
    - apply Z.mod_small. lia. }
  destruct Hcase as [[Hneg ->] | [Hpos ->]].
  - decide_if. reflexivity.
  - decide_if.
    destruct (Z.ltb_spec 1114111 r) as [Hbig|Hsmall]; [reflexivity|].
    decide_if. reflexivity.
Qed.

Lemma slicerunetostring_sanitize a :
  Forall is_int32 a -> slicerunetostring a = slicerunetostring (sanitize <$> a).
Proof.
  induction 1 as [|r a Hr Ha IH]; [done|].
  rewrite fmap_cons, !slicerunetostring_cons, IH. by rewrite <- encoderune_sanitize.
Qed.

(** X18.  Runes converted to a string and back come out unchanged where
    they are Unicode scalar values, and as U+FFFD where they are not
    (surrogates, negative numbers, numbers above U+10FFFF). *)
Theorem encode_decode_sanitizes a :
  Forall is_int32 a ->
  stringtoslicerune (slicerunetostring a) = sanitize <$> a.
Proof.
  intros Ha. rewrite slicerunetostring_sanitize by done.
  apply stringtoslicerune_slicerunetostring.
  apply Forall_fmap, Forall_true. intros r. apply sanitize_scalar.
Qed.

Lemma encode_decode_sanitizes_witness :
  Forall is_int32 demoInt32s
  /\ stringtoslicerune (slicerunetostring demoInt32s)
     = [0x41; runeError; runeError; runeError].
Proof.
  assert (Ha : Forall is_int32 demoInt32s).
  { unfold demoInt32s, is_int32. repeat (constructor; [lia|]). constructor. }
  split; [exact Ha|].
  exact (encode_decode_sanitizes demoInt32s Ha).
Defined.

Lemma runeError_scalar : scalar runeError.
Proof. unfold scalar, runeError, surrogateMin, surrogateMax, maxRune. lia. Qed.

Ltac bool_hyps :=
  repeat match goal with
  | H : _ && _ = true |- _ => apply andb_true_iff in H as [? ?]
  | H : negb _ = true |- _ => apply negb_true_iff in H
  | H : _ && _ = false |- _ => apply andb_false_iff in H as [?|?]
  | H : (_ <? _) = true |- _ => apply Z.ltb_lt in H
  | H : (_ <=? _) = true |- _ => apply Z.leb_le in H
  | H : (_ <? _) = false |- _ => apply Z.ltb_ge in H
  | H : (_ <=? _) = false |- _ => apply Z.leb_gt in H
  end.

Lemma decoderune_scalar s : scalar (decoderune s).1.
Proof.
  unfold decoderune, is_cont.
  change rune1Max with 127. change rune2Max with 2047. change rune3Max with 65535.
  repeat match goal with
  | |- context [match ?o with Some _ => _ | None => _ end] => destruct o
  | |- scalar (if ?b then _ else _).1 => destruct b eqn:?
  end; cbn [fst]; try apply runeError_scalar.
  all: rewrite ?join2, ?join3, ?join4 in *.
  all: unfold scalar, surrogateMin, surrogateMax, maxRune, locb, hicb in *.
  all: bool_hyps; dlia.
Qed.

Lemma next_rune_scalar s : scalar (next_rune s).1.
Proof.
  unfold next_rune. destruct (str_at s 0) as [c|] eqn:E; [|apply runeError_scalar].
  destruct (Z.ltb_spec c runeSelf) as [Hc|Hc]; [|apply decoderune_scalar].
  cbn [fst]. destruct s as [|b s]; [done|]. rewrite str_at_0 in E. simplify_eq.
  pose proof (byte_val_range b). unfold scalar, surrogateMin, runeSelf in *. lia.
Qed.

Lemma range_runes_scalar fuel :
  forall s, Forall scalar (range_runes fuel s) /\ (length (range_runes fuel s) <= fuel)%nat.
Proof.
  induction fuel as [|fuel IH]; intros s; [split; [constructor|done]|].
  cbn [range_runes]. destruct s as [|b s]; [split; [constructor|cbn; lia]|].
  pose proof (next_rune_scalar (String b s)) as Hs.
  destruct (next_rune (String b s)) as [r wd]. cbn [fst] in Hs.
  destruct (IH (str_drop wd (String b s))) as [H1 H2].
  split; [by constructor | cbn; lia].
Qed.

(** X19.  The runes of any string, valid UTF-8 or not, are Unicode scalar
    values, there are at most as many of them as the string has bytes, and
    converting them to a string and back returns them unchanged. *)
Theorem decoded_runes_scalar s :
  let runes := stringtoslicerune s in
  Forall scalar runes
  /\ (length runes <= String.length s)%nat
  /\ stringtoslicerune (slicerunetostring runes) = runes.
Proof.
  intros runes. subst runes. unfold stringtoslicerune at 1 2 3.
  destruct (range_runes_scalar (String.length s) s) as [H1 H2].
  split; [done|]. split; [done|]. by apply stringtoslicerune_slicerunetostring.
Qed.

(** X20.  For any reply, the writes of the stream are the frame of the
    first chunk, the frame of one content chunk for each group of two
    runes, the frame of the final chunk and the DONE line.  The contents
    concatenated are the runes of the reply encoded as UTF-8, and have the
    same runes as the reply. *)
Theorem stream_contents_any_reply lib req w response :
  let runes := stringtoslicerune response in
  let contents := slicerunetostring <$> chunks2 runes in
  writes (emitted w (exec (streamResponse lib response req) w))
  = (frame lib <$> [initialChunk (fresh_id w) (now_unix w) req]
                   ++ (contentChunk (fresh_id w) (now_unix w) req <$> contents)
                   ++ [finalChunk (fresh_id w) (now_unix w) req])
    ++ [DONE]
  /\ str_concat contents = slicerunetostring runes
  /\ stringtoslicerune (str_concat contents) = runes.
Proof.
  intros runes contents.
  assert (E : str_concat contents = slicerunetostring runes)
    by apply str_concat_chunks2.
  split; [|split; [done|]].
  - rewrite emitted_streamResponse, writes_stream_events.
    unfold stream_chunks. subst contents runes. by rewrite <- list_fmap_compose.
  - rewrite E. apply stringtoslicerune_slicerunetostring.
    subst runes. unfold stringtoslicerune. apply range_runes_scalar.
Qed.

Lemma range_runes_ascii s :
  Forall (fun c => c < runeSelf) (str_bytes s) ->
  forall fuel, (String.length s <= fuel)%nat -> range_runes fuel s = str_bytes s.
Proof.
  induction s as [|b s IH]; intros Ha fuel Hf; [by destruct fuel|].
  destruct fuel as [|fuel]; [cbn in Hf; lia|].
  cbn [str_bytes] in Ha. apply Forall_cons in Ha as [Hb Ha].
  cbn [range_runes]. unfold next_rune. rewrite str_at_0.
  apply Z.ltb_lt in Hb. rewrite Hb. cbn [str_drop str_bytes].
  rewrite IH; [done|done|]. cbn in Hf. lia.
Qed.

Lemma str_of_bytes_bytes s : str_of_bytes (str_bytes s) = s.
Proof.
  unfold str_of_bytes. induction s as [|b s IH]; [done|].
  cbn [str_bytes foldr]. by rewrite byte_chr_val, IH.
Qed.

Lemma slicerunetostring_ascii_bytes a :
  Forall (fun r => 0 <= r <= 127) a -> slicerunetostring a = str_of_bytes a.
Proof.
  induction 1 as [|r a Hr Ha IH]; [done|].
  rewrite slicerunetostring_cons, IH, encoderune_1 by done. reflexivity.
Qed.

(** X21.  For a string of ASCII bytes the runes are the bytes, and the
    runes converted back to a string are the string. *)
Theorem ascii_roundtrip s :
  Forall (fun c => c < runeSelf) (str_bytes s) ->
  stringtoslicerune s = str_bytes s
  /\ slicerunetostring (stringtoslicerune s) = s.
Proof.
  intros Ha.
  assert (E : stringtoslicerune s = str_bytes s)
    by (by apply range_runes_ascii).
  split; [done|]. rewrite E, slicerunetostring_ascii_bytes.
  - apply str_of_bytes_bytes.
  - clear E. induction s as [|b s IH]; [constructor|].
    cbn [str_bytes] in *. apply Forall_cons in Ha as [Hb Ha].
    constructor; [|by apply IH].
    pose proof (byte_val_range b). unfold runeSelf in Hb. lia.
Qed.

Lemma ascii_roundtrip_witness :
  Forall (fun c => c < runeSelf) (str_bytes "hi")
  /\ stringtoslicerune "hi" = [ch "h"; ch "i"].
Proof.
  assert (Ha : Forall (fun c => c < runeSelf) (str_bytes "hi")).
  { repeat (constructor; [reflexivity|]). constructor. }
  split; [exact Ha|].
  exact (proj1 (ascii_roundtrip "hi" Ha)).
Defined.

(** ** [splitIntoWords] *)

Example splitIntoWords_example :
  splitIntoWords "  who are you?  " = Some ["who"; "are"; "you?"].
Proof. vm_compute. reflexivity. Qed.

Lemma str_bytes_drop n : forall s, str_bytes (str_drop n s) = drop n (str_bytes s).
Proof. induction n as [|n IH]; intros [|b s]; cbn; auto. Qed.

Lemma str_bytes_take n : forall s, str_bytes (str_take n s) = take n (str_bytes s).
Proof. induction n as [|n IH]; intros [|b s]; cbn; auto. by rewrite IH. Qed.

Lemma str_bytes_slice s i j :
  str_bytes (str_slice s i j) = take (j - i) (drop i (str_bytes s)).
Proof. unfold str_slice. by rewrite str_bytes_take, str_bytes_drop. Qed.

Lemma str_bytes_inj s t : str_bytes s = str_bytes t -> s = t.
Proof. intros H. by rewrite <- (str_of_bytes_bytes s), H, str_of_bytes_bytes. Qed.

Lemma FieldsFunc_range_words sp s :
  is_ascii s ->
  forall fuel e start spans,
  (e <= String.length s)%nat ->
  (String.length s - e <= fuel)%nat ->
  (0 <= start -> (Z.to_nat start < e)%nat) ->
  span_words s (strings.FieldsFunc_range fuel sp (str_drop e s) e start spans)
  = ((fun p : nat * nat => str_bytes (str_slice s p.1 p.2)) <$> spans)
    ++ words_from sp (current_word s start e) (drop e (str_bytes s)).
Proof.
  intros Ha. induction fuel as [|fuel IH]; intros e start spans He Hf Hst.
  - assert (e = String.length s) as -> by lia.
    cbn [strings.FieldsFunc_range]. unfold span_words, current_word. cbn [fst snd].
    rewrite (drop_ge (str_bytes s) (String.length s)) by (rewrite str_bytes_length; lia).
    cbn [words_from].
    destruct (Z.leb_spec 0 start) as [Hs|Hs].
    + rewrite fmap_app. cbn [fmap list_fmap fst snd]. rewrite str_bytes_slice. f_equal.
      specialize (Hst Hs).
      destruct (take _ _) eqn:E; [|done].
      apply (f_equal length) in E. rewrite length_take, length_drop, str_bytes_length in E.
      cbn in E. lia.
    + by rewrite app_nil_r.
  - cbn [strings.FieldsFunc_range].
    destruct (str_drop e s) as [|b rest] eqn:Erest.
    + apply (f_equal str_bytes) in Erest. rewrite str_bytes_drop in Erest.
      cbn [str_bytes] in Erest. rewrite Erest. cbn [words_from].
      assert (e = String.length s) as ->.
      { apply (f_equal length) in Erest. rewrite length_drop, str_bytes_length in Erest.
        cbn in Erest. lia. }
      unfold span_words, current_word. cbn [fst snd].
      destruct (Z.leb_spec 0 start) as [Hs|Hs].
      * rewrite fmap_app. cbn [fmap list_fmap fst snd]. rewrite str_bytes_slice. f_equal.
        specialize (Hst Hs).
        destruct (take _ _) eqn:E; [|done].
        apply (f_equal length) in E.
        rewrite length_take, length_drop, str_bytes_length in E. cbn in E. lia.
      * by rewrite app_nil_r.
    + assert (Eb : drop e (str_bytes s) = byte_val b :: drop (e + 1) (str_bytes s)).
      { rewrite <- str_bytes_drop, Erest. cbn [str_bytes].
        rewrite <- (drop_drop _ 1 e), <- str_bytes_drop, Erest. done. }
      assert (Hlt : (e < String.length s)%nat).
      { apply (f_equal length) in Eb. rewrite length_drop, str_bytes_length in Eb.
        cbn in Eb. lia. }
      assert (Hc : str_bytes s !! e = Some (byte_val b)).
      { pose proof (lookup_drop (str_bytes s) e 0) as Hl.
        rewrite Eb, Nat.add_0_r in Hl. by rewrite <- Hl. }
      assert (Hb : byte_val b < runeSelf).
      { unfold is_ascii in Ha. rewrite Forall_forall in Ha. apply Ha.
        by apply (list_elem_of_lookup_2 _ e). }
      unfold next_rune. rewrite str_at_0.
      apply Z.ltb_lt in Hb. rewrite Hb.
      assert (Ed : str_drop 1 (String b rest) = str_drop (e + 1) s).
      { cbn [str_drop]. apply str_bytes_inj.
        rewrite str_bytes_drop, <- (drop_drop _ 1 e), <- str_bytes_drop, Erest. done. }
      rewrite Ed, Eb. cbn [words_from].
      destruct (sp (byte_val b)) eqn:Esp.
      * destruct (Z.leb_spec 0 start) as [Hs|Hs].
        -- rewrite IH; [|lia|lia|].
           2:{ intros H. unfold Z.lnot in H. lia. }
           rewrite fmap_app, <- app_assoc. f_equal.
           unfold current_word at 1.
           destruct (Z.leb_spec 0 (Z.lnot start)) as [Hl|Hl]; [unfold Z.lnot in Hl; lia|].
           unfold current_word. destruct (Z.leb_spec 0 start); [|lia].
           cbn [fmap list_fmap fst snd]. rewrite str_bytes_slice.
           specialize (Hst Hs).
           destruct (take _ _) eqn:E; [|done].
           apply (f_equal length) in E.
           rewrite length_take, length_drop, str_bytes_length in E. cbn in E. lia.
        -- rewrite IH; [|lia|lia|lia].
           unfold current_word. destruct (Z.leb_spec 0 start); [lia|].
           done.
      * destruct (Z.ltb_spec start 0) as [Hs|Hs].
        -- rewrite IH; [|lia|lia|lia].
           f_equal. f_equal.
           unfold current_word. destruct (Z.leb_spec 0 start); [lia|].
           destruct (Z.leb_spec 0 (Z.of_nat e)); [|lia].
           rewrite Nat2Z.id, Eb. replace (e + 1 - e)%nat with 1%nat by lia. done.
        -- rewrite IH; [|lia|lia|lia].
           f_equal. f_equal.
           unfold current_word. destruct (Z.leb_spec 0 start); [|lia].
           specialize (Hst Hs).
           replace (e + 1 - Z.to_nat start)%nat with (S (e - Z.to_nat start)) by lia.
           erewrite take_S_r; [done|].
           rewrite lookup_drop.
           by replace (Z.to_nat start + (e - Z.to_nat start))%nat with e by lia.
Qed.

Lemma str_at_bytes s : forall i, str_at s i = str_bytes s !! i.
Proof.
  induction s as [|b s IH]; intros [|i]; try done.
  rewrite str_at_S. cbn. apply IH.
Qed.

Lemma str_bytes_range s : Forall (fun c => 0 <= c < 256) (str_bytes s).
Proof. induction s as [|b s IH]; constructor; [apply byte_val_range | done]. Qed.

Lemma str_bytes_of_bytes l :
  Forall (fun c => 0 <= c < 256) l -> str_bytes (str_of_bytes l) = l.
Proof.
  induction 1 as [|c l Hc Hl IH]; [done|].
  change (str_of_bytes (c :: l)) with (String (byte_chr c) (str_of_bytes l)).
  cbn [str_bytes]. by rewrite byte_val_chr, IH.
Qed.

Lemma words_from_Forall (P : Z -> Prop) sp l :
  forall cur, Forall P cur -> Forall P l -> Forall (Forall P) (words_from sp cur l).
Proof.
  induction l as [|c l IH]; intros cur Hcur Hl.
  - cbn. destruct cur; [constructor|]. constructor; [done|constructor].
  - inversion Hl; subst. cbn [words_from]. destruct (sp c).
    + apply Forall_app. split.
      * destruct cur; [constructor|]. constructor; [done|constructor].
      * by apply IH.
    + apply IH; [|done]. apply Forall_app. split; [done|by constructor].
Qed.

Lemma words_from_ext sp sp' l :
  Forall (fun c => sp c = sp' c) l ->
  forall cur, words_from sp cur l = words_from sp' cur l.
Proof.
  induction 1 as [|c l Hc Hl IH]; intros cur; [done|].
  cbn [words_from]. by rewrite Hc, !IH.
Qed.

Lemma space_byte_IsSpace c : 0 <= c < runeSelf -> space_byte c = unicode.IsSpace c.
Proof.
  intros Hc. unfold space_byte, strings.asciiSpace, unicode.IsSpace, uint32,
    unicode.MaxLatin1, runeSelf in *.
  rewrite Z.mod_small by lia.
  destruct (Z.leb_spec c 255); [|lia].
  repeat match goal with
  | |- context [c =? ?b] => destruct (Z.eqb_spec c b); try lia
  end; reflexivity.
Qed.

Lemma asciiSpace_space_byte c :
  strings.asciiSpace c = if space_byte c then 1 else 0.
Proof. unfold space_byte, strings.asciiSpace. by destruct (_ || _). Qed.

Lemma Fields_count_spec l :
  forall cur n sb,
  strings.Fields_count l n (if cur is [] then 1 else 0) sb
  = (n + Z.of_nat (length (words_from space_byte cur l))
       - (if cur is [] then 0 else 1),
     foldl Z.lor sb l).
Proof.
  assert (L11 : Z.land 1 (Z.lnot 1) = 0) by reflexivity.
  assert (L01 : Z.land 0 (Z.lnot 1) = 0) by reflexivity.
  assert (L10 : Z.land 1 (Z.lnot 0) = 1) by reflexivity.
  assert (L00 : Z.land 0 (Z.lnot 0) = 0) by reflexivity.
  induction l as [|r l IH]; intros cur n sb.
  - cbn. destruct cur; cbn [length]; f_equal; lia.
  - cbn [strings.Fields_count words_from foldl].
    rewrite asciiSpace_space_byte. destruct (space_byte r).
    + rewrite (IH [] _ _). f_equal. rewrite length_app.
      destruct cur; cbn [length app]; rewrite ?L11, ?L01; lia.
    + pose proof (IH (cur ++ [r]) (n + Z.land (if cur is [] then 1 else 0) (Z.lnot 0))
                    (Z.lor sb r)) as E.
      destruct (cur ++ [r]) eqn:Ec; [by destruct cur|].
      rewrite E. f_equal. destruct cur; rewrite ?L10, ?L00; lia.
Qed.

Lemma lor_small a b :
  0 <= a -> 0 <= b -> (Z.lor a b < 128 <-> a < 128 /\ b < 128).
Proof.
  intros Ha Hb.
  assert (E : Z.lor a b / 128 = Z.lor (a / 128) (b / 128)).
  { change 128 with (2 ^ 7). rewrite <- !Z.shiftr_div_pow2 by lia.
    apply Z.shiftr_lor. }
  pose proof (proj2 (Z.lor_nonneg a b) (conj Ha Hb)) as Hl.
  split.
  - intros H. assert (E0 : Z.lor a b / 128 = 0) by (apply Z.div_small; lia).
    rewrite E in E0. apply Z.lor_eq_0_iff in E0 as [E1 E2]. clear E. dlia.
  - intros [H1 H2]. rewrite (Z.div_small a), (Z.div_small b) in E by lia.
    change (Z.lor 0 0) with 0 in E. dlia.
Qed.

Lemma foldl_lor_small l :
  Forall (fun c => 0 <= c) l ->
  forall sb, 0 <= sb ->
  0 <= foldl Z.lor sb l
  /\ (foldl Z.lor sb l < 128 <-> sb < 128 /\ Forall (fun c => c < 128) l).
Proof.
  induction 1 as [|c l Hc Hl IH]; intros sb Hsb.
  - cbn. split; [done|]. split; [by split | by intros [? _]].
  - cbn [foldl].
    pose proof (proj2 (Z.lor_nonneg sb c) (conj Hsb Hc)) as Hn.
    destruct (IH _ Hn) as [H1 H2]. split; [done|].
    rewrite H2, lor_small, Forall_cons by done. tauto.
Qed.

Lemma Fields_skip_spec s fuel :
  forall i,
  (i <= String.length s)%nat ->
  (String.length s - i <= fuel)%nat ->
  (i <= strings.Fields_skip fuel s i <= String.length s)%nat
  /\ words_from space_byte [] (drop (strings.Fields_skip fuel s i) (str_bytes s))
     = words_from space_byte [] (drop i (str_bytes s))
  /\ (forall c, str_bytes s !! strings.Fields_skip fuel s i = Some c ->
      space_byte c = false).
Proof.
  induction fuel as [|fuel IH]; intros i Hi Hf.
  - cbn. split; [lia|]. split; [done|]. intros c Hc.
    apply lookup_lt_Some in Hc. rewrite str_bytes_length in Hc. lia.
  - cbn [strings.Fields_skip]. rewrite str_at_bytes.
    destruct (str_bytes s !! i) as [c|] eqn:Ec.
    + destruct (strings.asciiSpace c =? 0) eqn:Esp.
      * split; [lia|]. split; [done|]. intros c' Hc'.
        assert (c' = c) as -> by congruence. unfold space_byte. by rewrite Esp.
      * pose proof (lookup_lt_Some _ _ _ Ec) as Hlt. rewrite str_bytes_length in Hlt.
        destruct (IH (i + 1)%nat) as (H1 & H2 & H3); [lia|lia|].
        split; [lia|]. split; [|done].
        rewrite H2. rewrite (drop_S _ _ _ Ec). cbn [words_from].
        unfold space_byte at 2. rewrite Esp. cbn [negb app].
        by rewrite Nat.add_1_r.
    + split; [lia|]. split; [done|]. by rewrite Ec.
Qed.

Lemma set_index_next D k v :
  (0 < k)%nat ->
  strings.set_index (D ++ replicate k EmptyString) (length D) v
  = Some ((D ++ [v]) ++ replicate (k - 1) EmptyString).
Proof.
  intros Hk. unfold strings.set_index.
  rewrite decide_True by (rewrite length_app, length_replicate; lia).
  f_equal. destruct k as [|k]; [lia|].
  rewrite <- (Nat.add_0_r (length D)), insert_app_r. cbn.
  by rewrite Nat.sub_0_r, <- app_assoc.
Qed.

Lemma Fields_last_spec s D k fs :
  (fs <= String.length s)%nat ->
  (length (words_from space_byte
             (take (String.length s - fs) (drop fs (str_bytes s))) []) <= k)%nat ->
  strings.Fields_last s (D ++ replicate k EmptyString, length D, fs)
  = Some (D ++ (str_of_bytes
                  <$> words_from space_byte
                        (take (String.length s - fs) (drop fs (str_bytes s))) [])
            ++ replicate
                 (k - length (words_from space_byte
                      (take (String.length s - fs) (drop fs (str_bytes s))) []))
                 EmptyString).
Proof.
  intros Hfs Hk. unfold strings.Fields_last.
  assert (Ew : str_slice s fs (String.length s)
               = str_of_bytes (take (String.length s - fs) (drop fs (str_bytes s)))).
  { by rewrite <- str_bytes_slice, str_of_bytes_bytes. }
  cbn [words_from] in *.
  destruct (take (String.length s - fs) (drop fs (str_bytes s))) as [|c cur] eqn:Ecur.
  - apply (f_equal length) in Ecur.
    rewrite length_take, length_drop, str_bytes_length in Ecur. cbn in Ecur.
    rewrite decide_False by lia. cbn. by rewrite Nat.sub_0_r.
  - apply (f_equal length) in Ecur.
    rewrite length_take, length_drop, str_bytes_length in Ecur. cbn in Ecur.
    rewrite decide_True by lia. cbn [length] in Hk.
    rewrite set_index_next by lia. rewrite Ew. cbn [fmap list_fmap length].
    by rewrite <- app_assoc.
Qed.

Lemma Fields_loop_spec s fuel :
  forall D k fs i,
  (fs <= i <= String.length s)%nat ->
  (String.length s - i <= fuel)%nat ->
  (i = fs -> forall c, str_bytes s !! i = Some c -> space_byte c = false) ->
  (length (words_from space_byte (take (i - fs) (drop fs (str_bytes s)))
             (drop i (str_bytes s))) <= k)%nat ->
  strings.Fields_loop fuel s (D ++ replicate k EmptyString) (length D) fs i
    ≫= strings.Fields_last s
  = Some (D ++ (str_of_bytes
                  <$> words_from space_byte (take (i - fs) (drop fs (str_bytes s)))
                        (drop i (str_bytes s)))
            ++ replicate
                 (k - length (words_from space_byte
                                (take (i - fs) (drop fs (str_bytes s)))
                                (drop i (str_bytes s))))
                 EmptyString).
Proof.
  induction fuel as [|fuel IH]; intros D k fs i Hi Hf Hfirst Hk.
  - assert (i = String.length s) as -> by lia.
    cbn [strings.Fields_loop mbind option_bind].
    rewrite (drop_ge (str_bytes s) (String.length s)) in * by (rewrite str_bytes_length; lia).
    apply Fields_last_spec; [lia|done].
  - cbn [strings.Fields_loop]. rewrite str_at_bytes.
    destruct (str_bytes s !! i) as [c|] eqn:Ec.
    + pose proof (lookup_lt_Some _ _ _ Ec) as Hlt. rewrite str_bytes_length in Hlt.
      assert (Ecur : take (i + 1 - fs) (drop fs (str_bytes s))
                     = take (i - fs) (drop fs (str_bytes s)) ++ [c]).
      { replace (i + 1 - fs)%nat with (S (i - fs)) by lia.
        erewrite take_S_r; [done|]. rewrite lookup_drop.
        by replace (fs + (i - fs))%nat with i by lia. }
      assert (Ed : drop i (str_bytes s) = c :: drop (i + 1) (str_bytes s)).
      { rewrite Nat.add_1_r. by apply drop_S. }
      rewrite Ed in Hk |- *. cbn [words_from] in Hk |- *.
      destruct (strings.asciiSpace c =? 0) eqn:Esp.
      * assert (Es : space_byte c = false) by (unfold space_byte; by rewrite Esp).
        rewrite Es in Hk |- *. rewrite <- Ecur in Hk |- *.
        apply IH; [lia|lia| |done].
        intros ?; lia.
      * assert (Es : space_byte c = true) by (unfold space_byte; by rewrite Esp).
        rewrite Es in Hk |- *.
        assert (Hne : i <> fs).
        { intros ->. specialize (Hfirst eq_refl c eq_refl). congruence. }
        assert (Ew : str_slice s fs i
                     = str_of_bytes (take (i - fs) (drop fs (str_bytes s)))).
        { by rewrite <- str_bytes_slice, str_of_bytes_bytes. }
        destruct (take (i - fs) (drop fs (str_bytes s))) as [|c0 cur] eqn:Ecur0.
        { apply (f_equal length) in Ecur0.
          rewrite length_take, length_drop, str_bytes_length in Ecur0. cbn in Ecur0. lia. }
        cbn [app length] in Hk |- *.
        rewrite set_index_next by lia. cbn [mbind option_bind].
        destruct (Fields_skip_spec s (String.length s) (i + 1)%nat) as (H1 & H2 & H3);
          [lia|lia|].
        rewrite <- H2 in Hk |- *.
        set (i' := strings.Fields_skip (String.length s) s (i + 1)) in *.
        pose proof (IH (D ++ [str_slice s fs i]) (k - 1)%nat i' i') as IH'.
        rewrite Nat.sub_diag, take_0, length_app in IH'. cbn [length] in IH'.
        rewrite IH'; [|lia|lia|by intros _|lia].
        rewrite Ew. cbn [fmap list_fmap]. rewrite <- app_assoc. cbn [app].
        do 5 f_equal. lia.
    + pose proof (lookup_ge_None_1 _ _ Ec) as Hge. rewrite str_bytes_length in Hge.
      assert (i = String.length s) as -> by lia.
      cbn [mbind option_bind].
      rewrite (drop_ge (str_bytes s) (String.length s)) in * by (rewrite str_bytes_length; lia).
      apply Fields_last_spec; [lia|done].
Qed.

Lemma Fields_ascii s :
  is_ascii s ->
  strings.Fields s
  = Some (str_of_bytes <$> words_from space_byte [] (str_bytes s)).
Proof.
  intros Ha. unfold strings.Fields.
  rewrite (Fields_count_spec (str_bytes s) [] 0 0).
  destruct (foldl_lor_small (str_bytes s)) with (sb := 0) as [H1 H2]; [|done|].
  { eapply Forall_impl; [apply str_bytes_range|]. intros c Hc. cbn in Hc. lia. }
  assert (Hs : foldl Z.lor 0 (str_bytes s) < 128) by (apply H2; by split).
  unfold runeSelf. destruct (Z.leb_spec 128 (foldl Z.lor 0 (str_bytes s))); [lia|].
  destruct (Fields_skip_spec s (String.length s) 0%nat) as (G1 & G2 & G3); [lia|lia|].
  rewrite drop_0 in G2.
  set (i := strings.Fields_skip (String.length s) s 0) in *.
  replace (Z.to_nat (0 + Z.of_nat (length (words_from space_byte [] (str_bytes s))) - 0))
    with (length (words_from space_byte [] (str_bytes s))) by lia.
  pose proof (Fields_loop_spec s (String.length s) []
                (length (words_from space_byte [] (str_bytes s))) i i) as L.
  rewrite Nat.sub_diag, take_0, G2 in L. cbn [app length] in L.
  rewrite L; [|lia|lia|by intros _|lia].
  by rewrite Nat.sub_diag, app_nil_r.
Qed.

Lemma fmap_str_bytes_inj (ws vs : list string) :
  str_bytes <$> ws = str_bytes <$> vs -> ws = vs.
Proof.
  revert vs. induction ws as [|w ws IH]; intros [|v vs] E; try done.
  cbn in E. injection E as E1 E2. f_equal; [by apply str_bytes_inj | by apply IH].
Qed.

Lemma ascii_spaces s :
  is_ascii s ->
  Forall (fun c => space_byte c = unicode.IsSpace c) (str_bytes s).
Proof.
  intros Ha. pose proof (str_bytes_range s) as Hr. unfold is_ascii in Ha.
  rewrite Forall_forall in Ha, Hr |- *. intros c Hc.
  apply space_byte_IsSpace. specialize (Ha c Hc). specialize (Hr c Hc). cbn in *. lia.
Qed.

Lemma splitIntoWords_words s :
  is_ascii s ->
  exists ws, splitIntoWords s = Some ws
             /\ str_bytes <$> ws = words_from unicode.IsSpace [] (str_bytes s).
Proof.
  intros Ha. eexists. split; [by apply Fields_ascii|].
  rewrite <- list_fmap_compose.
  rewrite (words_from_ext space_byte unicode.IsSpace) by by apply ascii_spaces.
  erewrite (Forall_fmap_ext_1 _ id); [by rewrite list_fmap_id|].
  eapply Forall_impl.
  - apply (words_from_Forall (fun c => 0 <= c < 256)); [done|apply str_bytes_range].
  - intros w Hw. cbn. by apply str_bytes_of_bytes.
Qed.

Lemma FieldsFunc_words s :
  is_ascii s ->
  str_bytes <$> strings.FieldsFunc s unicode.IsSpace
  = words_from unicode.IsSpace [] (str_bytes s).
Proof.
  intros Ha. unfold strings.FieldsFunc.
  assert (H : span_words s
                (strings.FieldsFunc_range (String.length s) unicode.IsSpace s 0 (-1) [])
              = words_from unicode.IsSpace [] (str_bytes s)).
  { apply (FieldsFunc_range_words unicode.IsSpace s Ha (String.length s) 0 (-1) []);
      lia. }
  rewrite <- H. unfold span_words.
  destruct (strings.FieldsFunc_range _ _ _ _ _ _) as [start spans]. cbn [fst snd].
  by rewrite <- list_fmap_compose.
Qed.

Lemma words_from_spec sp l :
  forall cur,
  Forall (fun c => sp c = false) cur ->
  Forall (fun w => w <> [] /\ Forall (fun c => sp c = false) w) (words_from sp cur l)
  /\ concat (words_from sp cur l) = cur ++ List.filter (fun c => negb (sp c)) l.
Proof.
  induction l as [|c l IH]; intros cur Hcur.
  - cbn. destruct cur as [|a cur]; cbn; [by split|].
    split; [|by rewrite !app_nil_r].
    constructor; [|constructor]. by split.
  - cbn [words_from List.filter]. destruct (sp c) eqn:Esp; cbn [negb].
    + destruct (IH [] (Forall_nil_2 _)) as [H1 H2]. destruct cur as [|a cur].
      * done.
      * split; [|cbn [app concat]; by rewrite H2].
        cbn [app]. constructor; [by split | done].
    + destruct (IH (cur ++ [c])) as [H1 H2].
      { apply Forall_app. split; [done|]. constructor; [done|constructor]. }
      split; [done|]. by rewrite H2, <- app_assoc.
Qed.

Lemma words_from_word sp w :
  Forall (fun c => sp c = false) w ->
  forall cur l, words_from sp cur (w ++ l) = words_from sp (cur ++ w) l.
Proof.
  induction 1 as [|c w Hc Hw IH]; intros cur l; [by rewrite app_nil_r|].
  cbn [app words_from]. rewrite Hc, IH. by rewrite <- app_assoc.
Qed.

Lemma words_from_nil_iff sp l :
  words_from sp [] l = [] <-> Forall (fun c => sp c = true) l.
Proof.
  induction l as [|c l IH]; [done|].
  cbn [words_from]. destruct (sp c) eqn:Esp.
  - cbn [app]. rewrite IH. split; [by constructor|]. by inversion 1.
  - cbn [app]. split.
    + intros H. destruct (words_from_spec sp l [c]) as [_ H2].
      { constructor; [done|constructor]. }
      rewrite H in H2. done.
    + inversion 1; congruence.
Qed.

Lemma join_tail_words (ws : list string) :
  Forall is_word ws ->
  forall cur,
  words_from unicode.IsSpace cur
    (str_bytes (str_concat ((fun v => " " +:+ v) <$> ws)))
  = (if cur is [] then [] else [cur]) ++ (str_bytes <$> ws).
Proof.
  induction 1 as [|v ws [Hne Hv] Hws IH]; intros cur.
  - cbn. destruct cur; by rewrite ?app_nil_r.
  - rewrite fmap_cons, str_concat_cons, !str_bytes_app.
    change (str_bytes " ") with [32]. cbn [app words_from].
    change (unicode.IsSpace 32) with true. cbn iota.
    rewrite words_from_word by (eapply Forall_impl; [exact Hv|]; by intros c [_ ?]).
    rewrite IH. cbn [app fmap list_fmap].
    destruct (str_bytes v) eqn:E; [|done].
    by destruct v.
Qed.

Lemma join_spaces_ascii ws : Forall is_word ws -> is_ascii (join_spaces ws).
Proof.
  intros Hws. unfold is_ascii. destruct Hws as [|w ws [Hne Hw] Hws]; [constructor|].
  cbn [join_spaces]. rewrite str_bytes_app. apply Forall_app. split.
  - eapply Forall_impl; [exact Hw|]. by intros c [? _].
  - clear Hne Hw. induction Hws as [|v ws [Hne Hv] Hws IH]; [constructor|].
    rewrite fmap_cons, str_concat_cons, !str_bytes_app.
    repeat (apply Forall_app; split); try done.
    + constructor; [done|constructor].
    + eapply Forall_impl; [exact Hv|]. by intros c [? _].
Qed.

Lemma join_spaces_words ws :
  Forall is_word ws ->
  words_from unicode.IsSpace [] (str_bytes (join_spaces ws)) = str_bytes <$> ws.
Proof.
  intros Hws. destruct Hws as [|w ws [Hne Hw] Hws]; [done|].
  cbn [join_spaces]. rewrite str_bytes_app.
  rewrite words_from_word by (eapply Forall_impl; [exact Hw|]; by intros c [_ ?]).
  rewrite join_tail_words by done. cbn [app fmap list_fmap].
  destruct (str_bytes w) eqn:E; [|done]. by destruct w.
Qed.

(** X22.  For an ASCII string, [splitIntoWords] returns words none of
    which is empty or contains white space, and whose bytes, concatenated,
    are the bytes of the string without its white space. *)
Theorem splitIntoWords_ascii s :
  is_ascii s ->
  exists ws,
    splitIntoWords s = Some ws
    /\ Forall (fun w => w <> EmptyString
                        /\ Forall (fun c => unicode.IsSpace c = false) (str_bytes w)) ws
    /\ concat (str_bytes <$> ws)
       = List.filter (fun c => negb (unicode.IsSpace c)) (str_bytes s).
Proof.
  intros Ha. destruct (splitIntoWords_words s Ha) as (ws & E & Hw).
  exists ws. split; [done|].
  destruct (words_from_spec unicode.IsSpace (str_bytes s) [] (Forall_nil_2 _)) as [H1 H2].
  rewrite <- Hw in H1, H2. split; [|done].
  rewrite Forall_fmap in H1. eapply Forall_impl; [exact H1|].
  intros w [Hne Hsp]. split; [|done]. by intros ->.
Qed.

Lemma splitIntoWords_ascii_witness :
  is_ascii " who  are you? "
  /\ exists ws, splitIntoWords " who  are you? " = Some ws
                /\ Forall (fun w => w <> EmptyString) ws.
Proof.
  assert (Ha : is_ascii " who  are you? ").
  { unfold is_ascii. repeat (constructor; [reflexivity|]). constructor. }
  split; [exact Ha|].
  destruct (splitIntoWords_ascii " who  are you? " Ha) as (ws & E & Hw & _).
  exists ws. split; [exact E|].
  eapply Forall_impl; [exact Hw|]. intros w H. exact (proj1 H).
Defined.

(** X23.  For an ASCII string, [splitIntoWords] returns the empty list
    exactly when every byte of the string is white space. *)
Theorem splitIntoWords_blank s :
  is_ascii s ->
  splitIntoWords s = Some []
  <-> Forall (fun c => unicode.IsSpace c = true) (str_bytes s).
Proof.
  intros Ha. destruct (splitIntoWords_words s Ha) as (ws & E & Hw).
  rewrite <- words_from_nil_iff, <- Hw, E.
  split.
  - intros [= ->]. done.
  - by destruct ws.
Qed.

Lemma splitIntoWords_blank_witness :
  is_ascii "   "
  /\ (splitIntoWords "   " = Some []
      <-> Forall (fun c => unicode.IsSpace c = true) (str_bytes "   ")).
Proof.
  assert (Ha : is_ascii "   ").
  { unfold is_ascii. repeat (constructor; [reflexivity|]). constructor. }
  split; [exact Ha|].
  exact (splitIntoWords_blank "   " Ha).
Defined.

(** X24.  Words that are not empty, are ASCII and have no white space,
    joined by single spaces and split again, come back as they were. *)
Theorem splitIntoWords_join ws :
  Forall is_word ws -> splitIntoWords (join_spaces ws) = Some ws.
Proof.
  intros Hws.
  destruct (splitIntoWords_words _ (join_spaces_ascii ws Hws)) as (vs & E & Hv).
  rewrite E. f_equal. apply fmap_str_bytes_inj.
  by rewrite Hv, join_spaces_words.
Qed.

Lemma splitIntoWords_join_witness :
  Forall is_word demoWords
  /\ join_spaces demoWords = "who are you?"
  /\ splitIntoWords "who are you?" = Some demoWords.
Proof.
  assert (Hw : Forall is_word demoWords).
  { unfold demoWords, is_word.
    repeat (constructor;
            [split; [discriminate|];
             repeat (constructor; [split; reflexivity|]); constructor|]).
    constructor. }
  split; [exact Hw|]. split; [reflexivity|].
  exact (splitIntoWords_join demoWords Hw).
Defined.

(** X25.  [splitIntoWords] returns a list for every string: the slice that
    [strings.Fields] sizes in its first pass is never indexed out of
    range. *)
Theorem splitIntoWords_total s : is_Some (splitIntoWords s).
Proof.
  unfold splitIntoWords.
  destruct (foldl_lor_small (str_bytes s)) with (sb := 0) as [H1 H2]; [|done|].
  { eapply Forall_impl; [apply str_bytes_range|]. intros c Hc. cbn in Hc. lia. }
  destruct (Z.leb_spec runeSelf (foldl Z.lor 0 (str_bytes s))) as [Hb|Hb].
  - unfold strings.Fields. rewrite (Fields_count_spec (str_bytes s) [] 0 0).
    apply Z.leb_le in Hb. by rewrite Hb.
  - rewrite Fields_ascii; [done|]. unfold is_ascii. by apply H2.
Qed.

(** X26.  For an ASCII string, the path [strings.Fields] takes for ASCII
    gives the same list as [FieldsFunc] with [unicode.IsSpace], the path it
    takes for the other strings. *)
Theorem splitIntoWords_FieldsFunc s :
  is_ascii s ->
  splitIntoWords s = Some (strings.FieldsFunc s unicode.IsSpace).
Proof.
  intros Ha. destruct (splitIntoWords_words s Ha) as (ws & E & Hw).
  rewrite E. f_equal. apply fmap_str_bytes_inj.
  by rewrite Hw, FieldsFunc_words.
Qed.

Lemma splitIntoWords_FieldsFunc_witness :
  is_ascii "who are you?"
  /\ splitIntoWords "who are you?"
     = Some (strings.FieldsFunc "who are you?" unicode.IsSpace).
Proof.
  assert (Ha : is_ascii "who are you?").
  { unfold is_ascii. repeat (constructor; [reflexivity|]). constructor. }
  split; [exact Ha|].
  exact (splitIntoWords_FieldsFunc "who are you?" Ha).
Defined.

(** ** Accepted requests, and the delay of the combined route *)

Lemma randomRunes_same n :
  forall w w',
  rand_src w = rand_src w' -> rand_pos w = rand_pos w' ->
  (randomRunes n w).1 = (randomRunes n w').1.
Proof.
  induction n as [|n IH]; intros w w' Hs Hp; [done|].
  cbn [randomRunes]. rewrite !run_bind, !run_Intn. cbn [fst snd].
  rewrite ?run_bind. cbn [mret M_ret fst snd]. rewrite Hs, Hp. f_equal.
  apply IH; cbn; congruence.
Qed.

Lemma fresh_id_emits evs w : fresh_id (emits evs w) = fresh_id w.
Proof.
  unfold fresh_id, randomString. rewrite !run_bind. cbn [mret M_ret fst].
  by rewrite (randomRunes_same 10 (emits evs w) w).
Qed.

Lemma now_unix_log m a w : now_unix (emits [EvLog m a] w) = now_unix w.
Proof. unfold now_unix. cbn. by rewrite Z.add_0_r. Qed.

Lemma envelope_log m a w req : envelope (emits [EvLog m a] w) req = envelope w req.
Proof. unfold envelope. by rewrite fresh_id_emits, now_unix_log. Qed.

Lemma exec_respond_stream lib req w :
  exec (respond lib req) w
  = if ChatCompletionRequest.Stream req
    then emits (request_logged req
                :: stream_events lib (flusher w) (fresh_id w) (now_unix w) req
                     (generateResponse (ChatCompletionRequest.Messages req)))
           (commit StatusOK
              (skip_draws 10 (set_respHeader (stream_headers (respHeader w)) w)))
    else emits [request_logged req;
                EvWrite (json_Marshal_response lib (envelope w req) +:+ LF)]
           (commit StatusOK
              (set_respHeader
                 (Header_Set (respHeader w) "Content-Type" "application/json")
                 (skip_draws 10 w))).
Proof.
  unfold respond. rewrite exec_seq, exec_Info. fold (request_logged req).
  destruct (ChatCompletionRequest.Stream req).
  - rewrite exec_handleStreamingResponse.
    rewrite fresh_id_emits. unfold request_logged at 1 2. rewrite now_unix_log.
    fold (request_logged req).
    rewrite set_respHeader_emits, skip_draws_emits, commit_emits, emits_emits.
    reflexivity.
  - rewrite exec_handleNonStreamingResponse.
    unfold request_logged at 1. rewrite envelope_log. fold (request_logged req).
    rewrite skip_draws_emits, set_respHeader_emits, commit_emits, emits_emits.
    reflexivity.
Qed.

(** X27.  A POST whose body decodes is logged once, before anything is
    written, and is then answered by [handleStreamingResponse] when its
    field [stream] is true and by [handleNonStreamingResponse] when it is
    not: the events after the log entry are those of the chosen responder,
    the status is 200 and Content-Type is text/event-stream or
    application/json accordingly. *)
Theorem accepted_request_dispatch lib r w body req :
  Method r = MethodPost ->
  body_reader lib r = Some body ->
  json_Decode lib body = Some req ->
  wroteHeader w = None ->
  let w' := exec (handleChatCompletion lib r) w in
  emitted w w'
  = request_logged req
    :: (if ChatCompletionRequest.Stream req
        then stream_events lib (flusher w) (fresh_id w) (now_unix w) req
               (generateResponse (ChatCompletionRequest.Messages req))
        else [EvWrite (json_Marshal_response lib (envelope w req) +:+ LF)])
  /\ exists hdr,
       wroteHeader w' = Some (StatusOK, hdr)
       /\ hdr !! "Content-Type"
          = Some [if ChatCompletionRequest.Stream req
                  then "text/event-stream" else "application/json"].
Proof.
  intros Hm Hb Hd Hw w'. subst w'.
  rewrite (handleChatCompletion_post lib r Hm), Hb, Hd, exec_respond_stream.
  destruct (ChatCompletionRequest.Stream req).
  - split.
    + apply emitted_emits. by rewrite trace_commit.
    + eexists. split.
      * change (wroteHeader (emits ?evs ?w1)) with (wroteHeader w1).
        apply wroteHeader_commit_fresh. exact Hw.
      * cbn [respHeader skip_draws set_respHeader]. unfold stream_headers, Header_Set.
        do 2 (rewrite lookup_insert_ne by done). by rewrite lookup_insert_eq.
  - split.
    + apply emitted_emits. by rewrite trace_commit.
    + eexists. split.
      * change (wroteHeader (emits ?evs ?w1)) with (wroteHeader w1).
        apply wroteHeader_commit_fresh. exact Hw.
      * cbn [respHeader skip_draws set_respHeader]. unfold Header_Set.
        by rewrite lookup_insert_eq.
Qed.

Lemma accepted_request_dispatch_witness :
  Method demoRequest = MethodPost
  /\ body_reader demoLib demoRequest = Some (json.mkReader demoBody None)
  /\ json_Decode demoLib (json.mkReader demoBody None) = Some demoReq
  /\ wroteHeader demoWorld = None
  /\ exists hdr,
       wroteHeader (exec (handleChatCompletion demoLib demoRequest) demoWorld)
       = Some (StatusOK, hdr)
       /\ hdr !! "Content-Type" = Some ["text/event-stream"].
Proof.
  assert (Hd : json_Decode demoLib (json.mkReader demoBody None) = Some demoReq)
    by (vm_compute; reflexivity).
  split; [reflexivity|]. split; [reflexivity|]. split; [exact Hd|].
  split; [reflexivity|].
  exact (proj2 (accepted_request_dispatch demoLib demoRequest demoWorld
                  (json.mkReader demoBody None) demoReq eq_refl eq_refl Hd eq_refl)).
Defined.

(** X28.  When the first number [handleRandom] draws is 5 or more (modulo
    10), it draws a second number, sleeps [d] ms with [0 <= d < 5000]
    before anything else happens, and then behaves as
    [handleChatCompletion]; its status is that of the plain route. *)
Theorem combined_route_delay lib r w :
  wroteHeader w = None ->
  5 <= rand_src w (rand_pos w) mod 10 ->
  let w' := exec (handleRandom lib r) w in
  let d := rand_src w (S (rand_pos w)) mod 5000 in
  let w1 := emits [EvSleep (d * Millisecond)] (skip_draws 2 w) in
  0 <= d < 5000
  /\ w' = exec (handleChatCompletion lib r) w1
  /\ clock w1 = clock w + d * Millisecond
  /\ emitted w w' = EvSleep (d * Millisecond) :: emitted w1 w'
  /\ status w' = status (exec (handleChatCompletion lib r) w).
Proof.
  intros Hw Ha w' d w1. subst w'.
  assert (Hd : 0 <= d < 5000) by (apply Z.mod_pos_bound; lia).
  rewrite exec_handleRandom.
  destruct (Z.ltb_spec (rand_src w (rand_pos w) mod 10) 5) as [Hlt|_]; [lia|].
  fold d. fold w1.
  split; [exact Hd|]. split; [reflexivity|]. split.
  { subst w1. cbn [clock emits skip_draws slept foldr]. unfold Millisecond in *. lia. }
  split.
  - apply (emitted_after [EvSleep (d * Millisecond)] w w1).
    + reflexivity.
    + apply trace_handleChatCompletion.
  - by rewrite !status_handleChatCompletion.
Qed.

Lemma combined_route_delay_witness :
  wroteHeader demoDelayWorld = None
  /\ 5 <= rand_src demoDelayWorld (rand_pos demoDelayWorld) mod 10
  /\ status (exec (handleRandom demoLib demoRequest) demoDelayWorld)
     = status (exec (handleChatCompletion demoLib demoRequest) demoDelayWorld).
Proof.
  assert (Ha : 5 <= rand_src demoDelayWorld (rand_pos demoDelayWorld) mod 10)
    by (vm_compute; discriminate).
  split; [reflexivity|]. split; [exact Ha|].
  exact (proj2 (proj2 (proj2 (proj2
           (combined_route_delay demoLib demoRequest demoDelayWorld eq_refl Ha))))).
Defined.
